(** * PaymentAsia mock server: signing, outcome rules, lifecycle, delivery

    A shallow embedding of the TypeScript services of the mock gateway
    ([signature.service.ts], [scenario.service.ts], [callback.service.ts],
    [payment.service.ts] and the hosted-payment-page route) together with
    the properties its specification states about them.

    Conventions.
    - A JavaScript string is a Rocq [string]; every character stands for
      one UTF-16 code unit below 256.  Code units from 128 on take two
      bytes in UTF-8, which is how both [querystring.escape] and
      [Hash.update] see them.
    - Numbers that the code uses as integers (delays in milliseconds,
      epoch times, counters) are [Z] or [nat].
    - A database table is the list of its rows in insertion order.
    - What the platform provides (SHA-512, [querystring], property order
      of objects, [setTimeout]) is modelled from its documentation and
      marked as such. *)

From Stdlib Require Import ZArith List String Ascii Bool Lia Arith.
From Stdlib Require Import Sorting.Sorted Sorting.Permutation.
From Stdlib Require Import QArith.
Import ListNotations.

Local Open Scope string_scope.
Local Open Scope Z_scope.

(* ================================================================= *)
(** ** Strings as JavaScript sees them *)

Module Str.

Definition code (c : ascii) : Z := Z.of_N (N_of_ascii c).

Definition chr (z : Z) : ascii := ascii_of_N (Z.to_N z).

(** [Buffer.from(s, 'utf8')] on code units below 256. *)
Fixpoint utf8 (s : string) : list Z :=
  match s with
  | EmptyString => []
  | String c r =>
      let n := code c in
      if n <? 128 then n :: utf8 r
      else Z.lor 192 (Z.shiftr n 6) :: Z.lor 128 (Z.land n 63) :: utf8 r
  end.

(** [s.endsWith(suffix)] *)
Definition endsWith (s suffix : string) : bool :=
  let l := String.length s in
  let k := String.length suffix in
  if (k <=? l)%nat then String.eqb (substring (l - k) k s) suffix else false.

(** [xs.join(sep)] *)
Fixpoint join (sep : string) (xs : list string) : string :=
  match xs with
  | [] => ""
  | [x] => x
  | x :: r => x ++ sep ++ join sep r
  end.

Fixpoint repeat (c : ascii) (n : nat) : string :=
  match n with
  | O => ""
  | S k => String c (repeat c k)
  end.

Definition is_digit (c : ascii) : bool :=
  (48 <=? code c) && (code c <=? 57).

Fixpoint all_digits (s : string) : bool :=
  match s with
  | EmptyString => true
  | String c r => is_digit c && all_digits r
  end.

(** Value of a digit string, most significant digit first. *)
Fixpoint digits_value (acc : Z) (s : string) : Z :=
  match s with
  | EmptyString => acc
  | String c r => digits_value (10 * acc + (code c - 48)) r
  end.

Definition digit_char (d : Z) : ascii := chr (48 + d).

(** Decimal digits of a non-negative number, with fuel for the length. *)
Fixpoint digits_of (fuel : nat) (n : Z) (acc : string) : string :=
  match fuel with
  | O => acc
  | S f =>
      let acc' := String (digit_char (n mod 10)) acc in
      if n <? 10 then acc' else digits_of f (n / 10) acc'
  end.

(** [Number.prototype.toString] on an integer (below 1e21 in size). *)
Definition of_Z (n : Z) : string :=
  if n <? 0 then String "-" (digits_of (S (Z.to_nat (Z.log2 (- n)))) (- n) "")
  else digits_of (S (Z.to_nat (Z.log2 n))) n "".

(** The last [k] decimal digits of [n], zero padded. *)
Fixpoint fixed_digits (k : nat) (n : Z) (acc : string) : string :=
  match k with
  | O => acc
  | S j => fixed_digits j (n / 10) (String (digit_char (n mod 10)) acc)
  end.

End Str.

(* ================================================================= *)
(** ** SHA-512

    Modelled from FIPS 180-4: [crypto.createHash('sha512')] is part of
    the platform.  Words are [Z] reduced modulo [2^64]. *)

Module SHA512.

Definition mask : Z := 0xffffffffffffffff.

Definition wrap (x : Z) : Z := Z.land x mask.

Definition add (x y : Z) : Z := wrap (x + y).

Definition rotr (n x : Z) : Z :=
  Z.lor (Z.shiftr x n) (wrap (Z.shiftl x (64 - n))).

Definition Ch (x y z : Z) : Z := Z.lxor (Z.land x y) (Z.ldiff z x).

Definition Maj (x y z : Z) : Z :=
  Z.lxor (Z.lxor (Z.land x y) (Z.land x z)) (Z.land y z).

Definition Sigma0 (x : Z) : Z :=
  Z.lxor (Z.lxor (rotr 28 x) (rotr 34 x)) (rotr 39 x).

Definition Sigma1 (x : Z) : Z :=
  Z.lxor (Z.lxor (rotr 14 x) (rotr 18 x)) (rotr 41 x).

Definition sigma0 (x : Z) : Z :=
  Z.lxor (Z.lxor (rotr 1 x) (rotr 8 x)) (Z.shiftr x 7).

Definition sigma1 (x : Z) : Z :=
  Z.lxor (Z.lxor (rotr 19 x) (rotr 61 x)) (Z.shiftr x 6).

Definition K : list Z :=
  [ 0x428a2f98d728ae22; 0x7137449123ef65cd; 0xb5c0fbcfec4d3b2f; 0xe9b5dba58189dbbc;
    0x3956c25bf348b538; 0x59f111f1b605d019; 0x923f82a4af194f9b; 0xab1c5ed5da6d8118;
    0xd807aa98a3030242; 0x12835b0145706fbe; 0x243185be4ee4b28c; 0x550c7dc3d5ffb4e2;
    0x72be5d74f27b896f; 0x80deb1fe3b1696b1; 0x9bdc06a725c71235; 0xc19bf174cf692694;
    0xe49b69c19ef14ad2; 0xefbe4786384f25e3; 0x0fc19dc68b8cd5b5; 0x240ca1cc77ac9c65;
    0x2de92c6f592b0275; 0x4a7484aa6ea6e483; 0x5cb0a9dcbd41fbd4; 0x76f988da831153b5;
    0x983e5152ee66dfab; 0xa831c66d2db43210; 0xb00327c898fb213f; 0xbf597fc7beef0ee4;
    0xc6e00bf33da88fc2; 0xd5a79147930aa725; 0x06ca6351e003826f; 0x142929670a0e6e70;
    0x27b70a8546d22ffc; 0x2e1b21385c26c926; 0x4d2c6dfc5ac42aed; 0x53380d139d95b3df;
    0x650a73548baf63de; 0x766a0abb3c77b2a8; 0x81c2c92e47edaee6; 0x92722c851482353b;
    0xa2bfe8a14cf10364; 0xa81a664bbc423001; 0xc24b8b70d0f89791; 0xc76c51a30654be30;
    0xd192e819d6ef5218; 0xd69906245565a910; 0xf40e35855771202a; 0x106aa07032bbd1b8;
    0x19a4c116b8d2d0c8; 0x1e376c085141ab53; 0x2748774cdf8eeb99; 0x34b0bcb5e19b48a8;
    0x391c0cb3c5c95a63; 0x4ed8aa4ae3418acb; 0x5b9cca4f7763e373; 0x682e6ff3d6b2b8a3;
    0x748f82ee5defb2fc; 0x78a5636f43172f60; 0x84c87814a1f0ab72; 0x8cc702081a6439ec;
    0x90befffa23631e28; 0xa4506cebde82bde9; 0xbef9a3f7b2c67915; 0xc67178f2e372532b;
    0xca273eceea26619c; 0xd186b8c721c0c207; 0xeada7dd6cde0eb1e; 0xf57d4f7fee6ed178;
    0x06f067aa72176fba; 0x0a637dc5a2c898a6; 0x113f9804bef90dae; 0x1b710b35131c471b;
    0x28db77f523047d84; 0x32caab7b40c72493; 0x3c9ebe0a15c9bebc; 0x431d67c49c100d4c;
    0x4cc5d4becb3e42b6; 0x597f299cfc657e2a; 0x5fcb6fab3ad6faec; 0x6c44198c4a475817 ].

(** The eight working variables, also the chaining value. *)
Record state := State {
  ha : Z; hb : Z; hc : Z; hd : Z; he : Z; hf : Z; hg : Z; hh : Z
}.

Definition H0 : state :=
  State 0x6a09e667f3bcc908 0xbb67ae8584caa73b 0x3c6ef372fe94f82b
        0xa54ff53a5f1d36f1 0x510e527fade682d1 0x9b05688c2b3e6c1f
        0x1f83d9abfb41bd6b 0x5be0cd19137e2179.

(** Padding: a one bit, zeros up to 112 modulo 128, the bit length on
    sixteen bytes. *)
Fixpoint be_bytes (k : nat) (n : Z) (acc : list Z) : list Z :=
  match k with
  | O => acc
  | S j => be_bytes j (Z.shiftr n 8) (Z.land n 255 :: acc)
  end.

Definition pad (msg : list Z) : list Z :=
  let l := Z.of_nat (List.length msg) in
  (msg ++ 128 :: List.repeat 0 (Z.to_nat ((111 - l) mod 128))
       ++ be_bytes 16 (8 * l) [])%list.

Fixpoint be_word (bs : list Z) (acc : Z) : Z :=
  match bs with
  | [] => acc
  | b :: r => be_word r (Z.lor (Z.shiftl acc 8) b)
  end.

(** Sixteen big-endian words out of 128 bytes. *)
Fixpoint words (k : nat) (bs : list Z) : list Z :=
  match k with
  | O => []
  | S j => be_word (firstn 8 bs) 0 :: words j (skipn 8 bs)
  end.

(** The message schedule is kept as a window of sixteen words: its
    head is [W t], and the word that enters is [W (t+16)]. *)
Definition next_word (w : list Z) : Z :=
  add (add (sigma1 (nth 14 w 0)) (nth 9 w 0))
      (add (sigma0 (nth 1 w 0)) (nth 0 w 0)).

Definition round (sw : state * list Z) (k : Z) : state * list Z :=
  let (s, w) := sw in
  let t1 := add (add (add (hh s) (Sigma1 (he s))) (Ch (he s) (hf s) (hg s)))
                (add k (nth 0 w 0)) in
  let t2 := add (Sigma0 (ha s)) (Maj (ha s) (hb s) (hc s)) in
  (State (add t1 t2) (ha s) (hb s) (hc s) (add (hd s) t1) (he s) (hf s) (hg s),
   (tl w ++ [next_word w])%list).

Definition compress (h : state) (block : list Z) : state :=
  let s := fst (fold_left round K (h, words 16 block)) in
  State (add (ha h) (ha s)) (add (hb h) (hb s)) (add (hc h) (hc s))
        (add (hd h) (hd s)) (add (he h) (he s)) (add (hf h) (hf s))
        (add (hg h) (hg s)) (add (hh h) (hh s)).

Fixpoint blocks (k : nat) (h : state) (bs : list Z) : state :=
  match k with
  | O => h
  | S j => blocks j (compress h (firstn 128 bs)) (skipn 128 bs)
  end.

Definition digest (msg : list Z) : state :=
  let p := pad msg in
  blocks (List.length p / 128) H0 p.

(** [digest('hex')]: two lowercase digits per byte. *)
Definition hexdigit (n : Z) : ascii :=
  if n <? 10 then Str.chr (48 + n) else Str.chr (87 + n).

Definition nib (w : Z) (i : Z) : ascii :=
  hexdigit (Z.land (Z.shiftr w (4 * i)) 15).

Definition hex64 (w : Z) (rest : string) : string :=
  String (nib w 15) (String (nib w 14) (String (nib w 13) (String (nib w 12)
  (String (nib w 11) (String (nib w 10) (String (nib w 9) (String (nib w 8)
  (String (nib w 7) (String (nib w 6) (String (nib w 5) (String (nib w 4)
  (String (nib w 3) (String (nib w 2) (String (nib w 1) (String (nib w 0)
  rest))))))))))))))).

Definition hex (s : state) : string :=
  hex64 (ha s) (hex64 (hb s) (hex64 (hc s) (hex64 (hd s)
  (hex64 (he s) (hex64 (hf s) (hex64 (hg s) (hex64 (hh s) ""))))))).

(** [createHash('sha512').update(s).digest('hex')] *)
Definition hexdigest (s : string) : string := hex (digest (Str.utf8 s)).

End SHA512.

(* ================================================================= *)
(** ** JavaScript objects used as string maps

    Modelled from ECMAScript (OrdinaryOwnPropertyKeys and the
    [__proto__] accessor of [Object.prototype]): an object is the list
    of its own properties in the order [Object.keys] reports them, keys
    that are array indices first, by ascending value, then the other
    keys in the order of their creation. *)

Module JS.

Definition object := list (string * string).

Definition keys (o : object) : list string := map fst o.

Fixpoint get (o : object) (k : string) : option string :=
  match o with
  | [] => None
  | (k', v) :: r => if String.eqb k' k then Some v else get r k
  end.

Definition has (o : object) (k : string) : bool :=
  match get o k with Some _ => true | None => false end.

(** A canonical numeric string for an integer from 0 to 2^32 - 2. *)
Definition array_index (k : string) : option Z :=
  match k with
  | EmptyString => None
  | String c r =>
      if Str.all_digits k
         && (negb (Ascii.eqb c "0") || String.eqb r "")
         && (Str.digits_value 0 k <=? 4294967294)
      then Some (Str.digits_value 0 k) else None
  end.

Fixpoint replace (o : object) (k v : string) : object :=
  match o with
  | [] => []
  | (k', v') :: r =>
      if String.eqb k' k then (k', v) :: r else (k', v') :: replace r k v
  end.

Fixpoint put_index (o : object) (n : Z) (k v : string) : object :=
  match o with
  | [] => [(k, v)]
  | (k', v') :: r =>
      match array_index k' with
      | Some m => if m <? n then (k', v') :: put_index r n k v
                  else (k, v) :: o
      | None => (k, v) :: o
      end
  end.

(** [o[k] = v] on an object created by [{}], for a string [v].  The
    key [__proto__] reaches the inherited setter, which ignores a value
    that is neither an object nor null. *)
Definition set (o : object) (k v : string) : object :=
  if String.eqb k "__proto__" then o
  else if has o k then replace o k v
  else match array_index k with
       | Some n => put_index o n k v
       | None => (o ++ [(k, v)])%list
       end.

(** The object [o] with the value under [k] changed to [v]. *)
Definition with_value (o : object) (k v : string) : object :=
  map (fun e => if String.eqb (fst e) k then (fst e, v) else e) o.

(** [Array.prototype.sort()] without a comparator orders strings by
    their code units. *)
Fixpoint insert (k : string) (l : list string) : list string :=
  match l with
  | [] => [k]
  | h :: t => if String.leb k h then k :: l else h :: insert k t
  end.

Fixpoint sort (l : list string) : list string :=
  match l with
  | [] => []
  | h :: t => insert h (sort t)
  end.

End JS.

(* ================================================================= *)
(** ** [querystring]

    Modelled from Node's [querystring.escape] and
    [querystring.stringify]. *)

Module QueryString.

(** Characters left as they are: letters, digits and [! ' ( ) * - . _ ~]. *)
Definition noEscape (c : ascii) : bool :=
  let n := Str.code c in
  ((65 <=? n) && (n <=? 90)) || ((97 <=? n) && (n <=? 122))
  || ((48 <=? n) && (n <=? 57))
  || (n =? 33) || ((39 <=? n) && (n <=? 42)) || (n =? 45) || (n =? 46)
  || (n =? 95) || (n =? 126).

Definition upperhex (n : Z) : ascii :=
  if n <? 10 then Str.chr (48 + n) else Str.chr (55 + n).

Definition hexTable (b : Z) : string :=
  String "%" (String (upperhex (Z.shiftr b 4)) (String (upperhex (Z.land b 15)) "")).

Definition escape_char (c : ascii) : string :=
  let n := Str.code c in
  if n <? 128 then
    if noEscape c then String c "" else hexTable n
  else
    hexTable (Z.lor 192 (Z.shiftr n 6)) ++ hexTable (Z.lor 128 (Z.land n 63)).

Fixpoint escape (s : string) : string :=
  match s with
  | EmptyString => ""
  | String c r => escape_char c ++ escape r
  end.

(** The loop of [stringify]: a separator goes in front of every pair
    but the first, told by the accumulator being empty. *)
Definition stringify_step (fields : string) (kv : string * string) : string :=
  let ks := escape (fst kv) ++ "=" in
  let fields := if String.eqb fields "" then fields else fields ++ "&" in
  fields ++ ks ++ escape (snd kv).

Definition stringify (obj : JS.object) : string :=
  fold_left stringify_step obj "".

End QueryString.

(* ================================================================= *)
(** ** [SignatureService] (signature.service.ts) *)

Module SignatureService.

(** [sortFields]: the sorted keys are written one by one into a fresh
    object. *)
Definition sortFields (fields : JS.object) : JS.object :=
  fold_left
    (fun sortedFields key =>
       match JS.get fields key with
       | Some v => JS.set sortedFields key v
       | None => sortedFields
       end)
    (JS.sort (JS.keys fields)) [].

Definition sortAndBuildQuery (fields : JS.object) : string :=
  QueryString.stringify (sortFields fields).

Definition signatureString (fields : JS.object) (secret : string) : string :=
  sortAndBuildQuery fields ++ secret.

Definition generateSignature (fields : JS.object) (secret : string) : string :=
  SHA512.hexdigest (signatureString fields secret).

Definition verifySignature (fields : JS.object) (receivedSign secret : string)
  : bool :=
  let calculatedSign := generateSignature fields secret in
  String.eqb calculatedSign receivedSign.

End SignatureService.

(** The signing rule as the specification words it: entries sorted by
    key, byte by byte, joined as [key=value] with [&], percent-encoded,
    the secret appended, hashed, in lowercase hexadecimal. *)

Module SignSpec.

Fixpoint insert_entry (e : string * string) (l : list (string * string)) :=
  match l with
  | [] => [e]
  | h :: t => if String.leb (fst e) (fst h) then e :: l
              else h :: insert_entry e t
  end.

Fixpoint sort_entries (l : list (string * string)) :=
  match l with
  | [] => []
  | h :: t => insert_entry h (sort_entries t)
  end.

Definition pair_string (e : string * string) : string :=
  QueryString.escape (fst e) ++ "=" ++ QueryString.escape (snd e).

Definition canonical (fields : list (string * string)) : string :=
  Str.join "&" (map pair_string (sort_entries fields)).

Definition sign (fields : list (string * string)) (secret : string) : string :=
  SHA512.hexdigest (canonical fields ++ secret).

End SignSpec.

(* ================================================================= *)
(** ** Types of the payment API (payment.types.ts) *)

(** [PaymentStatus]: the one-character codes kept in the [status]
    column. *)
Inductive PaymentStatus := PENDING | SUCCESS | FAIL | PROCESSING.

Definition status_code (s : PaymentStatus) : string :=
  match s with
  | PENDING => "0"
  | SUCCESS => "1"
  | FAIL => "2"
  | PROCESSING => "4"
  end.

Definition status_eqb (a b : PaymentStatus) : bool :=
  String.eqb (status_code a) (status_code b).

(** The outcome a rule names, and the default of a scenario. *)
Inductive RuleOutcome := RuleSuccess | RuleFail.

Inductive DefaultOutcome := DefaultSuccess | DefaultFail | RANDOM.

Inductive Condition := amount_ends_with | network_is | amount_equals.

Record ScenarioRule := {
  condition : Condition;
  value : string;
  outcome : RuleOutcome
}.

Record ScenarioConfig := {
  defaultOutcome : DefaultOutcome;
  callbackDelay : Z;
  processingDelay : Z;
  rules : list ScenarioRule
}.

(** [Partial<ScenarioConfig>]: any field may be left out. *)
Record PartialScenario := {
  p_defaultOutcome : option DefaultOutcome;
  p_callbackDelay : option Z;
  p_processingDelay : option Z;
  p_rules : option (list ScenarioRule)
}.

(** [config.payment] (config.ts): read once from the environment. *)
Record PaymentConfig := {
  cfg_outcome : DefaultOutcome;
  cfg_callbackDelay : Z;
  cfg_processingDelay : Z
}.

(* ================================================================= *)
(** ** [ScenarioService] (scenario.service.ts) *)

Module ScenarioService.

Definition create (payment : PaymentConfig) : ScenarioConfig :=
  {| defaultOutcome := cfg_outcome payment;
     callbackDelay := cfg_callbackDelay payment;
     processingDelay := cfg_processingDelay payment;
     rules := [] |}.

Definition ruleMatches (rule : ScenarioRule) (amount network : string) : bool :=
  match condition rule with
  | amount_ends_with => Str.endsWith amount (value rule)
  | amount_equals => String.eqb amount (value rule)
  | network_is => String.eqb network (value rule)
  end.

Definition rule_status (rule : ScenarioRule) : PaymentStatus :=
  match outcome rule with RuleSuccess => SUCCESS | RuleFail => FAIL end.

(** The [for] loop over the rules: it returns at the first match. *)
Fixpoint checkRules (rs : list ScenarioRule) (amount network : string)
  : option PaymentStatus :=
  match rs with
  | [] => None
  | rule :: rest =>
      if ruleMatches rule amount network then Some (rule_status rule)
      else checkRules rest amount network
  end.

(** [random] is what [Math.random()] gives if it is called. *)
Definition getOutcomeForTransaction (scenarioConfig : ScenarioConfig)
    (random : Q) (amount network merchantToken : string) : PaymentStatus :=
  match checkRules (rules scenarioConfig) amount network with
  | Some result => result
  | None =>
      match defaultOutcome scenarioConfig with
      | RANDOM => if Qle_bool random (1 # 2) then FAIL else SUCCESS
      | DefaultSuccess => SUCCESS
      | DefaultFail => FAIL
      end
  end.

Definition override {A} (old : A) (new : option A) : A :=
  match new with Some x => x | None => old end.

(** [{ ...this.scenarioConfig, ...scenario }] *)
Definition setScenario (scenarioConfig : ScenarioConfig)
    (scenario : PartialScenario) : ScenarioConfig :=
  {| defaultOutcome :=
       override (defaultOutcome scenarioConfig) (p_defaultOutcome scenario);
     callbackDelay :=
       override (callbackDelay scenarioConfig) (p_callbackDelay scenario);
     processingDelay :=
       override (processingDelay scenarioConfig) (p_processingDelay scenario);
     rules := override (rules scenarioConfig) (p_rules scenario) |}.

Definition addRule (scenarioConfig : ScenarioConfig) (rule : ScenarioRule)
  : ScenarioConfig :=
  {| defaultOutcome := defaultOutcome scenarioConfig;
     callbackDelay := callbackDelay scenarioConfig;
     processingDelay := processingDelay scenarioConfig;
     rules := (rules scenarioConfig ++ [rule])%list |}.

Definition clearRules (scenarioConfig : ScenarioConfig) : ScenarioConfig :=
  {| defaultOutcome := defaultOutcome scenarioConfig;
     callbackDelay := callbackDelay scenarioConfig;
     processingDelay := processingDelay scenarioConfig;
     rules := [] |}.

End ScenarioService.

(* ================================================================= *)
(** ** Decimal amounts

    The [amount] column holds a Prisma [Decimal].  A value is
    [coefficient / 10^places]; amounts are never negative. *)

Module Decimal.

Record t := { coefficient : Z; places : nat }.

(** Position of the first full stop, if any. *)
Fixpoint split_dot (s : string) (acc : string) : string * option string :=
  match s with
  | EmptyString => (acc, None)
  | String c r =>
      if Ascii.eqb c "." then (acc, Some r)
      else split_dot r (acc ++ String c "")
  end.

(** [new Decimal(s)] on [digits] or [digits.digits]; anything else is
    refused in this model. *)
Definition parse (s : string) : option t :=
  match split_dot s "" with
  | (i, None) =>
      if Str.all_digits i && negb (String.eqb i "")
      then Some {| coefficient := Str.digits_value 0 i; places := 0 |}
      else None
  | (i, Some f) =>
      if Str.all_digits i && negb (String.eqb i "")
         && Str.all_digits f && negb (String.eqb f "")
      then Some {| coefficient := Str.digits_value 0 (i ++ f);
                   places := String.length f |}
      else None
  end.

(** [d.toFixed(dp)], rounding half up. *)
Definition toFixed (d : t) (dp : nat) : string :=
  let scaled :=
    (2 * coefficient d * 10 ^ Z.of_nat dp + 10 ^ Z.of_nat (places d))
    / (2 * 10 ^ Z.of_nat (places d)) in
  let whole := Str.of_Z (scaled / 10 ^ Z.of_nat dp) in
  match dp with
  | O => whole
  | _ => whole ++ "." ++ Str.fixed_digits dp (scaled mod 10 ^ Z.of_nat dp) ""
  end.

End Decimal.

(* ================================================================= *)
(** ** The database and the process state *)

(** Modelled from the spec: the Prisma schema is not among the
    sources.  The columns are those the services read and write; the
    customer and subject columns, written at creation and never read by
    the code below, are left out.  A new row has [callbackSent] false
    and [callbackAttempts] zero, and its [id], [requestReference] and
    [createdTime] are given by the database. *)

Record Merchant := {
  m_id : string;
  merchantToken : string;
  signatureSecret : string;
  active : bool
}.

Record Transaction := {
  id : string;
  merchantId : string;
  merchantReference : string;
  requestReference : string;
  currency : string;
  amount : Decimal.t;
  network : string;
  status : PaymentStatus;
  type : string;
  notifyUrl : string;
  callbackSent : bool;
  callbackAttempts : Z;
  lastCallbackAt : option Z;
  createdTime : Z;
  completedTime : option Z;
  merchant : option Merchant      (* filled by [include: { merchant: true }] *)
}.

(** The fields of [PaymentRequest] the services use. *)
Record PaymentRequest := {
  merchant_reference : string;
  req_currency : string;
  req_amount : string;
  req_network : string;
  notify_url : string
}.

(** What a callback target answers to one POST. *)
Inductive HttpReply := Responded (statusCode : Z) | NetworkError | TimedOut.

Inductive Event :=
| Posted (url body : string)
| Slept (ms : Z).

(** A timer callback, with what its closure captured. *)
Inductive Task :=
| ToProcessing (requestRef txId amount network token : string)
| ToFinal (requestRef txId : string) (finalStatus : PaymentStatus)
| ScheduledCallback (txId : string).

Record Timer := {
  requested : Z;     (* the delay handed to setTimeout *)
  due : Z;           (* when it fires *)
  task : Task
}.

Record World := {
  payment : PaymentConfig;          (* config.payment *)
  scenarioConfig : ScenarioConfig;  (* scenarioService.scenarioConfig *)
  transactions : list Transaction;
  merchants : list Merchant;
  clock : Z;                        (* milliseconds since the epoch *)
  timers : list Timer;
  serial : Z;                       (* rows created so far *)
  trace : list Event                (* oldest first *)
}.

Definition set_scenario (w : World) (c : ScenarioConfig) : World :=
  {| payment := payment w; scenarioConfig := c;
     transactions := transactions w; merchants := merchants w;
     clock := clock w; timers := timers w; serial := serial w;
     trace := trace w |}.

Definition set_transactions (w : World) (l : list Transaction) : World :=
  {| payment := payment w; scenarioConfig := scenarioConfig w;
     transactions := l; merchants := merchants w;
     clock := clock w; timers := timers w; serial := serial w;
     trace := trace w |}.

Definition set_timers (w : World) (l : list Timer) : World :=
  {| payment := payment w; scenarioConfig := scenarioConfig w;
     transactions := transactions w; merchants := merchants w;
     clock := clock w; timers := l; serial := serial w;
     trace := trace w |}.

Definition set_clock (w : World) (t : Z) : World :=
  {| payment := payment w; scenarioConfig := scenarioConfig w;
     transactions := transactions w; merchants := merchants w;
     clock := t; timers := timers w; serial := serial w;
     trace := trace w |}.

Definition log_event (w : World) (e : Event) : World :=
  {| payment := payment w; scenarioConfig := scenarioConfig w;
     transactions := transactions w; merchants := merchants w;
     clock := clock w; timers := timers w; serial := serial w;
     trace := (trace w ++ [e])%list |}.

Definition bump_serial (w : World) : World :=
  {| payment := payment w; scenarioConfig := scenarioConfig w;
     transactions := transactions w; merchants := merchants w;
     clock := clock w; timers := timers w; serial := serial w + 1;
     trace := trace w |}.

(** Modelled from Node's documentation of [setTimeout]: a delay below
    1 or above 2147483647 is set to 1. *)
Definition effective_delay (delay : Z) : Z :=
  if (1 <=? delay) && (delay <=? 2147483647) then delay else 1.

Definition setTimeout (w : World) (t : Task) (delay : Z) : World :=
  set_timers w
    (timers w ++ [ {| requested := delay;
                      due := clock w + effective_delay delay;
                      task := t |} ])%list.

(** Row access. *)
Module Db.

Fixpoint find {A} (p : A -> bool) (l : list A) : option A :=
  match l with
  | [] => None
  | x :: r => if p x then Some x else find p r
  end.

(** [update] on a unique column: [None] when no row matches, in which
    case Prisma throws. *)
Fixpoint update (p : Transaction -> bool) (f : Transaction -> Transaction)
    (l : list Transaction) : option (list Transaction) :=
  match l with
  | [] => None
  | x :: r =>
      if p x then Some (f x :: r)
      else match update p f r with
           | Some r' => Some (x :: r')
           | None => None
           end
  end.

Definition by_id (i : string) (tx : Transaction) : bool := String.eqb (id tx) i.

Definition by_requestReference (r : string) (tx : Transaction) : bool :=
  String.eqb (requestReference tx) r.

Definition findTransaction (w : World) (i : string) : option Transaction :=
  find (by_id i) (transactions w).

Definition findMerchant (w : World) (i : string) : option Merchant :=
  find (fun m => String.eqb (m_id m) i) (merchants w).

(** [findUnique({ where: { id }, include: { merchant: true } })] *)
Definition findWithMerchant (w : World) (i : string) : option Transaction :=
  match findTransaction w i with
  | Some tx =>
      Some {| id := id tx; merchantId := merchantId tx;
              merchantReference := merchantReference tx;
              requestReference := requestReference tx;
              currency := currency tx; amount := amount tx;
              network := network tx; status := status tx; type := type tx;
              notifyUrl := notifyUrl tx; callbackSent := callbackSent tx;
              callbackAttempts := callbackAttempts tx;
              lastCallbackAt := lastCallbackAt tx;
              createdTime := createdTime tx;
              completedTime := completedTime tx;
              merchant := findMerchant w (merchantId tx) |}
  | None => None
  end.

End Db.

(* ================================================================= *)
(** ** [PaymentService] (payment.service.ts) *)

Inductive JsonValue := JNull | JNumber (n : Z) | JString (s : string).

(** [TransactionQuery] *)
Record TransactionQuery := {
  q_type : string;
  q_merchant_reference : string;
  q_request_reference : string;
  q_status : string;
  q_currency : string;
  q_amount : string;
  created_time : string;
  completed_time : option string
}.

(** The member of a JSON object under a name. *)
Fixpoint member (k : string) (o : list (string * JsonValue)) : option JsonValue :=
  match o with
  | [] => None
  | (k', v) :: r => if String.eqb k' k then Some v else member k r
  end.

Module PaymentService.

(** [createTransaction]: [None] stands for the thrown
    'Failed to create transaction'. *)
Definition createTransaction (w : World) (data : PaymentRequest)
    (merchantId : string) : option (Transaction * World) :=
  match Decimal.parse (req_amount data) with
  | None => None
  | Some a =>
      let n := Str.of_Z (serial w + 1) in
      let tx := {| id := "tx-" ++ n; merchantId := merchantId;
                   merchantReference := merchant_reference data;
                   requestReference := "req-" ++ n;
                   currency := req_currency data; amount := a;
                   network := req_network data; status := PENDING;
                   type := "Sale"; notifyUrl := notify_url data;
                   callbackSent := false; callbackAttempts := 0;
                   lastCallbackAt := None; createdTime := clock w;
                   completedTime := None; merchant := None |} in
      Some (tx, bump_serial (set_transactions w (transactions w ++ [tx])%list))
  end.

Definition with_status (s : PaymentStatus) (completed : option Z)
    (tx : Transaction) : Transaction :=
  {| id := id tx; merchantId := merchantId tx;
     merchantReference := merchantReference tx;
     requestReference := requestReference tx;
     currency := currency tx; amount := amount tx;
     network := network tx; status := s; type := type tx;
     notifyUrl := notifyUrl tx; callbackSent := callbackSent tx;
     callbackAttempts := callbackAttempts tx;
     lastCallbackAt := lastCallbackAt tx;
     createdTime := createdTime tx;
     completedTime := completed; merchant := merchant tx |}.

(** [updateTransactionStatus]: [None] stands for the thrown
    'Failed to update transaction status'. *)
Definition updateTransactionStatus (w : World) (requestReference : string)
    (status : PaymentStatus) (completedTime : option Z) : option World :=
  let completed :=
    match completedTime with
    | Some t => Some t
    | None =>
        if status_eqb status SUCCESS || status_eqb status FAIL
        then Some (clock w) else None
    end in
  match Db.update (Db.by_requestReference requestReference)
                  (with_status status completed) (transactions w) with
  | Some l => Some (set_transactions w l)
  | None => None
  end.

Definition getTransactionByRequestReference (w : World)
    (requestReference : string) : option Transaction :=
  Db.find (Db.by_requestReference requestReference) (transactions w).

(** [orderBy: { createdTime: 'asc' }] *)
Fixpoint insert_by_time (tx : Transaction) (l : list Transaction) :=
  match l with
  | [] => [tx]
  | h :: t => if createdTime tx <=? createdTime h then tx :: l
              else h :: insert_by_time tx t
  end.

Fixpoint order_by_time (l : list Transaction) : list Transaction :=
  match l with
  | [] => []
  | h :: t => insert_by_time h (order_by_time t)
  end.

Definition epoch_seconds (ms : Z) : string := Str.of_Z (ms / 1000).

Definition toQuery (tx : Transaction) : TransactionQuery :=
  {| q_type := type tx;
     q_merchant_reference := merchantReference tx;
     q_request_reference := requestReference tx;
     q_status := status_code (status tx);
     q_currency := currency tx;
     q_amount := Decimal.toFixed (amount tx) 6;
     created_time := epoch_seconds (createdTime tx);
     completed_time := option_map epoch_seconds (completedTime tx) |}.

Definition getTransactionsByMerchantReference (w : World)
    (merchantReference_ : string) : list TransactionQuery :=
  let found :=
    order_by_time
      (filter (fun tx => String.eqb (merchantReference tx) merchantReference_)
              (transactions w)) in
  map toQuery found.

Definition determinePaymentOutcome (w : World) (random : Q)
    (amount network merchantToken : string) : PaymentStatus :=
  ScenarioService.getOutcomeForTransaction (scenarioConfig w) random
    amount network merchantToken.

(** What [res.json] puts on the wire for one record. *)
Definition toJSON (r : TransactionQuery) : list (string * JsonValue) :=
  [ ("type", JString (q_type r));
    ("merchant_reference", JString (q_merchant_reference r));
    ("request_reference", JString (q_request_reference r));
    ("status", JString (q_status r));
    ("currency", JString (q_currency r));
    ("amount", JString (q_amount r));
    ("created_time", JString (created_time r));
    ("completed_time",
     match completed_time r with Some s => JString s | None => JNull end) ].

End PaymentService.

(* ================================================================= *)
(** ** [CallbackService] (callback.service.ts) *)

Inductive Completion := Returned (b : bool) | Threw.

(** The network: the reply to each POST, numbered from zero in the
    order they are made. *)
Definition Net := nat -> HttpReply.

Module CallbackService.

Definition maxAttempts : Z := 3.

Fixpoint posts (l : list Event) : nat :=
  match l with
  | [] => O
  | Posted _ _ :: r => S (posts r)
  | Slept _ :: r => posts r
  end.

(** [validateStatus: (status) => status === 200] *)
Definition accepted (r : HttpReply) : bool :=
  match r with
  | Responded c => c =? 200
  | _ => false
  end.

Definition buildCallbackPayload (tx : Transaction) (secret : string)
  : JS.object :=
  let fields :=
    [ ("amount", Decimal.toFixed (amount tx) 2);
      ("currency", currency tx);
      ("merchant_reference", merchantReference tx);
      ("request_reference", requestReference tx);
      ("status", status_code (status tx)) ] in
  (fields ++ [("sign", SignatureService.generateSignature fields secret)])%list.

(** The [data] of the two updates: [callbackSent] is only written on
    success. *)
Definition tracking (sent : option bool) (attempt now : Z) (tx : Transaction)
  : Transaction :=
  {| id := id tx; merchantId := merchantId tx;
     merchantReference := merchantReference tx;
     requestReference := requestReference tx;
     currency := currency tx; amount := amount tx;
     network := network tx; status := status tx; type := type tx;
     notifyUrl := notifyUrl tx;
     callbackSent := match sent with Some b => b | None => callbackSent tx end;
     callbackAttempts := attempt;
     lastCallbackAt := Some now;
     createdTime := createdTime tx;
     completedTime := completedTime tx; merchant := merchant tx |}.

Definition sleep (w : World) (ms : Z) : World :=
  set_clock (log_event w (Slept ms)) (clock w + ms).

Definition update_tracking (w : World) (i : string) (sent : option bool)
    (attempt : Z) : option World :=
  match Db.update (Db.by_id i) (tracking sent attempt (clock w))
                  (transactions w) with
  | Some l => Some (set_transactions w l)
  | None => None
  end.

(** The [while (attempt < maxAttempts)] loop; [remaining] counts the
    turns that are left, [maxAttempts - attempt]. *)
Fixpoint attempts (net : Net) (remaining : nat) (attempt : Z)
    (transaction : Transaction) (w : World) : Completion * World :=
  match remaining with
  | O => (Returned false, w)
  | S rest =>
      let attempt := attempt + 1 in
      let merchant :=
        match merchant transaction with
        | Some m => Some m
        | None => Db.findMerchant w (merchantId transaction)
        end in
      match merchant with
      | None => (Returned false, w)
      | Some m =>
          let payload := buildCallbackPayload transaction (signatureSecret m) in
          let reply := net (posts (trace w)) in
          let w1 := log_event w (Posted (notifyUrl transaction)
                                        (QueryString.stringify payload)) in
          let sent :=
            if accepted reply
            then update_tracking w1 (id transaction) (Some true) attempt
            else None in
          match sent with
          | Some w2 => (Returned true, w2)
          | None =>
              (* catch *)
              match update_tracking w1 (id transaction) None attempt with
              | None => (Threw, w1)
              | Some w2 =>
                  if attempt <? maxAttempts
                  then attempts net rest attempt transaction
                         (sleep w2 (2 ^ attempt * 1000))
                  else attempts net rest attempt transaction w2
              end
          end
      end
  end.

Definition sendCallback (net : Net) (transaction : Transaction) (w : World)
  : Completion * World :=
  attempts net (Z.to_nat maxAttempts) 0 transaction w.

Definition scheduleCallback (w : World) (transactionId : string) (delayMs : Z)
  : World :=
  setTimeout w (ScheduledCallback transactionId) delayMs.

Definition triggerCallbackManually (net : Net) (transactionId : string)
    (w : World) : bool * World :=
  match Db.findWithMerchant w transactionId with
  | None => (false, w)
  | Some transaction =>
      match sendCallback net transaction w with
      | (Returned b, w') => (b, w')
      | (Threw, w') => (false, w')
      end
  end.

End CallbackService.

(* ================================================================= *)
(** ** The hosted payment page route and its timers *)

Module PaymentPage.

(** [POST /app/page/:merchantToken], past the validation middleware.
    The HTML or JSON answer is not modelled. *)
Definition handler (w : World) (body : PaymentRequest) (m : Merchant)
  : option (Transaction * World) :=
  match PaymentService.createTransaction w body (m_id m) with
  | None => None
  | Some (transaction, w1) =>
      Some (transaction,
            setTimeout w1
              (ToProcessing (requestReference transaction) (id transaction)
                            (req_amount body) (req_network body)
                            (merchantToken m))
              (cfg_processingDelay (payment w1)))
  end.

(** The delay of the inner [setTimeout]. *)
Definition terminalDelay (c : PaymentConfig) : Z :=
  cfg_callbackDelay c - cfg_processingDelay c.

(** One timer callback, run to its end.  A rejected update ends the
    callback where it stands. *)
Definition run_task (net : Net) (random : Q) (t : Task) (w : World) : World :=
  match t with
  | ToProcessing requestRef txId amount network token =>
      match PaymentService.updateTransactionStatus w requestRef PROCESSING None with
      | None => w
      | Some w1 =>
          let finalStatus :=
            PaymentService.determinePaymentOutcome w1 random amount network token in
          setTimeout w1 (ToFinal requestRef txId finalStatus)
                     (terminalDelay (payment w1))
      end
  | ToFinal requestRef txId finalStatus =>
      match PaymentService.updateTransactionStatus w requestRef finalStatus
              (Some (clock w)) with
      | None => w
      | Some w1 => CallbackService.scheduleCallback w1 txId 0
      end
  | ScheduledCallback txId =>
      match Db.findWithMerchant w txId with
      | Some transaction => snd (CallbackService.sendCallback net transaction w)
      | None => w
      end
  end.

(** The timer that fires next: the earliest, the older one on a tie. *)
Fixpoint pick (l : list Timer) : option (Timer * list Timer) :=
  match l with
  | [] => None
  | t :: r =>
      match pick r with
      | Some (t', r') =>
          if due t <=? due t' then Some (t, r) else Some (t', t :: r')
      | None => Some (t, [])
      end
  end.

Definition tick (net : Net) (random : Q) (w : World) : option World :=
  match pick (timers w) with
  | None => None
  | Some (t, rest) =>
      Some (run_task net random (task t)
              (set_clock (set_timers w rest) (Z.max (clock w) (due t))))
  end.

(** [POST /admin/scenarios] with a body the schema accepts. *)
Definition adminSetScenario (w : World) (p : PartialScenario) : World :=
  set_scenario w (ScenarioService.setScenario (scenarioConfig w) p).

End PaymentPage.

(* ================================================================= *)
(** ** Concrete data for examples *)

Module Sample.

Definition pay : PaymentConfig :=
  {| cfg_outcome := DefaultSuccess;
     cfg_callbackDelay := 3000;
     cfg_processingDelay := 1000 |}.

Definition m1 : Merchant :=
  {| m_id := "m1"; merchantToken := "ae476881";
     signatureSecret := "127f7830"; active := true |}.

Definition w0 : World :=
  {| payment := pay; scenarioConfig := ScenarioService.create pay;
     transactions := []; merchants := [m1]; clock := 1640000000000;
     timers := []; serial := 0; trace := [] |}.

Definition body : PaymentRequest :=
  {| merchant_reference := "ORDER-1"; req_currency := "HKD";
     req_amount := "100.00"; req_network := "Alipay";
     notify_url := "https://example.com/notify" |}.

(** The same request with a zero-padded amount, which the route's
    pattern for amounts accepts. *)
Definition body_padded : PaymentRequest :=
  {| merchant_reference := "ORDER-2"; req_currency := "HKD";
     req_amount := "007.50"; req_network := "Alipay";
     notify_url := "https://example.com/notify" |}.

Definition rule99 (o : RuleOutcome) : ScenarioRule :=
  {| condition := amount_ends_with; value := ".99"; outcome := o |}.

Definition only_default (d : DefaultOutcome) : PartialScenario :=
  {| p_defaultOutcome := Some d; p_callbackDelay := None;
     p_processingDelay := None; p_rules := None |}.

Definition only_delays (processing callback : Z) : PartialScenario :=
  {| p_defaultOutcome := None; p_callbackDelay := Some callback;
     p_processingDelay := Some processing; p_rules := None |}.

Definition always (r : HttpReply) : Net := fun _ => r.

Definition or_else (o : option World) (w : World) : World :=
  match o with Some x => x | None => w end.

(** A payment is requested, and its first timer fires. *)
Definition requested_ : World :=
  match PaymentPage.handler w0 body m1 with
  | Some (_, w) => w
  | None => w0
  end.

Definition processing_ : World :=
  or_else (PaymentPage.tick (always (Responded 200)) 0 requested_) w0.

(** The operator turns the default to FAIL while it is PROCESSING. *)
Definition reconfigured_ : World :=
  PaymentPage.adminSetScenario processing_ (only_default DefaultFail).

Definition completed_ : World :=
  or_else (PaymentPage.tick (always (Responded 200)) 0 reconfigured_) w0.

(** The target refuses three POSTs and accepts from the fourth on. *)
Definition down_then_up : Net :=
  fun n => if (n <? 3)%nat then Responded 500 else Responded 200.

(** The scheduled delivery runs against it and gives up. *)
Definition undelivered_ : World :=
  or_else (PaymentPage.tick down_then_up 0 completed_) w0.

(** The operator then triggers the callback by hand. *)
Definition retriggered_ : bool * World :=
  CallbackService.triggerCallbackManually down_then_up "tx-1" undelivered_.

Definition no_row : Transaction :=
  {| id := ""; merchantId := ""; merchantReference := "";
     requestReference := ""; currency := "";
     amount := {| Decimal.coefficient := 0; Decimal.places := 0 |};
     network := ""; status := PENDING; type := ""; notifyUrl := "";
     callbackSent := false; callbackAttempts := 0;
     lastCallbackAt := None; createdTime := 0; completedTime := None;
     merchant := None |}.

(** The row as [findUnique] with [include] returns it. *)
Definition loaded_ : Transaction :=
  match Db.findWithMerchant completed_ "tx-1" with
  | Some tx => tx
  | None => no_row
  end.

(** The row once the scheduled delivery has given up. *)
Definition given_up_ : Transaction :=
  match Db.findTransaction undelivered_ "tx-1" with
  | Some tx => tx
  | None => no_row
  end.

(** A configuration whose callback delay is the shorter one. *)
Definition pay_inverted : PaymentConfig :=
  {| cfg_outcome := DefaultSuccess;
     cfg_callbackDelay := 1000;
     cfg_processingDelay := 3000 |}.

Definition w0_inverted : World :=
  {| payment := pay_inverted; scenarioConfig := ScenarioService.create pay_inverted;
     transactions := []; merchants := [m1]; clock := 1640000000000;
     timers := []; serial := 0; trace := [] |}.

Definition inverted_requested_ : World :=
  match PaymentPage.handler w0_inverted body m1 with
  | Some (_, w) => w
  | None => w0_inverted
  end.

End Sample.

(* ================================================================= *)
(** ** Errors (error-handler.middleware.ts) *)

(** Modelled from the spec: the class [AppError] is not among the
    sources; it is used as a message with an HTTP status code.  The
    list of messages zod gives for a schema failure is not modelled. *)
Inductive Message := Text (s : string) | ValidationFailed.

Record AppError := { message : Message; statusCode : Z }.

(** A middleware either calls [next()] or hands an error on. *)
Inductive Checked (A : Type) := Next (a : A) | Refused (e : AppError).

Arguments Next {A} a.
Arguments Refused {A} e.

(* ================================================================= *)
(** ** Validation middleware (validation.middleware.ts)

    A request body is an object whose fields are strings, as a form
    post gives it. *)

Module Validation.

(** The longest prefix of digits, and what follows it. *)
Fixpoint span_digits (s : string) : string * string :=
  match s with
  | EmptyString => ("", "")
  | String c r =>
      if Str.is_digit c
      then let (d, rest) := span_digits r in (String c d, rest)
      else ("", s)
  end.

(** [/^\d+\.\d{2}$/] *)
Definition amount_pattern (s : string) : bool :=
  let (whole, rest) := span_digits s in
  negb (String.eqb whole "")
  && match rest with
     | String p (String d1 (String d2 EmptyString)) =>
         Ascii.eqb p "." && Str.is_digit d1 && Str.is_digit d2
     | _ => false
     end.

(** One to three digits, and what follows them. *)
Definition octet (s : string) : option string :=
  let (d, rest) := span_digits s in
  if ((1 <=? String.length d) && (String.length d <=? 3))%nat
  then Some rest else None.

Definition dot_then_octet (s : string) : option string :=
  match s with
  | String p r => if Ascii.eqb p "." then octet r else None
  | EmptyString => None
  end.

(** [/^\d{1,3}\.\d{1,3}\.\d{1,3}\.\d{1,3}$/] *)
Definition ip_pattern (s : string) : bool :=
  match octet s with
  | Some r1 =>
      match dot_then_octet r1 with
      | Some r2 =>
          match dot_then_octet r2 with
          | Some r3 =>
              match dot_then_octet r3 with
              | Some r4 => String.eqb r4 ""
              | None => false
              end
          | None => false
          end
      | None => false
      end
  | None => false
  end.

(** A key of a [z.object] that must be there, and one that may. *)
Definition required (body : JS.object) (k : string) (p : string -> bool) : bool :=
  match JS.get body k with Some v => p v | None => false end.

Definition optional (body : JS.object) (k : string) (p : string -> bool) : bool :=
  match JS.get body k with Some v => p v | None => true end.

Definition max (n : nat) (s : string) : bool := (String.length s <=? n)%nat.

Definition length_is (n : nat) (s : string) : bool := (String.length s =? n)%nat.

Definition one_of (l : list string) (s : string) : bool :=
  existsb (String.eqb s) l.

Definition any (s : string) : bool := true.

(** [queryRequestSchema] *)
Definition queryRequestSchema (body : JS.object) : bool :=
  required body "merchant_reference" (max 36)
  && required body "sign" (length_is 128).

Section Zod.

(** What zod's [.email()] and [.url()] accept. *)
Variables isEmail isUrl : string -> bool.

(** [paymentRequestSchema] *)
Definition paymentRequestSchema (body : JS.object) : bool :=
  required body "merchant_reference" (max 36)
  && required body "currency" (one_of ["HKD"; "USD"; "CNY"])
  && required body "amount" amount_pattern
  && required body "customer_ip" ip_pattern
  && required body "customer_first_name" (max 255)
  && required body "customer_last_name" (max 255)
  && required body "customer_phone" (max 64)
  && required body "customer_email" (fun s => isEmail s && max 255 s)
  && required body "network"
       (one_of ["Alipay"; "Wechat"; "CUP"; "CreditCard"; "Atome"])
  && required body "subject" (max 255)
  && required body "notify_url" (fun s => isUrl s && max 255 s)
  && optional body "return_url" (fun s => isUrl s && max 255 s)
  && optional body "customer_address" any
  && optional body "customer_state" (length_is 2)
  && optional body "customer_country" (length_is 2)
  && optional body "customer_postal_code" (max 64)
  && required body "sign" (length_is 128).

(** [!value] for an optional string. *)
Definition missing (body : JS.object) (k : string) : bool :=
  match JS.get body k with
  | Some v => String.eqb v ""
  | None => true
  end.

Definition field (body : JS.object) (k : string) : string :=
  match JS.get body k with Some v => v | None => "" end.

(** [parseFloat(amount) < 30.0] on an amount of the pattern above.
    [parseFloat] gives the double nearest to the amount, which is below
    30 exactly when the amount is. *)
Definition below_thirty (amount : string) : bool :=
  match Decimal.parse amount with
  | Some d =>
      Decimal.coefficient d <? 30 * 10 ^ Z.of_nat (Decimal.places d)
  | None => false
  end.

Definition refuse {A} (text : string) (code : Z) : Checked A :=
  Refused {| message := Text text; statusCode := code |}.

(** [validatePaymentRequest] *)
Definition validatePaymentRequest (body : JS.object) : Checked unit :=
  if negb (paymentRequestSchema body)
  then Refused {| message := ValidationFailed; statusCode := 400 |}
  else
    let network := field body "network" in
    if (String.eqb network "CreditCard" || String.eqb network "Atome")
       && (missing body "customer_address" || missing body "customer_country"
           || missing body "customer_postal_code")
    then refuse (network ++ " requires customer_address, customer_country, and customer_postal_code") 400
    else if String.eqb network "Atome" && below_thirty (field body "amount")
    then refuse "Atome requires minimum amount of 30.00" 400
    else if negb (String.eqb network "CreditCard")
            && negb (String.eqb (field body "currency") "HKD")
    then refuse (network ++ " only supports HKD currency") 400
    else Next tt.

End Zod.

(** [validateQueryRequest] *)
Definition validateQueryRequest (body : JS.object) : Checked unit :=
  if queryRequestSchema body then Next tt
  else Refused {| message := ValidationFailed; statusCode := 400 |}.

(** [validateMerchant] *)
Definition validateMerchant (w : World) (token : string) : Checked Merchant :=
  if String.eqb token "" then refuse "Merchant token is required" 400
  else
    match Db.find (fun m => String.eqb (merchantToken m) token) (merchants w) with
    | None => refuse "Invalid merchant token" 404
    | Some m =>
        if active m then Next m else refuse "Merchant is inactive" 403
    end.

(** [const { sign, ...fields } = req.body]: the other fields, in order. *)
Definition rest_of (body : JS.object) : JS.object :=
  filter (fun e => negb (String.eqb (fst e) "sign")) body.

(** The loop that fills [stringFields]. *)
Definition stringFields (fields : JS.object) : JS.object :=
  fold_left (fun acc e => JS.set acc (fst e) (snd e)) fields [].

(** [validateSignature] *)
Definition validateSignature (merchant : option Merchant) (body : JS.object)
  : Checked unit :=
  match merchant with
  | None => refuse "Merchant not authenticated" 401
  | Some m =>
      match JS.get body "sign" with
      | None => refuse "Signature is required" 400
      | Some sign =>
          if String.eqb sign "" then refuse "Signature is required" 400
          else if SignatureService.verifySignature
                    (stringFields (rest_of body)) sign (signatureSecret m)
          then Next tt
          else refuse "Invalid signature" 400
      end
  end.

End Validation.

(* ================================================================= *)
(** ** The routes (payment-page.route.ts, payment-query.route.ts) *)

Inductive PageResponse :=
| PageRefused (e : AppError)
| PageFailed                       (* 'Failed to create transaction' *)
| PageAccepted (transaction : Transaction).

Inductive QueryResponse :=
| QueryRefused (e : AppError)
| QueryResult (records : list TransactionQuery).

Module Routes.

Section Zod.

Variables isEmail isUrl : string -> bool.

(** [req.body] read as a [PaymentRequest]. *)
Definition paymentRequest (body : JS.object) : PaymentRequest :=
  {| merchant_reference := Validation.field body "merchant_reference";
     req_currency := Validation.field body "currency";
     req_amount := Validation.field body "amount";
     req_network := Validation.field body "network";
     notify_url := Validation.field body "notify_url" |}.

(** [POST /app/page/:merchantToken] with its three middlewares. *)
Definition paymentPage (w : World) (token : string) (body : JS.object)
  : PageResponse * World :=
  match Validation.validateMerchant w token with
  | Refused e => (PageRefused e, w)
  | Next m =>
      match Validation.validatePaymentRequest isEmail isUrl body with
      | Refused e => (PageRefused e, w)
      | Next _ =>
          match Validation.validateSignature (Some m) body with
          | Refused e => (PageRefused e, w)
          | Next _ =>
              match PaymentPage.handler w (paymentRequest body) m with
              | Some (transaction, w') => (PageAccepted transaction, w')
              | None => (PageFailed, w)
              end
          end
      end
  end.

End Zod.

(** [POST /:merchantToken/payment/query] with its three middlewares. *)
Definition paymentQuery (w : World) (token : string) (body : JS.object)
  : QueryResponse :=
  match Validation.validateMerchant w token with
  | Refused e => QueryRefused e
  | Next m =>
      match Validation.validateQueryRequest body with
      | Refused e => QueryRefused e
      | Next _ =>
          match Validation.validateSignature (Some m) body with
          | Refused e => QueryRefused e
          | Next _ =>
              QueryResult
                (PaymentService.getTransactionsByMerchantReference w
                   (Validation.field body "merchant_reference"))
          end
      end
  end.

End Routes.

(* ================================================================= *)
(** ** The admin API (auth.middleware.ts, admin.route.ts, config.ts) *)

Module Admin.

(** [process.env.API_KEY || 'your-admin-api-key-change-this'] *)
Definition apiKey (env : option string) : string :=
  match env with
  | Some s => if String.eqb s "" then "your-admin-api-key-change-this" else s
  | None => "your-admin-api-key-change-this"
  end.

(** [apiKeyAuth], on the value of the [x-api-key] header. *)
Definition apiKeyAuth (configured : string) (header : option string)
  : Checked unit :=
  match header with
  | None => Validation.refuse "Unauthorized" 401
  | Some h =>
      if String.eqb h "" || negb (String.eqb h configured)
      then Validation.refuse "Unauthorized" 401
      else Next tt
  end.

(** [POST /admin/callbacks/:id/trigger] *)
Definition triggerCallback (net : Net) (configured : string)
    (header : option string) (transactionId : string) (w : World)
  : Checked unit * World :=
  match apiKeyAuth configured header with
  | Refused e => (Refused e, w)
  | Next _ =>
      match CallbackService.triggerCallbackManually net transactionId w with
      | (true, w') => (Next tt, w')
      | (false, w') => (Validation.refuse "Failed to trigger callback" 500, w')
      end
  end.

(** [POST /admin/scenarios] past [safeParse]. *)
Definition postScenario (configured : string) (header : option string)
    (p : PartialScenario) (w : World) : Checked ScenarioConfig * World :=
  match apiKeyAuth configured header with
  | Refused e => (Refused e, w)
  | Next _ =>
      let w' := PaymentPage.adminSetScenario w p in
      (Next (scenarioConfig w'), w')
  end.

End Admin.

(* ================================================================= *)
(** ** Listing (payment.service.ts, [getAllTransactions]) *)

Module Listing.

(** [orderBy: { createdTime: 'desc' }] *)
Fixpoint insert_latest (tx : Transaction) (l : list Transaction) :=
  match l with
  | [] => [tx]
  | h :: t => if createdTime h <=? createdTime tx then tx :: l
              else h :: insert_latest tx t
  end.

Fixpoint latest_first (l : list Transaction) : list Transaction :=
  match l with
  | [] => []
  | h :: t => insert_latest h (latest_first t)
  end.

Record Page := {
  rows : list Transaction;
  page_no : nat;
  page_limit : nat;
  total : nat;
  totalPages : nat
}.

(** [getAllTransactions(page, limit)] for a page and a limit of at
    least one; [Math.ceil(total / limit)] is then the rounded-up
    quotient. *)
Definition getAllTransactions (w : World) (page limit : nat) : Page :=
  let skip := ((page - 1) * limit)%nat in
  let all := latest_first (transactions w) in
  {| rows := firstn limit (skipn skip all);
     page_no := page;
     page_limit := limit;
     total := List.length (transactions w);
     totalPages := ((List.length (transactions w) + limit - 1) / limit)%nat |}.

End Listing.

(* ================================================================= *)
(** ** Executions *)

(** What can happen to the process: a payment request past the
    middlewares, a timer firing, an operator changing the scenario or
    triggering a callback. *)
Inductive Action :=
| Request (body : PaymentRequest) (m : Merchant)
| Fire (net : Net) (random : Q)
| Reconfigure (p : PartialScenario)
| Trigger (net : Net) (transactionId : string).

Definition act (a : Action) (w : World) : World :=
  match a with
  | Request body m =>
      match PaymentPage.handler w body m with
      | Some (_, w') => w'
      | None => w
      end
  | Fire net random =>
      match PaymentPage.tick net random w with
      | Some w' => w'
      | None => w
      end
  | Reconfigure p => PaymentPage.adminSetScenario w p
  | Trigger net i => snd (CallbackService.triggerCallbackManually net i w)
  end.

Definition run (actions : list Action) (w : World) : World :=
  fold_left (fun w a => act a w) actions w.

(** The process as it starts: no rows, no timers. *)
Definition started (w : World) : Prop :=
  transactions w = [] /\ timers w = [] /\ serial w = 0.

(* ================================================================= *)
(** ** Vocabulary of the statements *)

(** *** Lifecycle *)

(** The completion time [updateTransactionStatus] writes. *)
Definition stamped (w : World) (s : PaymentStatus) (completed : option Z)
  : option Z :=
  match completed with
  | Some t => Some t
  | None => if status_eqb s SUCCESS || status_eqb s FAIL
            then Some (clock w) else None
  end.

(** *** Delivery *)

(** The merchant comes with the row or is found by its id. *)
Definition resolves (tx : Transaction) (m : Merchant) (w : World) : Prop :=
  match merchant tx with
  | Some m' => Some m'
  | None => Db.findMerchant w (merchantId tx)
  end = Some m.

Definition url (tx : Transaction) : string := notifyUrl tx.

Definition body (tx : Transaction) (m : Merchant) : string :=
  QueryString.stringify
    (CallbackService.buildCallbackPayload tx (signatureSecret m)).

(** [w2] is [w] with one more POST and the tracking columns written. *)
Definition tracked (tx : Transaction) (m : Merchant) (sent : option bool)
    (attempt : Z) (w w2 : World) : Prop :=
  (forall row, Db.findTransaction w (id tx) = Some row ->
               Db.findTransaction w2 (id tx)
               = Some (CallbackService.tracking sent attempt (clock w) row))
  /\ trace w2 = (trace w ++ [Posted (url tx) (body tx m)])%list
  /\ timers w2 = timers w
  /\ clock w2 = clock w
  /\ merchants w2 = merchants w.

(** The index, among the three POSTs an invocation can make, of the
    first one the target accepts. *)
Definition first_accepted (net : Net) (n0 : nat) : option nat :=
  if CallbackService.accepted (net n0) then Some 0%nat
  else if CallbackService.accepted (net (n0 + 1)%nat) then Some 1%nat
  else if CallbackService.accepted (net (n0 + 2)%nat) then Some 2%nat
  else None.

Definition made (net : Net) (n0 : nat) : nat :=
  match first_accepted net n0 with Some j => S j | None => 3 end.

Definition confirmed (net : Net) (n0 : nat) : bool :=
  match first_accepted net n0 with Some _ => true | None => false end.

(** The time an invocation that makes [k] attempts has waited: 2 s
    after the first failure, 4 s more after the second. *)
Definition waited (k : nat) : Z :=
  match k with
  | O => 0
  | 1%nat => 0
  | 2%nat => 2000
  | _ => 6000
  end.

(** The POSTs and waits of an invocation that makes [k] attempts. *)
Definition deliveries (tx : Transaction) (m : Merchant) (k : nat) : list Event :=
  match k with
  | O => []
  | 1%nat => [Posted (url tx) (body tx m)]
  | 2%nat => [Posted (url tx) (body tx m); Slept 2000; Posted (url tx) (body tx m)]
  | _ => [Posted (url tx) (body tx m); Slept 2000; Posted (url tx) (body tx m);
          Slept 4000; Posted (url tx) (body tx m)]
  end.

(** *** The query *)

Definition earlier (a b : Transaction) : Prop := createdTime a <= createdTime b.

(** Rows as the service writes them. *)
Definition stored_by_service (tx : Transaction) : Prop :=
  type tx = "Sale" /\ 0 <= Decimal.coefficient (amount tx).

Definition leading_nonzero (s : string) : Prop :=
  match s with
  | EmptyString => False
  | String c _ => c <> "0"%char
  end.

(** A digit string without a superfluous leading zero. *)
Definition canonical_digits (s : string) : Prop :=
  Str.all_digits s = true /\ (s = "0" \/ leading_nonzero s).

(** An amount as the route accepts it, without superfluous zeros. *)
Definition two_decimals (a whole : string) (d1 d2 : ascii) : Prop :=
  a = whole ++ String "." (String d1 (String d2 ""))
  /\ canonical_digits whole
  /\ Str.is_digit d1 = true /\ Str.is_digit d2 = true.

(** *** Signing *)

(** Keys that the property order of objects leaves where they are put. *)
Definition plain_key (k : string) : Prop :=
  JS.array_index k = None /\ k <> "__proto__".

Definition plain_fields (fields : JS.object) : Prop :=
  NoDup (JS.keys fields) /\ Forall plain_key (JS.keys fields).

Definition value_of (fields : JS.object) (k : string) : string :=
  match JS.get fields k with Some v => v | None => "" end.

(** The pairs after the first, each behind its separator. *)
Fixpoint following (o : JS.object) : string :=
  match o with
  | [] => ""
  | e :: r => "&" ++ SignSpec.pair_string e ++ following r
  end.

(** The order of two entries by their keys. *)
Definition key_le (a b : string * string) : Prop := String.leb (fst a) (fst b) = true.

Definition lower_hex (c : ascii) : bool :=
  let n := Str.code c in
  ((48 <=? n) && (n <=? 57)) || ((97 <=? n) && (n <=? 102)).

Fixpoint all_lower_hex (s : string) : bool :=
  match s with
  | EmptyString => true
  | String c r => lower_hex c && all_lower_hex r
  end.

(** Neither a space nor a plus sign. *)
Fixpoint no_space_or_plus (s : string) : bool :=
  match s with
  | EmptyString => true
  | String c r =>
      negb (Ascii.eqb c " ") && negb (Ascii.eqb c "+") && no_space_or_plus r
  end.

Definition hexval (c : ascii) : Z :=
  let n := Str.code c in if n <? 58 then n - 48 else n - 55.

(** Reads back one encoded character. *)
Definition unescape_one (s : string) : option (ascii * string) :=
  match s with
  | EmptyString => None
  | String c r =>
      if Ascii.eqb c "%" then
        match r with
        | String x (String y r1) =>
            let b := 16 * hexval x + hexval y in
            if b <? 128 then Some (Str.chr b, r1)
            else
              match r1 with
              | String _ (String x2 (String y2 r2)) =>
                  let b2 := 16 * hexval x2 + hexval y2 in
                  Some (Str.chr (64 * Z.land b 31 + Z.land b2 63), r2)
              | _ => None
              end
        | _ => None
        end
      else Some (c, r)
  end.

(** An entry that carries the value [fields] has under its key. *)
Definition faithful (fields : JS.object) (e : string * string) : Prop :=
  JS.get fields (fst e) = Some (snd e).

(** One turn of the loop of [sortFields]. *)
Definition sortFields_step (fields sortedFields : JS.object) (key : string)
  : JS.object :=
  match JS.get fields key with
  | Some v => JS.set sortedFields key v
  | None => sortedFields
  end.

(** The value written under [k0] once the value under [k] is [v']. *)
Definition written (k v' k0 w : string) : string :=
  if String.eqb k0 k then v' else w.

(** Two different strings with the same SHA-512 digest. *)
Definition collide (a b : string) : Prop :=
  a <> b /\ SHA512.hexdigest a = SHA512.hexdigest b.

(** *** Requests as a merchant sends them *)

Module Requests.

(** A body with its signature under a secret. *)
Definition signed (fields : JS.object) (secret : string) : JS.object :=
  (fields ++ [("sign", SignatureService.generateSignature fields secret)])%list.

Definition page_fields : JS.object :=
  [ ("merchant_reference", "ORDER-1"); ("currency", "HKD");
    ("amount", "100.00"); ("customer_ip", "127.0.0.1");
    ("customer_first_name", "John"); ("customer_last_name", "Doe");
    ("customer_phone", "12345678"); ("customer_email", "john@example.com");
    ("network", "Alipay"); ("subject", "Test");
    ("notify_url", "https://example.com/notify") ].

Definition page_body : JS.object :=
  signed page_fields (signatureSecret Sample.m1).

Definition query_body : JS.object :=
  signed [("merchant_reference", "ORDER-1")] (signatureSecret Sample.m1).

(** A stand-in for zod's [.email()] and [.url()] where only the other
    checks matter. *)
Definition well_formed (s : string) : bool := negb (String.eqb s "").

End Requests.

(** *** What a delivery may touch *)

(** The columns of a row other than the three that track callbacks. *)
Definition payment_columns (r : Transaction) :=
  (id r, merchantId r, merchantReference r, requestReference r, currency r,
   amount r, network r, status r, type r, notifyUrl r, createdTime r,
   completedTime r).

(** [w'] is [w] after some deliveries: at most [n] more POSTs, time
    that has passed, and nothing else but the tracking columns. *)
Definition delivery_frame (n : nat) (w w' : World) : Prop :=
  timers w' = timers w /\ merchants w' = merchants w
  /\ scenarioConfig w' = scenarioConfig w /\ payment w' = payment w
  /\ serial w' = serial w
  /\ map payment_columns (transactions w') = map payment_columns (transactions w)
  /\ clock w <= clock w'
  /\ exists events,
       trace w' = (trace w ++ events)%list
       /\ (CallbackService.posts events <= n)%nat.

(** *** Pages *)

Definition later (a b : Transaction) : Prop := createdTime b <= createdTime a.

(** *** The lifecycle of a payment *)

(** SUCCESS and FAIL, as [updateTransactionStatus] tells them. *)
Definition terminal (s : PaymentStatus) : bool :=
  status_eqb s SUCCESS || status_eqb s FAIL.

(** How far a status is along PENDING, PROCESSING, SUCCESS or FAIL. *)
Definition rank (s : PaymentStatus) : Z :=
  match s with
  | PENDING => 0
  | PROCESSING => 1
  | SUCCESS | FAIL => 2
  end.

(** [row'] is a later state of [row]: the same payment, its status not
    further back, and nothing changed once it was SUCCESS or FAIL. *)
Definition forward (row row' : Transaction) : Prop :=
  id row' = id row /\ requestReference row' = requestReference row
  /\ merchantId row' = merchantId row
  /\ merchantReference row' = merchantReference row
  /\ currency row' = currency row /\ amount row' = amount row
  /\ network row' = network row /\ notifyUrl row' = notifyUrl row
  /\ createdTime row' = createdTime row
  /\ rank (status row) <= rank (status row')
  /\ (terminal (status row) = true ->
      status row' = status row /\ completedTime row' = completedTime row).

(** The row was numbered by the database among the first [n]. *)
Definition numbered (n : Z) (row : Transaction) : Prop :=
  exists k, 1 <= k <= n
            /\ id row = "tx-" ++ Str.of_Z k
            /\ requestReference row = "req-" ++ Str.of_Z k.

(** The completion time is set exactly on SUCCESS and FAIL. *)
Definition settled (row : Transaction) : Prop :=
  completedTime row = None <-> terminal (status row) = false.

(** The row a pending timer will update is in the state the timer
    expects. *)
Definition awaited (rows : list Transaction) (t : Timer) : Prop :=
  match task t with
  | ToProcessing r _ _ _ _ =>
      exists row, Db.find (Db.by_requestReference r) rows = Some row
                  /\ status row = PENDING
  | ToFinal r _ s =>
      terminal s = true
      /\ exists row, Db.find (Db.by_requestReference r) rows = Some row
                     /\ status row = PROCESSING
  | ScheduledCallback _ => True
  end.

(** The request references the pending timers will update. *)
Definition timer_refs (l : list Timer) : list string :=
  flat_map (fun t => match task t with
                     | ToProcessing r _ _ _ _ => [r]
                     | ToFinal r _ _ => [r]
                     | ScheduledCallback _ => []
                     end) l.

(** What holds of every state the process reaches. *)
Definition sound (w : World) : Prop :=
  0 <= serial w
  /\ Forall (numbered (serial w)) (transactions w)
  /\ NoDup (map requestReference (transactions w))
  /\ Forall settled (transactions w)
  /\ Forall (awaited (transactions w)) (timers w)
  /\ NoDup (timer_refs (timers w)).

(** Every payment of [w] is found in [w'] in a later state. *)
Definition advances (w w' : World) : Prop :=
  forall r row,
    PaymentService.getTransactionByRequestReference w r = Some row ->
    exists row',
      PaymentService.getTransactionByRequestReference w' r = Some row'
      /\ forward row row'.

(** *** Reading a query string back *)

(** Neither [&] nor [=]. *)
Fixpoint no_separator (s : string) : bool :=
  match s with
  | EmptyString => true
  | String c r =>
      negb (Ascii.eqb c "&") && negb (Ascii.eqb c "=") && no_separator r
  end.

(** Nothing, or something behind a [&]. *)
Definition separated (s : string) : Prop :=
  match s with
  | EmptyString => True
  | String c _ => c = "&"%char
  end.

(** The timer [t] is the one that will move [row] on. *)
Definition waits_for (t : Timer) (row : Transaction) : Prop :=
  match task t with
  | ToProcessing r _ _ _ _ => r = requestReference row /\ status row = PENDING
  | ToFinal r _ s =>
      r = requestReference row /\ status row = PROCESSING /\ terminal s = true
  | ScheduledCallback _ => False
  end.

(** Every payment that is not complete has its timer pending. *)
Definition attended (w : World) : Prop :=
  forall r row,
    PaymentService.getTransactionByRequestReference w r = Some row ->
    terminal (status row) = true
    \/ exists t, In t (timers w) /\ waits_for t row.

(** *** Status updates *)

(** The columns of a row other than the status and the completion
    time. *)
Definition kept_columns (r : Transaction) :=
  (id r, merchantId r, merchantReference r, requestReference r, currency r,
   amount r, network r, type r, notifyUrl r, callbackSent r,
   callbackAttempts r, lastCallbackAt r, createdTime r, merchant r).

(* ================================================================= *)
(** * Properties *)

(** ** SHA-512 on the test vectors of the standard *)

Example sha512_abc :
  SHA512.hexdigest "abc" =
  "ddaf35a193617abacc417349ae20413112e6fa4e89a97ea20a9eeee64b55d39a2192992a274fc1a836ba3c23a3feebbd454d4423643ce80e2a9ac94fa54ca49f".
Proof. vm_compute. reflexivity. Qed.

Example sha512_empty :
  SHA512.hexdigest "" =
  "cf83e1357eefb8bdf1542850d66d8007d620e4050b5715dc83f4a921d36ce9ce47d0d13c5d85f2b0ff8318d2877eec2f63b931bd47417a81a538327af927da3e".
Proof. vm_compute. reflexivity. Qed.

(** The signature of the unit test's fields, as OpenSSL computes it. *)
Example signature_of_three_fields :
  SignatureService.sortAndBuildQuery
    [ ("merchant_reference", "1234567890"); ("currency", "HKD");
      ("amount", "100.00") ]
  = "amount=100.00&currency=HKD&merchant_reference=1234567890"
  /\ SignatureService.generateSignature
       [ ("merchant_reference", "1234567890"); ("currency", "HKD");
         ("amount", "100.00") ]
       "127f7830-b856-4ddf-92b4-a6478e38547b"
     = "0ba8c6630ffbb20bb048d666341b42bc95dbe488cd0602267503a1014f8740bf353e78c4fbd3e6753cd8676e30612c6f3b80c719b720f35fc3a4a7eb15f3ef0d".
Proof. split; vm_compute; reflexivity. Qed.

(** Percent-encoding of reserved characters and of a code unit above
    127. *)
Example escape_reserved :
  QueryString.escape "a b&c=d%e+f/~" = "a%20b%26c%3Dd%25e%2Bf%2F~"
  /\ QueryString.escape (String (Str.chr 233) "") = "%C3%A9".
Proof. split; vm_compute; reflexivity. Qed.

(** ** Rows *)

Section DbFacts.

Variable p : Transaction -> bool.
Variable f : Transaction -> Transaction.
Hypothesis p_stable : forall x, p (f x) = p x.

Lemma find_update l l' :
  Db.update p f l = Some l' -> Db.find p l' = option_map f (Db.find p l).
Proof.
  revert l'. induction l as [|x r IH]; simpl; intros l' H; [discriminate|].
  destruct (p x) eqn:Hx.
  - inversion H; subst; simpl. now rewrite p_stable, Hx.
  - destruct (Db.update p f r) as [r'|]; [|discriminate].
    inversion H; subst; simpl. rewrite Hx. now apply IH.
Qed.

Lemma update_defined l x :
  Db.find p l = Some x -> exists l', Db.update p f l = Some l'.
Proof.
  induction l as [|y r IH]; simpl; [discriminate|].
  destruct (p y); [eauto|].
  intros H. destruct (IH H) as [r' ->]. eauto.
Qed.

Lemma update_undefined l :
  Db.find p l = None -> Db.update p f l = None.
Proof.
  induction l as [|y r IH]; simpl; [reflexivity|].
  destruct (p y); [discriminate|]. intros H. now rewrite IH.
Qed.

End DbFacts.

(* ================================================================= *)
(** ** The outcome engine *)

Section Rules.

Import ScenarioService.

Variables amount network : string.

Lemma checkRules_skip pre rest :
  Forall (fun x => ruleMatches x amount network = false) pre ->
  checkRules (pre ++ rest) amount network = checkRules rest amount network.
Proof.
  induction 1 as [|x l Hx _ IH]; simpl; [reflexivity|].
  now rewrite Hx.
Qed.

Lemma checkRules_first pre r post :
  Forall (fun x => ruleMatches x amount network = false) pre ->
  ruleMatches r amount network = true ->
  checkRules (pre ++ r :: post) amount network = Some (rule_status r).
Proof.
  intros Hpre Hr. rewrite checkRules_skip by assumption.
  simpl. now rewrite Hr.
Qed.

Lemma checkRules_none rs :
  Forall (fun x => ruleMatches x amount network = false) rs ->
  checkRules rs amount network = None.
Proof.
  intros H. rewrite <- (app_nil_r rs). now rewrite checkRules_skip.
Qed.

End Rules.

(** C4: the engine returns the outcome of the first rule, in list
    order, that matches, whatever rules follow it: SUCCESS when that
    rule says SUCCESS and FAIL when it says FAIL.  With the two ".99"
    rules FAIL then SUCCESS and amount "99.99" it returns FAIL, and
    with the same rules in the other order it returns SUCCESS; and
    when no rule matches a default of SUCCESS or FAIL is returned as
    it is. *)
Theorem C4_first_matching_rule_wins :
  (forall cfg random amount network token pre r post,
      rules cfg = (pre ++ r :: post)%list ->
      Forall (fun x => ScenarioService.ruleMatches x amount network = false) pre ->
      ScenarioService.ruleMatches r amount network = true ->
      ScenarioService.getOutcomeForTransaction cfg random amount network token
      = match outcome r with
        | RuleSuccess => SUCCESS
        | RuleFail => FAIL
        end)
  /\ (forall d cd pd random network token,
      ScenarioService.getOutcomeForTransaction
        {| defaultOutcome := d; callbackDelay := cd; processingDelay := pd;
           rules := [Sample.rule99 RuleFail; Sample.rule99 RuleSuccess] |}
        random "99.99" network token = FAIL)
  /\ (forall d cd pd random network token,
      ScenarioService.getOutcomeForTransaction
        {| defaultOutcome := d; callbackDelay := cd; processingDelay := pd;
           rules := [Sample.rule99 RuleSuccess; Sample.rule99 RuleFail] |}
        random "99.99" network token = SUCCESS)
  /\ (forall cfg random amount network token,
      Forall (fun x => ScenarioService.ruleMatches x amount network = false)
             (rules cfg) ->
      ScenarioService.getOutcomeForTransaction cfg random amount network token
      = match defaultOutcome cfg with
        | DefaultSuccess => SUCCESS
        | DefaultFail => FAIL
        | RANDOM => if Qle_bool random (1 # 2) then FAIL else SUCCESS
        end).
Proof.
  split; [|split; [|split]].
  - intros cfg random amount network token pre r post Hrules Hpre Hr.
    unfold ScenarioService.getOutcomeForTransaction.
    rewrite Hrules, (checkRules_first amount network pre r post Hpre Hr).
    unfold ScenarioService.rule_status. destruct (outcome r); reflexivity.
  - intros. reflexivity.
  - intros. reflexivity.
  - intros cfg random amount network token Hnone.
    unfold ScenarioService.getOutcomeForTransaction.
    rewrite (checkRules_none amount network _ Hnone).
    destruct (defaultOutcome cfg); reflexivity.
Qed.

Lemma C4_first_matching_rule_wins_witness :
  ScenarioService.getOutcomeForTransaction
    {| defaultOutcome := DefaultSuccess; callbackDelay := 3000;
       processingDelay := 1000;
       rules := [ {| condition := network_is; value := "CUP"; outcome := RuleSuccess |};
                  Sample.rule99 RuleFail; Sample.rule99 RuleSuccess ] |}
    0 "99.99" "Alipay" "ae476881" = FAIL
  /\ ScenarioService.getOutcomeForTransaction
       {| defaultOutcome := DefaultFail; callbackDelay := 3000;
          processingDelay := 1000;
          rules := [ {| condition := network_is; value := "CUP"; outcome := RuleFail |};
                     Sample.rule99 RuleSuccess; Sample.rule99 RuleFail ] |}
       0 "99.99" "Alipay" "ae476881" = SUCCESS
  /\ ScenarioService.getOutcomeForTransaction
       {| defaultOutcome := DefaultFail; callbackDelay := 3000;
          processingDelay := 1000; rules := [Sample.rule99 RuleSuccess] |}
       0 "100.00" "Alipay" "ae476881" = FAIL.
Proof.
  destruct C4_first_matching_rule_wins as (Hfirst & _ & _ & Hdefault).
  split; [|split].
  - apply (Hfirst _ 0%Q "99.99" "Alipay" "ae476881"
             [ {| condition := network_is; value := "CUP"; outcome := RuleSuccess |} ]
             (Sample.rule99 RuleFail) [Sample.rule99 RuleSuccess]).
    + reflexivity.
    + repeat constructor.
    + reflexivity.
  - apply (Hfirst _ 0%Q "99.99" "Alipay" "ae476881"
             [ {| condition := network_is; value := "CUP"; outcome := RuleFail |} ]
             (Sample.rule99 RuleSuccess) [Sample.rule99 RuleFail]).
    + reflexivity.
    + repeat constructor.
    + reflexivity.
  - apply (Hdefault
             {| defaultOutcome := DefaultFail; callbackDelay := 3000;
                processingDelay := 1000; rules := [Sample.rule99 RuleSuccess] |}
             0%Q "100.00" "Alipay" "ae476881").
    repeat constructor.
Defined.

(** C10: [setScenario] replaces the fields the request carries and
    keeps the others; a request with only [defaultOutcome] keeps the
    rules and both delays, and so leaves the rule pass as it was. *)
Theorem C10_setScenario_keeps_omitted_fields :
  forall cfg p,
    let cfg' := ScenarioService.setScenario cfg p in
    (forall d, p_defaultOutcome p = Some d -> defaultOutcome cfg' = d)
    /\ (p_defaultOutcome p = None -> defaultOutcome cfg' = defaultOutcome cfg)
    /\ (forall z, p_processingDelay p = Some z -> processingDelay cfg' = z)
    /\ (p_processingDelay p = None -> processingDelay cfg' = processingDelay cfg)
    /\ (forall z, p_callbackDelay p = Some z -> callbackDelay cfg' = z)
    /\ (p_callbackDelay p = None -> callbackDelay cfg' = callbackDelay cfg)
    /\ (forall l, p_rules p = Some l -> rules cfg' = l)
    /\ (p_rules p = None -> rules cfg' = rules cfg)
    /\ (forall d,
          let only := ScenarioService.setScenario cfg (Sample.only_default d) in
          defaultOutcome only = d
          /\ rules only = rules cfg
          /\ processingDelay only = processingDelay cfg
          /\ callbackDelay only = callbackDelay cfg
          /\ forall amount network,
               ScenarioService.checkRules (rules only) amount network
               = ScenarioService.checkRules (rules cfg) amount network).
Proof.
  intros cfg p cfg'. subst cfg'. unfold ScenarioService.setScenario; simpl.
  repeat split; intros; try match goal with H : _ = _ |- _ => rewrite H end;
    reflexivity.
Qed.

Lemma C10_setScenario_keeps_omitted_fields_witness :
  let cfg := ScenarioService.addRule (ScenarioService.create Sample.pay)
               {| condition := network_is; value := "Alipay"; outcome := RuleSuccess |} in
  let cfg' := ScenarioService.setScenario cfg (Sample.only_default DefaultFail) in
  defaultOutcome cfg' = DefaultFail /\ List.length (rules cfg') = 1%nat
  /\ processingDelay cfg' = 1000 /\ callbackDelay cfg' = 3000.
Proof.
  intros cfg cfg'.
  destruct (C10_setScenario_keeps_omitted_fields cfg (Sample.only_default DefaultFail))
    as (Hd & _ & _ & Hp & _ & Hc & _ & Hr & _).
  split; [apply Hd; reflexivity|].
  split; [unfold cfg'; rewrite Hr; reflexivity|].
  split; [unfold cfg'; rewrite Hp; reflexivity|].
  unfold cfg'; rewrite Hc; reflexivity.
Defined.

(* ================================================================= *)
(** ** The lifecycle timers *)

Section StatusUpdate.

Variables (w w1 : World) (requestRef : string) (s : PaymentStatus).
Variable completed : option Z.

Hypothesis updated :
  PaymentService.updateTransactionStatus w requestRef s completed = Some w1.

Lemma updated_row :
  PaymentService.getTransactionByRequestReference w1 requestRef
  = option_map (PaymentService.with_status s (stamped w s completed))
      (PaymentService.getTransactionByRequestReference w requestRef).
Proof.
  revert updated.
  unfold PaymentService.updateTransactionStatus,
    PaymentService.getTransactionByRequestReference.
  fold (stamped w s completed).
  destruct (Db.update _ _ (transactions w)) as [l|] eqn:Hu; [|discriminate].
  intros H; inversion H; subst; simpl.
  apply find_update; [|exact Hu]. intros x; reflexivity.
Qed.

Lemma updated_frame :
  payment w1 = payment w /\ scenarioConfig w1 = scenarioConfig w
  /\ timers w1 = timers w /\ clock w1 = clock w /\ trace w1 = trace w.
Proof.
  revert updated. unfold PaymentService.updateTransactionStatus.
  destruct (Db.update _ _ (transactions w)); [|discriminate].
  intros H; inversion H; subst; simpl. repeat split.
Qed.

End StatusUpdate.

Lemma update_status_defined w requestRef s completed tx :
  PaymentService.getTransactionByRequestReference w requestRef = Some tx ->
  exists w1,
    PaymentService.updateTransactionStatus w requestRef s completed = Some w1.
Proof.
  unfold PaymentService.getTransactionByRequestReference,
    PaymentService.updateTransactionStatus.
  intros H.
  destruct (update_defined (Db.by_requestReference requestRef)
              (PaymentService.with_status s (stamped w s completed)) _ _ H)
    as [l Hl].
  unfold stamped in Hl. rewrite Hl. eauto.
Qed.

(** What the callback of the first timer leaves behind. *)
Lemma processing_fires net random w requestRef txId amount network token tx :
  PaymentService.getTransactionByRequestReference w requestRef = Some tx ->
  let w' := PaymentPage.run_task net random
              (ToProcessing requestRef txId amount network token) w in
  PaymentService.getTransactionByRequestReference w' requestRef
  = Some (PaymentService.with_status PROCESSING None tx)
  /\ timers w'
     = (timers w ++
        [ {| requested := PaymentPage.terminalDelay (payment w);
             due := clock w + effective_delay (PaymentPage.terminalDelay (payment w));
             task := ToFinal requestRef txId
                       (ScenarioService.getOutcomeForTransaction
                          (scenarioConfig w) random amount network token) |} ])%list.
Proof.
  intros Htx w'. subst w'. simpl.
  destruct (update_status_defined w requestRef PROCESSING None tx Htx) as [w1 Hw1].
  rewrite Hw1.
  pose proof (updated_row _ _ _ _ _ Hw1) as Hrow.
  destruct (updated_frame _ _ _ _ _ Hw1) as (Hp & Hs & Ht & Hc & _).
  rewrite Htx in Hrow. simpl in Hrow.
  unfold setTimeout, PaymentService.determinePaymentOutcome,
    PaymentService.getTransactionByRequestReference in *.
  simpl. rewrite Hp, Hs, Ht, Hc. split; [exact Hrow | reflexivity].
Qed.

(** What the callback of the second timer leaves behind. *)
Lemma final_fires net random w requestRef txId finalStatus tx :
  PaymentService.getTransactionByRequestReference w requestRef = Some tx ->
  let w' := PaymentPage.run_task net random
              (ToFinal requestRef txId finalStatus) w in
  PaymentService.getTransactionByRequestReference w' requestRef
  = Some (PaymentService.with_status finalStatus (Some (clock w)) tx)
  /\ timers w'
     = (timers w ++
        [ {| requested := 0; due := clock w + 1;
             task := ScheduledCallback txId |} ])%list.
Proof.
  intros Htx w'. subst w'. simpl.
  destruct (update_status_defined w requestRef finalStatus (Some (clock w)) tx Htx)
    as [w1 Hw1].
  rewrite Hw1.
  pose proof (updated_row _ _ _ _ _ Hw1) as Hrow.
  destruct (updated_frame _ _ _ _ _ Hw1) as (Hp & Hs & Ht & Hc & _).
  rewrite Htx in Hrow. simpl in Hrow.
  unfold CallbackService.scheduleCallback, setTimeout,
    PaymentService.getTransactionByRequestReference in *.
  simpl. rewrite Ht, Hc. split; [exact Hrow | reflexivity].
Qed.

(** C1, as the code has it: when the first timer fires the row goes to
    PROCESSING and the outcome engine is asked at once, with the
    configuration of that moment; the answer travels in the closure of
    the second timer, whose callback writes it whatever the
    configuration has become. *)
Theorem C1_outcome_decided_when_processing_fires :
  forall net random w requestRef txId amount network token tx,
    PaymentService.getTransactionByRequestReference w requestRef = Some tx ->
    let decided :=
      ScenarioService.getOutcomeForTransaction (scenarioConfig w) random
        amount network token in
    let w' := PaymentPage.run_task net random
                (ToProcessing requestRef txId amount network token) w in
    option_map status (PaymentService.getTransactionByRequestReference w' requestRef)
      = Some PROCESSING
    /\ option_map completedTime
         (PaymentService.getTransactionByRequestReference w' requestRef)
       = Some None
    /\ map task (timers w')
       = (map task (timers w) ++ [ToFinal requestRef txId decided])%list
    /\ forall net' random' later tx',
         PaymentService.getTransactionByRequestReference later requestRef
           = Some tx' ->
         let w'' := PaymentPage.run_task net' random'
                      (ToFinal requestRef txId decided) later in
         option_map status
           (PaymentService.getTransactionByRequestReference w'' requestRef)
           = Some decided
         /\ option_map completedTime
              (PaymentService.getTransactionByRequestReference w'' requestRef)
            = Some (Some (clock later)).
Proof.
  intros net random w requestRef txId amount network token tx Htx decided w'.
  destruct (processing_fires net random w requestRef txId amount network token tx Htx)
    as [Hrow Htimers].
  fold w' in Hrow, Htimers. rewrite Hrow, Htimers, map_app.
  split; [reflexivity | split; [reflexivity | split; [reflexivity|]]].
  intros net' random' later tx' Hlater w''.
  destruct (final_fires net' random' later requestRef txId decided tx' Hlater)
    as [Hrow' _].
  fold w'' in Hrow'. rewrite Hrow'. split; reflexivity.
Qed.

Lemma C1_outcome_decided_when_processing_fires_witness :
  option_map status
    (PaymentService.getTransactionByRequestReference Sample.processing_ "req-1")
    = Some PROCESSING
  /\ map task (timers Sample.processing_) = [ToFinal "req-1" "tx-1" SUCCESS]
  /\ option_map status
       (PaymentService.getTransactionByRequestReference Sample.completed_ "req-1")
     = Some SUCCESS.
Proof.
  pose proof (C1_outcome_decided_when_processing_fires
                (Sample.always (Responded 200)) 0%Q
                (set_clock (set_timers Sample.requested_ []) 1640000001000)
                "req-1" "tx-1" "100.00" "Alipay" "ae476881") as H.
  specialize (H _ eq_refl). cbv zeta in H.
  destruct H as (Hstatus & _ & Htasks & Hlater).
  split; [exact Hstatus | split; [exact Htasks |]].
  specialize (Hlater (Sample.always (Responded 200)) 0%Q
                (set_clock (set_timers Sample.reconfigured_ []) 1640000003000)
                _ eq_refl).
  cbv zeta in Hlater. destruct Hlater as [Hfinal _]. exact Hfinal.
Defined.

(** C1, as the claim has it, fails: the default is turned to FAIL
    after the row went to PROCESSING and before the second timer
    fires, the engine would now say FAIL, and SUCCESS is written. *)
Lemma C1_later_configuration_is_not_consulted :
  option_map status
    (PaymentService.getTransactionByRequestReference Sample.processing_ "req-1")
    = Some PROCESSING
  /\ defaultOutcome (scenarioConfig Sample.processing_) = DefaultSuccess
  /\ defaultOutcome (scenarioConfig Sample.reconfigured_) = DefaultFail
  /\ PaymentService.determinePaymentOutcome Sample.reconfigured_ 0
       "100.00" "Alipay" "ae476881" = FAIL
  /\ option_map status
       (PaymentService.getTransactionByRequestReference Sample.completed_ "req-1")
     = Some SUCCESS
  /\ ~ (option_map status
          (PaymentService.getTransactionByRequestReference Sample.completed_ "req-1")
        = Some (PaymentService.determinePaymentOutcome Sample.reconfigured_ 0
                  "100.00" "Alipay" "ae476881")).
Proof.
  repeat split; try reflexivity. vm_compute. discriminate.
Qed.

(** C8: the code takes both delays from [config.payment], which no
    request changes: whatever an operator sets through
    [setScenario], the timers the route and its first callback create
    are requested and due exactly as before.  Here the scenario says
    5000 and 9000 and the timers are set for 1000 and 2000. *)
Theorem C8_reconfigured_delays_are_not_used :
  (forall w p body m,
      option_map (fun r => timers (snd r))
        (PaymentPage.handler (PaymentPage.adminSetScenario w p) body m)
      = option_map (fun r => timers (snd r)) (PaymentPage.handler w body m))
  /\ (forall w p net random requestRef txId amount network token,
      map (fun t => (requested t, due t))
        (timers (PaymentPage.run_task net random
                   (ToProcessing requestRef txId amount network token)
                   (PaymentPage.adminSetScenario w p)))
      = map (fun t => (requested t, due t))
          (timers (PaymentPage.run_task net random
                     (ToProcessing requestRef txId amount network token) w)))
  /\ (let w := PaymentPage.adminSetScenario Sample.w0 (Sample.only_delays 5000 9000) in
      processingDelay (scenarioConfig w) = 5000
      /\ callbackDelay (scenarioConfig w) = 9000
      /\ option_map (fun r => map requested (timers (snd r)))
           (PaymentPage.handler w Sample.body Sample.m1) = Some [1000]
      /\ option_map
           (fun r => map requested
                       (timers (PaymentPage.run_task (Sample.always (Responded 200)) 0
                                  (ToProcessing "req-1" "tx-1" "100.00" "Alipay" "ae476881")
                                  (set_timers (snd r) []))))
           (PaymentPage.handler w Sample.body Sample.m1) = Some [2000]).
Proof.
  split; [|split].
  - intros w p body m. unfold PaymentPage.handler, PaymentService.createTransaction.
    simpl. destruct (Decimal.parse (req_amount body)); reflexivity.
  - intros w p net random requestRef txId amount network token.
    unfold PaymentPage.run_task, PaymentService.updateTransactionStatus. simpl.
    destruct (Db.update _ _ (transactions w)); simpl; [|reflexivity].
    rewrite !map_app. reflexivity.
  - vm_compute. repeat split.
Qed.

(** The timer treats a delay below one millisecond as one
    millisecond: a negative delay and the delay zero are the same to
    it, and no timer fires before it is set. *)
Lemma effective_delay_clamped d :
  effective_delay (Z.max 0 d) = effective_delay d /\ 1 <= effective_delay d.
Proof.
  unfold effective_delay.
  destruct (Z.leb_spec 1 d) as [H1|H1].
  - rewrite Z.max_r by lia.
    replace (1 <=? d) with true by (symmetry; apply Z.leb_le; lia).
    cbn [andb]. destruct (Z.leb_spec d 2147483647); split; lia.
  - replace (1 <=? Z.max 0 d) with false by (symmetry; apply Z.leb_gt; lia).
    cbn [andb]. split; lia.
Qed.

(** C9: the timer of the terminal transition never runs on a negative
    delay.  It is due when a timer set with the difference of the two
    delays clamped at zero would be due, always after the PROCESSING
    transition; when [callbackDelay] is not the larger one it is due
    when a timer set with delay zero would be, one millisecond after
    the PROCESSING transition; and when it fires, with no other timer
    pending, the terminal status is written with that time as the
    completion time. *)
Theorem C9_terminal_delay_is_never_negative :
  forall net random w requestRef txId amount network token tx,
    PaymentService.getTransactionByRequestReference w requestRef = Some tx ->
    let c := payment w in
    let w' := PaymentPage.run_task net random
                (ToProcessing requestRef txId amount network token) w in
    exists final s,
      timers w' = (timers w ++ [final])%list
      /\ task final = ToFinal requestRef txId s
      /\ option_map status
           (PaymentService.getTransactionByRequestReference w' requestRef)
         = Some PROCESSING
      /\ due final
         = clock w
           + effective_delay (Z.max 0 (cfg_callbackDelay c - cfg_processingDelay c))
      /\ clock w < due final
      /\ (cfg_callbackDelay c <= cfg_processingDelay c ->
          due final = clock w + effective_delay 0 /\ due final = clock w + 1)
      /\ (cfg_processingDelay c < cfg_callbackDelay c
                                 <= cfg_processingDelay c + 2147483647 ->
          due final = clock w + (cfg_callbackDelay c - cfg_processingDelay c))
      /\ (timers w = [] ->
          forall net' random',
          exists w'',
            PaymentPage.tick net' random' w' = Some w''
            /\ option_map status
                 (PaymentService.getTransactionByRequestReference w'' requestRef)
               = Some s
            /\ option_map completedTime
                 (PaymentService.getTransactionByRequestReference w'' requestRef)
               = Some (Some (due final))).
Proof.
  intros net random w requestRef txId amount network token tx Htx c w'.
  destruct (processing_fires net random w requestRef txId amount network token tx Htx)
    as [Hrow Htimers].
  fold w' in Hrow, Htimers.
  assert (Hclock : clock w' = clock w).
  { subst w'. cbn [PaymentPage.run_task].
    destruct (update_status_defined w requestRef PROCESSING None tx Htx) as [w1 Hw1].
    rewrite Hw1. destruct (updated_frame _ _ _ _ _ Hw1) as (_ & _ & _ & Hc & _).
    exact Hc. }
  destruct (effective_delay_clamped (cfg_callbackDelay c - cfg_processingDelay c))
    as [Hclamp Hpos].
  eexists. eexists. split; [exact Htimers|]. cbn [task due].
  unfold PaymentPage.terminalDelay. fold c.
  split; [reflexivity|]. split; [now rewrite Hrow|].
  split; [now rewrite Hclamp|]. split; [lia|].
  split; [|split].
  - intros H. rewrite <- Hclamp, Z.max_l by lia.
    split; reflexivity.
  - intros [H1 H2]. unfold effective_delay.
    replace (1 <=? cfg_callbackDelay c - cfg_processingDelay c) with true
      by (symmetry; apply Z.leb_le; lia).
    replace (cfg_callbackDelay c - cfg_processingDelay c <=? 2147483647) with true
      by (symmetry; apply Z.leb_le; lia).
    reflexivity.
  - intros Hnone net' random'. unfold PaymentPage.tick.
    rewrite Htimers, Hnone. cbn [app PaymentPage.pick task due].
    unfold PaymentPage.terminalDelay. unfold c in Hpos.
    rewrite Hclock, Z.max_r by lia.
    match goal with
    | |- context [PaymentPage.run_task net' random' ?t ?w1] =>
        set (w1' := w1);
        destruct (final_fires net' random' w1' requestRef txId
                    (ScenarioService.getOutcomeForTransaction (scenarioConfig w)
                       random amount network token)
                    (PaymentService.with_status PROCESSING None tx) Hrow)
          as [Hfinal _]
    end.
    eexists. split; [reflexivity|].
    rewrite Hfinal. split; reflexivity.
Qed.

Lemma C9_terminal_delay_is_never_negative_witness :
  cfg_callbackDelay Sample.pay_inverted <= cfg_processingDelay Sample.pay_inverted
  /\ exists final,
       timers (Sample.or_else
                 (PaymentPage.tick (Sample.always (Responded 200)) 0
                    Sample.inverted_requested_)
                 Sample.w0_inverted) = [final]
       /\ due final = 1640000003001.
Proof.
  split; [vm_compute; discriminate|].
  destruct (C9_terminal_delay_is_never_negative
              (Sample.always (Responded 200)) 0%Q
              (set_clock (set_timers Sample.inverted_requested_ []) 1640000003000)
              "req-1" "tx-1" "100.00" "Alipay" "ae476881" _ eq_refl)
    as (final & s & Htimers & _ & _ & _ & _ & Hdue & _).
  exists final. split; [exact Htimers|].
  apply Hdue. vm_compute. discriminate.
Defined.

(* ================================================================= *)
(** ** Delivery *)

Lemma posts_app l1 l2 :
  CallbackService.posts (l1 ++ l2)
  = (CallbackService.posts l1 + CallbackService.posts l2)%nat.
Proof.
  induction l1 as [|e r IH]; simpl; [reflexivity|].
  destruct e; simpl; now rewrite IH.
Qed.

Section Delivery.

Import CallbackService.

Variable net : Net.
Variable tx : Transaction.
Variable m : Merchant.

Lemma update_tracking_tracked w sent attempt w2 :
  update_tracking (log_event w (Posted (url tx) (body tx m))) (id tx) sent attempt = Some w2 ->
  tracked tx m sent attempt w w2.
Proof.
  unfold update_tracking; simpl.
  destruct (Db.update _ _ (transactions w)) as [l|] eqn:Hu; [|discriminate].
  intros H; inversion H; subst; clear H.
  unfold tracked, Db.findTransaction; simpl. repeat split.
  intros row Hrow.
  rewrite (find_update (Db.by_id (id tx)) (tracking sent attempt (clock w))
             (fun x => eq_refl) _ _ Hu), Hrow.
  reflexivity.
Qed.

Lemma update_tracking_defined w sent attempt row :
  Db.findTransaction w (id tx) = Some row ->
  exists w2,
    update_tracking (log_event w (Posted (url tx) (body tx m))) (id tx) sent attempt = Some w2.
Proof.
  unfold Db.findTransaction, update_tracking; simpl. intros Hrow.
  destruct (update_defined (Db.by_id (id tx)) (tracking sent attempt (clock w))
              _ _ Hrow) as [l ->].
  eauto.
Qed.

(** One turn of the loop whose POST is accepted. *)
Lemma turn_accepted rest attempt w row :
  resolves tx m w ->
  Db.findTransaction w (id tx) = Some row ->
  accepted (net (posts (trace w))) = true ->
  exists w2,
    attempts net (S rest) attempt tx w = (Returned true, w2)
    /\ tracked tx m (Some true) (attempt + 1) w w2.
Proof.
  intros Hm Hrow Hok. unfold resolves in Hm.
  destruct (update_tracking_defined w (Some true) (attempt + 1) row Hrow)
    as [w2 Hw2].
  exists w2. split; [|now apply update_tracking_tracked].
  unfold url, body in Hw2. simpl. rewrite Hm, Hok, Hw2. reflexivity.
Qed.

(** One turn of the loop whose POST is refused or fails. *)
Lemma turn_refused rest attempt w row :
  resolves tx m w ->
  Db.findTransaction w (id tx) = Some row ->
  accepted (net (posts (trace w))) = false ->
  exists w2,
    attempts net (S rest) attempt tx w
    = (if attempt + 1 <? maxAttempts
       then attempts net rest (attempt + 1) tx
              (sleep w2 (2 ^ (attempt + 1) * 1000))
       else attempts net rest (attempt + 1) tx w2)
    /\ tracked tx m None (attempt + 1) w w2.
Proof.
  intros Hm Hrow Hno. unfold resolves in Hm.
  destruct (update_tracking_defined w None (attempt + 1) row Hrow)
    as [w2 Hw2].
  exists w2. split; [|now apply update_tracking_tracked].
  unfold url, body in Hw2. simpl. rewrite Hm, Hno, Hw2. reflexivity.
Qed.

(** Sleeping keeps the rows and the merchants. *)
Lemma sleep_keeps w2 ms w row' :
  merchants w2 = merchants w ->
  resolves tx m w ->
  Db.findTransaction w2 (id tx) = Some row' ->
  resolves tx m (sleep w2 ms)
  /\ Db.findTransaction (sleep w2 ms) (id tx) = Some row'.
Proof.
  unfold resolves, Db.findMerchant, Db.findTransaction; simpl.
  intros -> Hm Hrow. split; assumption.
Qed.

Lemma keeps w2 w :
  merchants w2 = merchants w ->
  resolves tx m w ->
  resolves tx m w2.
Proof.
  unfold resolves, Db.findMerchant. intros -> Hm. assumption.
Qed.

(** An invocation on a stored row with a known merchant, told in full. *)
Lemma sendCallback_runs w row :
  resolves tx m w ->
  Db.findTransaction w (id tx) = Some row ->
  let n0 := posts (trace w) in
  exists w' t,
    sendCallback net tx w = (Returned (confirmed net n0), w')
    /\ trace w' = (trace w ++ deliveries tx m (made net n0))%list
    /\ Db.findTransaction w' (id tx)
       = Some (tracking (if confirmed net n0 then Some true else None)
                        (Z.of_nat (made net n0)) t row)
    /\ timers w' = timers w
    /\ merchants w' = merchants w
    /\ t = clock w + waited (made net n0)
    /\ clock w' = t.
Proof.
  intros Hm Hrow n0.
  unfold sendCallback, confirmed, made, first_accepted.
  change (Z.to_nat maxAttempts) with 3%nat.
  destruct (accepted (net n0)) eqn:A0.
  { destruct (turn_accepted 2 0 w row Hm Hrow A0) as (w2 & Hrun & Hrow2 & Htr & Hti & Hcl & Hme).
    exists w2, (clock w). rewrite Hrun. repeat split; auto. simpl. lia. }
  destruct (turn_refused 2 0 w row Hm Hrow A0) as (w2 & Hrun & Hrow2 & Htr & Hti & Hcl & Hme).
  rewrite Hrun. clear Hrun.
  change (0 + 1 <? maxAttempts) with true. cbv iota.
  change (2 ^ (0 + 1) * 1000) with 2000. change (0 + 1) with 1.
  specialize (Hrow2 _ Hrow).
  destruct (sleep_keeps w2 2000 w _ Hme Hm Hrow2) as [Hm1 Hrow1].
  assert (Hn1 : posts (trace (sleep w2 2000)) = (n0 + 1)%nat).
  { simpl. rewrite Htr, !posts_app. simpl. fold n0. lia. }
  destruct (accepted (net (n0 + 1)%nat)) eqn:A1.
  { rewrite <- Hn1 in A1.
    destruct (turn_accepted 1 1 _ _ Hm1 Hrow1 A1) as (w3 & Hrun & Hrow3 & Htr3 & Hti3 & Hcl3 & Hme3).
    exists w3, (clock (sleep w2 2000)). rewrite Hrun.
    rewrite (Hrow3 _ Hrow1), Htr3, Hti3, Hme3, Hcl3. simpl.
    rewrite Htr, Hti, Hme, Hcl, <- !app_assoc. repeat split. }
  rewrite <- Hn1 in A1.
  destruct (turn_refused 1 1 _ _ Hm1 Hrow1 A1) as (w3 & Hrun & Hrow3 & Htr3 & Hti3 & Hcl3 & Hme3).
  rewrite Hrun. clear Hrun.
  change (1 + 1 <? maxAttempts) with true. cbv iota.
  change (2 ^ (1 + 1) * 1000) with 4000. change (1 + 1) with 2.
  specialize (Hrow3 _ Hrow1).
  destruct (sleep_keeps w3 4000 _ _ Hme3 Hm1 Hrow3) as [Hm2 Hrow2'].
  assert (Hn2 : posts (trace (sleep w3 4000)) = (n0 + 2)%nat).
  { simpl. rewrite Htr3, !posts_app. simpl in Hn1 |- *. rewrite Hn1. lia. }
  destruct (accepted (net (n0 + 2)%nat)) eqn:A2.
  { rewrite <- Hn2 in A2.
    destruct (turn_accepted 0 2 _ _ Hm2 Hrow2' A2) as (w4 & Hrun & Hrow4 & Htr4 & Hti4 & Hcl4 & Hme4).
    exists w4, (clock (sleep w3 4000)). rewrite Hrun.
    rewrite (Hrow4 _ Hrow2'), Htr4, Hti4, Hme4, Hcl4. simpl.
    rewrite Htr3, Hti3, Hme3, Hcl3. simpl.
    rewrite Htr, Hti, Hme, Hcl, <- !app_assoc. repeat split. lia. }
  rewrite <- Hn2 in A2.
  destruct (turn_refused 0 2 _ _ Hm2 Hrow2' A2) as (w4 & Hrun & Hrow4 & Htr4 & Hti4 & Hcl4 & Hme4).
  rewrite Hrun. clear Hrun.
  change (2 + 1 <? maxAttempts) with false. cbv iota.
  exists w4, (clock (sleep w3 4000)). simpl attempts.
  rewrite (Hrow4 _ Hrow2'), Htr4, Hti4, Hme4, Hcl4. simpl.
  rewrite Htr3, Hti3, Hme3, Hcl3. simpl.
  rewrite Htr, Hti, Hme, Hcl, <- !app_assoc. repeat split. lia.
Qed.

End Delivery.

Lemma find_holds {A} (p : A -> bool) l x : Db.find p l = Some x -> p x = true.
Proof.
  induction l as [|y r IH]; simpl; [discriminate|].
  destruct (p y) eqn:Hy; [|exact IH].
  intros H; inversion H; subst; exact Hy.
Qed.

Lemma made_bounds net n0 : (1 <= made net n0 <= 3)%nat.
Proof.
  unfold made, first_accepted.
  destruct (CallbackService.accepted (net n0)); [lia|].
  destruct (CallbackService.accepted (net (n0 + 1)%nat)); [lia|].
  destruct (CallbackService.accepted (net (n0 + 2)%nat)); lia.
Qed.

Lemma posts_deliveries tx m k :
  (k <= 3)%nat -> CallbackService.posts (deliveries tx m k) = k.
Proof.
  intros H. destruct k as [|[|[|[|k]]]]; simpl; try reflexivity. lia.
Qed.


(** C6, as the code has it: the value an invocation leaves in
    [callbackAttempts] is the number of POSTs that invocation made,
    from 1 to 3, whatever the column held before; this holds for the
    manual trigger as for the scheduled delivery. *)
Theorem C6_attempts_count_one_invocation :
  (forall net tx m w row,
      resolves tx m w ->
      Db.findTransaction w (id tx) = Some row ->
      exists b w',
        CallbackService.sendCallback net tx w = (Returned b, w')
        /\ option_map callbackAttempts (Db.findTransaction w' (id tx))
           = Some (Z.of_nat (CallbackService.posts (trace w')
                             - CallbackService.posts (trace w)))
        /\ (exists k, option_map callbackAttempts (Db.findTransaction w' (id tx))
                      = Some k /\ 1 <= k <= 3))
  /\ (forall net i w row m,
      Db.findTransaction w i = Some row ->
      Db.findMerchant w (merchantId row) = Some m ->
      exists b w',
        CallbackService.triggerCallbackManually net i w = (b, w')
        /\ option_map callbackAttempts (Db.findTransaction w' i)
           = Some (Z.of_nat (CallbackService.posts (trace w')
                             - CallbackService.posts (trace w)))
        /\ (exists k, option_map callbackAttempts (Db.findTransaction w' i)
                      = Some k /\ 1 <= k <= 3)).
Proof.
  assert (Hgen : forall net tx m w row,
      resolves tx m w ->
      Db.findTransaction w (id tx) = Some row ->
      exists b w',
        CallbackService.sendCallback net tx w = (Returned b, w')
        /\ option_map callbackAttempts (Db.findTransaction w' (id tx))
           = Some (Z.of_nat (CallbackService.posts (trace w')
                             - CallbackService.posts (trace w)))
        /\ (exists k, option_map callbackAttempts (Db.findTransaction w' (id tx))
                      = Some k /\ 1 <= k <= 3)).
  { intros net tx m w row Hm Hrow.
    destruct (sendCallback_runs net tx m w row Hm Hrow)
      as (w' & t & Hrun & Htr & Hrow' & _).
    pose proof (made_bounds net (CallbackService.posts (trace w))) as Hb.
    exists (confirmed net (CallbackService.posts (trace w))), w'.
    rewrite Hrun, Hrow', Htr, posts_app, posts_deliveries by lia. simpl.
    split; [reflexivity|]. split.
    - f_equal. f_equal. lia.
    - eexists. split; [reflexivity|]. lia. }
  split; [exact Hgen|].
  intros net i w row m Hrow Hmer.
  pose proof (find_holds _ _ _ Hrow) as Hid. apply String.eqb_eq in Hid.
  unfold CallbackService.triggerCallbackManually, Db.findWithMerchant.
  rewrite Hrow.
  match goal with
  | |- context [CallbackService.sendCallback net ?t w] => set (tx := t)
  end.
  destruct (Hgen net tx m w row) as (b & w' & Hrun & Hcount & Hk).
  - unfold resolves; simpl. rewrite Hmer. reflexivity.
  - simpl. rewrite Hid. exact Hrow.
  - rewrite Hrun. exists b, w'. simpl in Hcount, Hk. rewrite Hid in Hcount, Hk.
    repeat split; assumption.
Qed.


Lemma C6_attempts_count_one_invocation_witness :
  exists b w',
    CallbackService.triggerCallbackManually Sample.down_then_up "tx-1"
      Sample.undelivered_ = (b, w')
    /\ exists k, option_map callbackAttempts (Db.findTransaction w' "tx-1") = Some k
                 /\ 1 <= k <= 3.
Proof.
  destruct C6_attempts_count_one_invocation as [_ Hmanual].
  assert (Hrow : Db.findTransaction Sample.undelivered_ "tx-1"
                 = Some Sample.given_up_) by (vm_compute; reflexivity).
  assert (Hm : Db.findMerchant Sample.undelivered_ (merchantId Sample.given_up_)
               = Some Sample.m1) by (vm_compute; reflexivity).
  destruct (Hmanual Sample.down_then_up "tx-1" Sample.undelivered_ _ Sample.m1
              Hrow Hm) as (b & w' & Hrun & _ & Hk).
  exists b, w'. split; [exact Hrun | exact Hk].
Defined.

(** C6, as the claim has it, fails: a delivery that gave up left
    [callbackAttempts] at 3; the manual trigger that follows is
    accepted at its first POST and leaves 1. *)
Lemma C6_manual_trigger_lowers_the_counter :
  option_map callbackAttempts (Db.findTransaction Sample.undelivered_ "tx-1")
    = Some 3
  /\ fst Sample.retriggered_ = true
  /\ option_map callbackAttempts
       (Db.findTransaction (snd Sample.retriggered_) "tx-1") = Some 1
  /\ ~ (forall before after,
          option_map callbackAttempts
            (Db.findTransaction Sample.undelivered_ "tx-1") = Some before ->
          option_map callbackAttempts
            (Db.findTransaction (snd Sample.retriggered_) "tx-1") = Some after ->
          before <= after).
Proof.
  assert (H3 : option_map callbackAttempts
                 (Db.findTransaction Sample.undelivered_ "tx-1") = Some 3)
    by (vm_compute; reflexivity).
  assert (H1 : option_map callbackAttempts
                 (Db.findTransaction (snd Sample.retriggered_) "tx-1") = Some 1)
    by (vm_compute; reflexivity).
  split; [exact H3|]. split; [vm_compute; reflexivity|]. split; [exact H1|].
  intros H. specialize (H 3 1 H3 H1). lia.
Qed.

(* ================================================================= *)
(** ** The query *)

Section Ordering.

Import PaymentService.

Lemma insert_by_time_perm tx l : Permutation (tx :: l) (insert_by_time tx l).
Proof.
  induction l as [|h t IH]; simpl; [apply Permutation_refl|].
  destruct (createdTime tx <=? createdTime h).
  - apply Permutation_refl.
  - eapply perm_trans; [apply perm_swap|]. now apply perm_skip.
Qed.

Lemma order_by_time_perm l : Permutation l (order_by_time l).
Proof.
  induction l as [|h t IH]; simpl; [constructor|].
  eapply perm_trans; [apply perm_skip, IH|]. apply insert_by_time_perm.
Qed.

Lemma insert_by_time_hd tx a l :
  earlier a tx -> HdRel earlier a l -> HdRel earlier a (insert_by_time tx l).
Proof.
  intros Hat Hal. destruct l as [|h t]; simpl; [now constructor|].
  destruct (createdTime tx <=? createdTime h); constructor; auto.
  now inversion Hal.
Qed.

Lemma insert_by_time_sorted tx l :
  Sorted earlier l -> Sorted earlier (insert_by_time tx l).
Proof.
  induction 1 as [|h t Ht IH Hhd]; simpl; [repeat constructor|].
  destruct (createdTime tx <=? createdTime h) eqn:E.
  - apply Z.leb_le in E. repeat constructor; assumption.
  - apply Z.leb_gt in E. constructor; [exact IH|].
    apply insert_by_time_hd; [unfold earlier; lia | exact Hhd].
Qed.

Lemma order_by_time_sorted l : Sorted earlier (order_by_time l).
Proof.
  induction l as [|h t IH]; simpl; [constructor|].
  now apply insert_by_time_sorted.
Qed.

End Ordering.

(** Digits. *)

(** A check that holds for each number below a bound, by running it. *)
Lemma checked_below (p : Z -> bool) (b : nat) :
  forallb (fun i => p (Z.of_nat i)) (seq 0 b) = true ->
  forall z, 0 <= z < Z.of_nat b -> p z = true.
Proof.
  intros H z Hz. rewrite forallb_forall in H.
  specialize (H (Z.to_nat z)). rewrite Z2Nat.id in H by lia.
  apply H, in_seq. lia.
Qed.

Lemma digit_char_is_digit d : 0 <= d < 10 -> Str.is_digit (Str.digit_char d) = true.
Proof.
  apply (checked_below (fun z => Str.is_digit (Str.digit_char z)) 10).
  reflexivity.
Qed.

Lemma fixed_digits_shape k n acc :
  Str.all_digits acc = true ->
  Str.all_digits (Str.fixed_digits k n acc) = true
  /\ String.length (Str.fixed_digits k n acc) = (k + String.length acc)%nat.
Proof.
  revert n acc. induction k as [|k IH]; intros n acc Hacc; simpl; [auto|].
  destruct (IH (n / 10) (String (Str.digit_char (n mod 10)) acc)) as [H1 H2].
  - simpl. rewrite Hacc, digit_char_is_digit; [reflexivity|].
    apply Z.mod_pos_bound. lia.
  - split; [exact H1|]. rewrite H2. simpl. lia.
Qed.

Lemma digits_of_digits fuel n acc :
  0 <= n -> Str.all_digits acc = true ->
  Str.all_digits (Str.digits_of fuel n acc) = true.
Proof.
  revert n acc. induction fuel as [|f IH]; intros n acc Hn Hacc; simpl; [exact Hacc|].
  assert (Hacc' : Str.all_digits (String (Str.digit_char (n mod 10)) acc) = true).
  { simpl. rewrite Hacc, digit_char_is_digit; [reflexivity|].
    apply Z.mod_pos_bound. lia. }
  destruct (n <? 10); [exact Hacc'|].
  apply IH; [apply Z.div_pos; lia | exact Hacc'].
Qed.

(** [toFixed] with a positive number of places: digits, a full stop,
    and that many digits. *)
Lemma toFixed_shape d dp :
  0 <= Decimal.coefficient d -> (0 < dp)%nat ->
  exists whole frac,
    Decimal.toFixed d dp = whole ++ "." ++ frac
    /\ Str.all_digits whole = true
    /\ Str.all_digits frac = true
    /\ String.length frac = dp.
Proof.
  intros Hc Hdp. unfold Decimal.toFixed.
  set (scaled := (2 * Decimal.coefficient d * 10 ^ Z.of_nat dp
                  + 10 ^ Z.of_nat (Decimal.places d))
                 / (2 * 10 ^ Z.of_nat (Decimal.places d))).
  assert (Hs : 0 <= scaled).
  { assert (0 <= 10 ^ Z.of_nat dp) by (apply Z.pow_nonneg; lia).
    assert (0 < 10 ^ Z.of_nat (Decimal.places d)) by (apply Z.pow_pos_nonneg; lia).
    apply Z.div_pos; nia. }
  destruct dp as [|dp']; [lia|].
  set (dp := S dp') in *.
  exists (Str.of_Z (scaled / 10 ^ Z.of_nat dp)),
         (Str.fixed_digits dp (scaled mod 10 ^ Z.of_nat dp) "").
  destruct (fixed_digits_shape dp (scaled mod 10 ^ Z.of_nat dp) "" eq_refl)
    as [Hd Hl].
  repeat split; auto.
  - unfold Str.of_Z.
    assert (0 <= scaled / 10 ^ Z.of_nat dp).
    { apply Z.div_pos; [exact Hs|]. apply Z.pow_pos_nonneg; lia. }
    destruct (scaled / 10 ^ Z.of_nat dp <? 0) eqn:E; [apply Z.ltb_lt in E; lia|].
    now apply digits_of_digits.
  - rewrite Hl. simpl. lia.
Qed.

Lemma digits_value_nonneg s acc :
  Str.all_digits s = true -> 0 <= acc -> 0 <= Str.digits_value acc s.
Proof.
  revert acc. induction s as [|c r IH]; intros acc Hs Hacc;
    cbn [Str.digits_value]; [exact Hacc|].
  cbn [Str.all_digits] in Hs. apply andb_true_iff in Hs as [Hc Hr].
  apply IH; [exact Hr|].
  unfold Str.is_digit in Hc. apply andb_true_iff in Hc as [H1 H2].
  apply Z.leb_le in H1. lia.
Qed.

Lemma all_digits_app a b :
  Str.all_digits (a ++ b) = Str.all_digits a && Str.all_digits b.
Proof.
  induction a as [|c r IH]; simpl; [reflexivity|].
  now rewrite IH, andb_assoc.
Qed.

Lemma parse_nonneg s d : Decimal.parse s = Some d -> 0 <= Decimal.coefficient d.
Proof.
  unfold Decimal.parse. destruct (Decimal.split_dot s "") as [i [f|]].
  - destruct (Str.all_digits i) eqn:Hi; simpl; [|discriminate].
    destruct (negb (i =? "")%string); simpl; [|discriminate].
    destruct (Str.all_digits f) eqn:Hf; simpl; [|discriminate].
    destruct (negb (f =? "")%string); simpl; [|discriminate].
    intros H; inversion H; subst; simpl.
    apply digits_value_nonneg; [|lia]. now rewrite all_digits_app, Hi, Hf.
  - destruct (Str.all_digits i) eqn:Hi; simpl; [|discriminate].
    destruct (negb (i =? "")%string); simpl; [|discriminate].
    intros H; inversion H; subst; simpl.
    apply digits_value_nonneg; [exact Hi|lia].
Qed.

Lemma update_forall (P : Transaction -> Prop) p f l l' :
  (forall x, P x -> P (f x)) ->
  Db.update p f l = Some l' -> Forall P l -> Forall P l'.
Proof.
  intros Hf. revert l'. induction l as [|x r IH]; simpl; intros l' Hu Hall;
    [discriminate|].
  inversion Hall; subst.
  destruct (p x).
  - inversion Hu; subst. constructor; auto.
  - destruct (Db.update p f r); [|discriminate]. inversion Hu; subst.
    constructor; auto.
Qed.

(** Every write of the services keeps the rows as the service writes
    them. *)
Lemma services_keep_rows :
  (forall w data merchantId tx w',
      PaymentService.createTransaction w data merchantId = Some (tx, w') ->
      Forall stored_by_service (transactions w) ->
      Forall stored_by_service (transactions w'))
  /\ (forall w r s c w',
      PaymentService.updateTransactionStatus w r s c = Some w' ->
      Forall stored_by_service (transactions w) ->
      Forall stored_by_service (transactions w'))
  /\ (forall w i sent attempt w',
      CallbackService.update_tracking w i sent attempt = Some w' ->
      Forall stored_by_service (transactions w) ->
      Forall stored_by_service (transactions w')).
Proof.
  split; [|split].
  - intros w data merchantId tx w'. unfold PaymentService.createTransaction.
    destruct (Decimal.parse (req_amount data)) as [a|] eqn:Hp; [|discriminate].
    intros H; inversion H; subst; simpl. intros Hall.
    apply Forall_app. split; [exact Hall|]. repeat constructor; simpl.
    now apply parse_nonneg with (s := req_amount data).
  - intros w r s c w'. unfold PaymentService.updateTransactionStatus.
    destruct (Db.update _ _ (transactions w)) as [l|] eqn:Hu; [|discriminate].
    intros H; inversion H; subst; simpl.
    eapply update_forall; [|exact Hu]. intros x Hx; exact Hx.
  - intros w i sent attempt w'. unfold CallbackService.update_tracking.
    destruct (Db.update _ _ (transactions w)) as [l|] eqn:Hu; [|discriminate].
    intros H; inversion H; subst; simpl.
    eapply update_forall; [|exact Hu]. intros x Hx; exact Hx.
Qed.

(** *** Amounts with two decimals come back as they went in *)

Lemma digit_value_bounds c :
  Str.is_digit c = true -> 0 <= Str.code c - 48 <= 9.
Proof.
  unfold Str.is_digit. intros H. apply andb_true_iff in H as [H1 H2].
  apply Z.leb_le in H1. apply Z.leb_le in H2. lia.
Qed.

Lemma chr_code c : Str.chr (Str.code c) = c.
Proof.
  unfold Str.chr, Str.code. rewrite N2Z.id. apply ascii_N_embedding.
Qed.

Lemma digit_char_value c : Str.digit_char (Str.code c - 48) = c.
Proof.
  unfold Str.digit_char. replace (48 + (Str.code c - 48)) with (Str.code c) by lia.
  apply chr_code.
Qed.

Lemma code_zero c : Str.code c = 48 -> c = "0"%char.
Proof.
  intros H. rewrite <- (chr_code c), H. reflexivity.
Qed.

Lemma digits_value_app a b acc :
  Str.digits_value acc (a ++ b) = Str.digits_value (Str.digits_value acc a) b.
Proof.
  revert acc. induction a as [|c r IH]; intros acc; cbn [Str.digits_value append];
    [reflexivity | apply IH].
Qed.

Lemma digits_value_lower s acc :
  Str.all_digits s = true -> 0 <= acc ->
  acc * 10 ^ Z.of_nat (String.length s) <= Str.digits_value acc s.
Proof.
  revert acc. induction s as [|c r IH]; intros acc Hs Hacc;
    cbn [Str.digits_value String.length].
  - change (10 ^ Z.of_nat 0) with 1. lia.
  - cbn [Str.all_digits] in Hs. apply andb_true_iff in Hs as [Hc Hr].
    pose proof (digit_value_bounds c Hc) as Hb.
    specialize (IH (10 * acc + (Str.code c - 48)) Hr ltac:(lia)).
    rewrite Nat2Z.inj_succ, Z.pow_succ_r by lia.
    assert (0 < 10 ^ Z.of_nat (String.length r)) by (apply Z.pow_pos_nonneg; lia).
    nia.
Qed.

Lemma leading_nonzero_value s :
  Str.all_digits s = true -> leading_nonzero s ->
  10 ^ Z.of_nat (String.length s - 1) <= Str.digits_value 0 s.
Proof.
  destruct s as [|c r]; [contradiction|].
  cbn [Str.all_digits Str.digits_value String.length leading_nonzero].
  intros Hs Hc. apply andb_true_iff in Hs as [Hd Hr].
  pose proof (digit_value_bounds c Hd) as Hb.
  assert (Str.code c - 48 <> 0) by (intros E; apply Hc, code_zero; lia).
  pose proof (digits_value_lower r (10 * 0 + (Str.code c - 48)) Hr ltac:(lia)) as Hl.
  replace (S (String.length r) - 1)%nat with (String.length r) by lia.
  assert (0 < 10 ^ Z.of_nat (String.length r)) by (apply Z.pow_pos_nonneg; lia).
  nia.
Qed.

Lemma unsnoc c s :
  exists s' d, String c s = s' ++ String d "" /\ String.length s' = String.length s.
Proof.
  revert c. induction s as [|c' r IH]; intros c.
  - exists "", c. split; reflexivity.
  - destruct (IH c') as (s' & d & He & Hl).
    exists (String c s'), d. cbn [append String.length]. rewrite <- He, Hl.
    split; reflexivity.
Qed.

Lemma length_append a b :
  String.length (a ++ b) = (String.length a + String.length b)%nat.
Proof.
  induction a as [|c r IH]; cbn [append String.length]; [reflexivity|].
  now rewrite IH.
Qed.

Lemma append_nil_r a : a ++ "" = a.
Proof.
  induction a as [|x r IH]; cbn [append]; [reflexivity | now rewrite IH].
Qed.

Lemma append_assoc a b c : (a ++ b) ++ c = a ++ (b ++ c).
Proof.
  induction a as [|x r IH]; cbn [append]; [reflexivity | now rewrite IH].
Qed.

(** The digits of the value of a digit string are that string. *)
Lemma digits_of_value n :
  forall i fuel acc,
    String.length i = S n ->
    Str.all_digits i = true -> leading_nonzero i ->
    (S n <= fuel)%nat ->
    Str.digits_of fuel (Str.digits_value 0 i) acc = i ++ acc.
Proof.
  induction n as [|k IH]; intros i fuel acc Hlen Hd Hnz Hfuel.
  - destruct i as [|c [|c' r]]; try discriminate.
    destruct fuel as [|f]; [lia|].
    cbn [Str.all_digits] in Hd. apply andb_true_iff in Hd as [Hc _].
    pose proof (digit_value_bounds c Hc) as Hb.
    cbn [Str.digits_value Str.digits_of append].
    replace (10 * 0 + (Str.code c - 48)) with (Str.code c - 48) by lia.
    rewrite Z.mod_small by lia. rewrite digit_char_value.
    destruct (Str.code c - 48 <? 10) eqn:E; [reflexivity|].
    apply Z.ltb_ge in E. lia.
  - destruct i as [|c r]; [discriminate|].
    destruct (unsnoc c r) as (i' & d & He & Hl).
    rewrite He in *. clear He.
    rewrite length_append in Hlen. cbn [String.length] in Hlen.
    rewrite all_digits_app in Hd. apply andb_true_iff in Hd as [Hi' Hd].
    cbn [Str.all_digits] in Hd. apply andb_true_iff in Hd as [Hd _].
    pose proof (digit_value_bounds d Hd) as Hb.
    assert (Hnz' : leading_nonzero i').
    { destruct i' as [|x y]; [simpl in Hlen; lia | exact Hnz]. }
    pose proof (leading_nonzero_value i' Hi' Hnz') as Hlow.
    assert (0 < 10 ^ Z.of_nat (String.length i' - 1)) by (apply Z.pow_pos_nonneg; lia).
    destruct fuel as [|f]; [lia|].
    rewrite digits_value_app. cbn [Str.digits_value Str.digits_of].
    set (V := Str.digits_value 0 i') in *.
    replace ((10 * V + (Str.code d - 48)) mod 10) with (Str.code d - 48)
      by (apply Z.mod_unique with (q := V); lia).
    replace ((10 * V + (Str.code d - 48)) / 10) with V
      by (apply Z.div_unique with (r := Str.code d - 48); lia).
    rewrite digit_char_value.
    destruct (10 * V + (Str.code d - 48) <? 10) eqn:E; [apply Z.ltb_lt in E; lia|].
    unfold V. rewrite IH; try assumption; try lia.
    now rewrite append_assoc.
Qed.

Lemma of_Z_value i :
  canonical_digits i -> Str.of_Z (Str.digits_value 0 i) = i.
Proof.
  intros [Hd [-> | Hnz]]; [reflexivity|].
  pose proof (leading_nonzero_value i Hd Hnz) as Hlow.
  pose proof (digits_value_nonneg i 0 Hd ltac:(lia)) as Hpos.
  unfold Str.of_Z.
  destruct (Str.digits_value 0 i <? 0) eqn:E; [apply Z.ltb_lt in E; lia|].
  assert (Hlen : exists n, String.length i = S n)
    by (destruct i; [contradiction | eexists; reflexivity]).
  destruct Hlen as [n Hlen].
  rewrite (digits_of_value n i _ "" Hlen Hd Hnz).
  - apply append_nil_r.
  - rewrite Hlen in Hlow. replace (S n - 1)%nat with n in Hlow by lia.
    assert (Hp : 2 ^ Z.of_nat n <= Str.digits_value 0 i).
    { eapply Z.le_trans; [|exact Hlow].
      apply Z.pow_le_mono_l. lia. }
    assert (0 < Str.digits_value 0 i).
    { assert (0 < 2 ^ Z.of_nat n) by (apply Z.pow_pos_nonneg; lia).
      lia. }
    apply Z.log2_le_pow2 in Hp; [|assumption]. lia.
Qed.

Lemma digit_is_not_dot c : Str.is_digit c = true -> Ascii.eqb c "." = false.
Proof.
  intros H. destruct (Ascii.eqb c ".") eqn:E; [|reflexivity].
  apply Ascii.eqb_eq in E. subst. discriminate.
Qed.

Lemma split_dot_digits i f acc :
  Str.all_digits i = true ->
  Decimal.split_dot (i ++ String "." f) acc = (acc ++ i, Some f).
Proof.
  revert acc. induction i as [|c r IH]; intros acc Hi; cbn [append Decimal.split_dot].
  - rewrite Ascii.eqb_refl. now rewrite append_nil_r.
  - cbn [Str.all_digits] in Hi. apply andb_true_iff in Hi as [Hc Hr].
    rewrite (digit_is_not_dot c Hc), IH by assumption.
    now rewrite append_assoc.
Qed.

Lemma fixed_digits_snoc k q x acc :
  0 <= x < 10 ->
  Str.fixed_digits (S k) (10 * q + x) acc
  = Str.fixed_digits k q (String (Str.digit_char x) acc).
Proof.
  intros Hx. cbn [Str.fixed_digits].
  replace ((10 * q + x) mod 10) with x by (apply Z.mod_unique with (q := q); lia).
  replace ((10 * q + x) / 10) with q by (apply Z.div_unique with (r := x); lia).
  reflexivity.
Qed.

(** A value with two decimals, printed with two and with six places. *)
Lemma toFixed_two_decimals V x1 x2 :
  0 <= V -> 0 <= x1 <= 9 -> 0 <= x2 <= 9 ->
  let d := {| Decimal.coefficient := 100 * V + (10 * x1 + x2);
              Decimal.places := 2 |} in
  Decimal.toFixed d 2
  = Str.of_Z V ++ "." ++ String (Str.digit_char x1) (String (Str.digit_char x2) "")
  /\ Decimal.toFixed d 6
     = Str.of_Z V ++ "." ++ String (Str.digit_char x1)
                              (String (Str.digit_char x2) "0000").
Proof.
  intros HV H1 H2 d. unfold Decimal.toFixed, d.
  cbn [Decimal.coefficient Decimal.places].
  change (10 ^ Z.of_nat 2) with 100. change (10 ^ Z.of_nat 6) with 1000000.
  set (c := 100 * V + (10 * x1 + x2)).
  replace ((2 * c * 100 + 100) / (2 * 100)) with c
    by (apply Z.div_unique with (r := 100); lia).
  replace ((2 * c * 1000000 + 100) / (2 * 100)) with (10000 * c)
    by (apply Z.div_unique with (r := 100); lia).
  replace (c / 100) with V
    by (apply Z.div_unique with (r := 10 * x1 + x2); lia).
  replace (10000 * c / 1000000) with V
    by (apply Z.div_unique with (r := 10000 * (10 * x1 + x2)); lia).
  replace (c mod 100) with (10 * (10 * 0 + x1) + x2)
    by (apply Z.mod_unique with (q := V); lia).
  replace ((10000 * c) mod 1000000)
    with (10 * (10 * (10 * (10 * (10 * (10 * 0 + x1) + x2) + 0) + 0) + 0) + 0)
    by (apply Z.mod_unique with (q := V); lia).
  rewrite !fixed_digits_snoc by lia.
  split; reflexivity.
Qed.

Lemma canonical_nonempty s : canonical_digits s -> (s =? "")%string = false.
Proof.
  intros [_ [-> | H]]; [reflexivity|]. destruct s; [contradiction | reflexivity].
Qed.

Lemma parse_two_decimals a whole d1 d2 :
  two_decimals a whole d1 d2 ->
  exists d,
    Decimal.parse a = Some d
    /\ Decimal.toFixed d 2 = a
    /\ Decimal.toFixed d 6 = a ++ "0000".
Proof.
  intros (-> & Hw & Hd1 & Hd2).
  pose proof (digit_value_bounds d1 Hd1) as B1.
  pose proof (digit_value_bounds d2 Hd2) as B2.
  destruct Hw as [Hdig Hcan].
  pose proof (digits_value_nonneg whole 0 Hdig ltac:(lia)) as HV.
  destruct (toFixed_two_decimals (Str.digits_value 0 whole)
              (Str.code d1 - 48) (Str.code d2 - 48) HV B1 B2) as [T2 T6].
  rewrite !digit_char_value, of_Z_value in T2, T6 by (split; assumption).
  eexists. split; [|split].
  - unfold Decimal.parse. rewrite split_dot_digits by assumption.
    cbn [append]. rewrite Hdig, (canonical_nonempty whole (conj Hdig Hcan)).
    cbn [Str.all_digits]. rewrite Hd1, Hd2. cbn [andb negb String.eqb].
    rewrite digits_value_app. cbn [Str.digits_value String.length].
    match goal with
    | |- Some {| Decimal.coefficient := ?x; Decimal.places := _ |} = _ =>
        replace x with (100 * Str.digits_value 0 whole
                        + (10 * (Str.code d1 - 48) + (Str.code d2 - 48))) by lia
    end.
    reflexivity.
  - exact T2.
  - rewrite T6. rewrite append_assoc. reflexivity.
Qed.

(** C7, as the code has it: the query returns one record for each
    transaction with the reference, and for no other, the earlier
    created first; a record has type "Sale", the references, status and
    currency of its row, the amount with six fractional digits, and
    the two times in whole seconds since the epoch, written as decimal
    strings, [completed_time] being null when unset.  An amount sent
    with two decimals and no superfluous leading zero is stored such
    that it prints back as it was sent, and is reported with four zeros
    appended. *)
Theorem C7_query_lists_the_matching_transactions :
  (forall w reference,
      Forall stored_by_service (transactions w) ->
      exists found,
        PaymentService.getTransactionsByMerchantReference w reference
        = map PaymentService.toQuery found
        /\ Permutation found
             (filter (fun tx => String.eqb (merchantReference tx) reference)
                     (transactions w))
        /\ Sorted earlier found
        /\ Forall
             (fun tx =>
                let r := PaymentService.toQuery tx in
                q_type r = "Sale"
                /\ q_merchant_reference r = reference
                /\ q_request_reference r = requestReference tx
                /\ q_status r = status_code (status tx)
                /\ q_currency r = currency tx
                /\ (exists whole frac,
                       q_amount r = whole ++ "." ++ frac
                       /\ Str.all_digits whole = true
                       /\ Str.all_digits frac = true
                       /\ String.length frac = 6%nat)
                /\ member "created_time" (PaymentService.toJSON r)
                   = Some (JString (Str.of_Z (createdTime tx / 1000)))
                /\ member "completed_time" (PaymentService.toJSON r)
                   = Some match completedTime tx with
                          | Some t => JString (Str.of_Z (t / 1000))
                          | None => JNull
                          end)
             found)
  /\ (forall w data merchantId whole d1 d2,
      two_decimals (req_amount data) whole d1 d2 ->
      exists tx w',
        PaymentService.createTransaction w data merchantId = Some (tx, w')
        /\ In tx (transactions w')
        /\ Decimal.toFixed (amount tx) 2 = req_amount data
        /\ q_amount (PaymentService.toQuery tx) = req_amount data ++ "0000").
Proof.
  split.
  - intros w reference Hall.
    set (matching := filter (fun tx => String.eqb (merchantReference tx) reference)
                            (transactions w)).
    exists (PaymentService.order_by_time matching).
    split; [reflexivity|].
    split; [apply Permutation_sym, order_by_time_perm|].
    split; [apply order_by_time_sorted|].
    apply Forall_forall. intros tx Hin.
    apply (Permutation_in _ (Permutation_sym (order_by_time_perm matching))) in Hin.
    apply filter_In in Hin as [Hin Href]. apply String.eqb_eq in Href.
    rewrite Forall_forall in Hall. destruct (Hall tx Hin) as [Htype Hc].
    cbv zeta. cbn [PaymentService.toQuery q_type q_merchant_reference
                   q_request_reference q_status q_currency q_amount].
    repeat (split; [assumption || reflexivity|]).
    split; [apply toFixed_shape; [exact Hc | lia]|].
    split; [reflexivity|].
    cbn. destruct (completedTime tx); reflexivity.
  - intros w data merchantId whole d1 d2 Htwo.
    destruct (parse_two_decimals _ _ _ _ Htwo) as (d & Hp & H2 & H6).
    unfold PaymentService.createTransaction. rewrite Hp.
    eexists. eexists. split; [reflexivity|].
    cbn [transactions bump_serial set_transactions amount PaymentService.toQuery q_amount].
    split; [apply in_or_app; right; left; reflexivity|].
    split; assumption.
Qed.

Lemma C7_query_lists_the_matching_transactions_witness :
  (exists found,
      PaymentService.getTransactionsByMerchantReference Sample.completed_ "ORDER-1"
      = map PaymentService.toQuery found
      /\ Sorted earlier found)
  /\ (exists tx w',
      PaymentService.createTransaction Sample.w0 Sample.body "m1" = Some (tx, w')
      /\ Decimal.toFixed (amount tx) 2 = "100.00"
      /\ q_amount (PaymentService.toQuery tx) = "100.000000").
Proof.
  destruct C7_query_lists_the_matching_transactions as [Hquery Hamount].
  split.
  - destruct (Hquery Sample.completed_ "ORDER-1") as (found & Hres & _ & Hsorted & _).
    + repeat constructor; vm_compute; congruence.
    + exists found. split; assumption.
  - destruct (Hamount Sample.w0 Sample.body "m1" "100" "0"%char "0"%char)
      as (tx & w' & Hc & _ & H2 & H6).
    + split; [reflexivity|]. split; [|split; reflexivity].
      split; [reflexivity|]. right. simpl. discriminate.
    + exists tx, w'. split; [exact Hc|]. split; [exact H2 | exact H6].
Defined.

(** C7, as the claim has it, fails: on the wire the times are JSON
    strings, not numbers; and the amount is kept as a number, so that
    "007.50" is stored as seven and a half and prints back as "7.50". *)
Lemma C7_times_are_strings_on_the_wire :
  map (fun r => (member "created_time" (PaymentService.toJSON r),
                 member "completed_time" (PaymentService.toJSON r)))
      (PaymentService.getTransactionsByMerchantReference Sample.completed_ "ORDER-1")
  = [ (Some (JString "1640000000"), Some (JString "1640000003")) ]
  /\ ~ (forall r,
          In r (PaymentService.getTransactionsByMerchantReference
                  Sample.completed_ "ORDER-1") ->
          exists seconds,
            member "created_time" (PaymentService.toJSON r)
            = Some (JNumber seconds))
  /\ option_map
       (fun r => (Decimal.toFixed (amount (fst r)) 2,
                  q_amount (PaymentService.toQuery (fst r))))
       (PaymentService.createTransaction Sample.w0 Sample.body_padded "m1")
     = Some ("7.50", "7.500000").
Proof.
  split; [vm_compute; reflexivity|]. split; [|vm_compute; reflexivity].
  intros H.
  destruct (H (PaymentService.toQuery
                 (PaymentService.with_status SUCCESS (Some 1640000003000)
                    (Sample.loaded_)))) as [seconds Hs].
  - vm_compute. left. reflexivity.
  - vm_compute in Hs. discriminate.
Qed.

(* ================================================================= *)
(** ** Signing *)

(** *** Strings *)

Lemma append_cancel_l a x y : a ++ x = a ++ y -> x = y.
Proof.
  induction a as [|c r IH]; cbn [append]; intros H; [exact H|].
  inversion H. auto.
Qed.

Lemma append_cancel_r x : forall y t, x ++ t = y ++ t -> x = y.
Proof.
  induction x as [|c r IH]; intros y t H.
  - destruct y as [|c' r']; [reflexivity|].
    apply (f_equal String.length) in H.
    rewrite !length_append in H. cbn [String.length] in H. lia.
  - destruct y as [|c' r'].
    + apply (f_equal String.length) in H.
      rewrite !length_append in H. cbn [String.length] in H. lia.
    + cbn [append] in H. inversion H; subst. f_equal. eapply IH; eassumption.
Qed.

(** *** Objects *)

Lemma get_none_iff o k : JS.get o k = None <-> ~ In k (JS.keys o).
Proof.
  induction o as [|[k' v] r IH]; cbn [JS.get JS.keys map In fst].
  - split; auto.
  - destruct (String.eqb_spec k' k) as [->|Hne].
    + split; [discriminate | intros H; exfalso; apply H; now left].
    + rewrite IH. unfold JS.keys. tauto.
Qed.

Lemma has_false_iff o k : JS.has o k = false <-> ~ In k (JS.keys o).
Proof.
  unfold JS.has. rewrite <- get_none_iff.
  destruct (JS.get o k); split; intros; congruence.
Qed.

Lemma get_in o k v : NoDup (JS.keys o) -> In (k, v) o -> JS.get o k = Some v.
Proof.
  induction o as [|[k' v'] r IH]; cbn [JS.get JS.keys map In fst];
    intros Hnd Hin; [contradiction|].
  inversion Hnd as [|? ? Hk' Hr]; subst.
  destruct Hin as [He | Hin].
  - inversion He; subst. now rewrite String.eqb_refl.
  - destruct (String.eqb_spec k' k) as [->|Hne]; [|now apply IH].
    exfalso. apply Hk'. apply (in_map fst) in Hin. exact Hin.
Qed.

Lemma sort_insert_perm k l : Permutation (k :: l) (JS.insert k l).
Proof.
  induction l as [|h t IH]; cbn [JS.insert]; [apply Permutation_refl|].
  destruct (String.leb k h); [apply Permutation_refl|].
  eapply perm_trans; [apply perm_swap | now apply perm_skip].
Qed.

Lemma sort_perm l : Permutation l (JS.sort l).
Proof.
  induction l as [|h t IH]; cbn [JS.sort]; [constructor|].
  eapply perm_trans; [apply perm_skip, IH | apply sort_insert_perm].
Qed.

Lemma set_plain o k v :
  plain_key k -> ~ In k (JS.keys o) -> JS.set o k v = (o ++ [(k, v)])%list.
Proof.
  intros [Hidx Hproto] Hnew. unfold JS.set.
  apply String.eqb_neq in Hproto. rewrite Hproto.
  apply has_false_iff in Hnew. now rewrite Hnew, Hidx.
Qed.

Lemma sortFields_loop_plain fields ks :
  forall acc,
    NoDup (JS.keys acc ++ ks) ->
    Forall plain_key ks ->
    (forall k, In k ks -> In k (JS.keys fields)) ->
    fold_left
      (fun sortedFields key =>
         match JS.get fields key with
         | Some v => JS.set sortedFields key v
         | None => sortedFields
         end) ks acc
    = (acc ++ map (fun k => (k, value_of fields k)) ks)%list.
Proof.
  induction ks as [|k r IH]; intros acc Hnd Hplain Hin; cbn [fold_left map].
  - now rewrite app_nil_r.
  - inversion Hplain as [|? ? Hk Hr]; subst.
    assert (Hnew : ~ In k (JS.keys acc)).
    { intros Hc. apply NoDup_remove_2 in Hnd. apply Hnd.
      apply in_or_app. now left. }
    unfold value_of at 1.
    destruct (JS.get fields k) as [v|] eqn:Hg.
    + rewrite (set_plain acc k v Hk Hnew).
      rewrite IH.
      * now rewrite <- app_assoc.
      * unfold JS.keys in *. rewrite map_app. cbn [map fst].
        rewrite <- app_assoc. exact Hnd.
      * exact Hr.
      * intros k' Hk'. apply Hin. now right.
    + exfalso. apply get_none_iff in Hg. apply Hg, Hin. now left.
Qed.

Lemma sortFields_plain fields :
  plain_fields fields ->
  SignatureService.sortFields fields
  = map (fun k => (k, value_of fields k)) (JS.sort (JS.keys fields)).
Proof.
  intros [Hnd Hplain]. unfold SignatureService.sortFields.
  rewrite sortFields_loop_plain; [reflexivity| | |].
  - cbn [JS.keys map app]. eapply Permutation_NoDup; [apply sort_perm | exact Hnd].
  - eapply Permutation_Forall; [apply sort_perm | exact Hplain].
  - intros k Hk. eapply Permutation_in; [apply Permutation_sym, sort_perm | exact Hk].
Qed.

(** The entries sorted by key are the sorted keys with their values. *)
Lemma insert_entry_keys e l :
  map fst (SignSpec.insert_entry e l) = JS.insert (fst e) (map fst l).
Proof.
  induction l as [|h t IH]; cbn [SignSpec.insert_entry JS.insert map]; [reflexivity|].
  destruct (String.leb (fst e) (fst h)); cbn [map]; [reflexivity | now rewrite IH].
Qed.

Lemma sort_entries_keys l :
  map fst (SignSpec.sort_entries l) = JS.sort (map fst l).
Proof.
  induction l as [|h t IH]; cbn [SignSpec.sort_entries JS.sort map]; [reflexivity|].
  now rewrite insert_entry_keys, IH.
Qed.

Lemma insert_entry_perm e l : Permutation (e :: l) (SignSpec.insert_entry e l).
Proof.
  induction l as [|h t IH]; cbn [SignSpec.insert_entry]; [apply Permutation_refl|].
  destruct (String.leb (fst e) (fst h)); [apply Permutation_refl|].
  eapply perm_trans; [apply perm_swap | now apply perm_skip].
Qed.

Lemma sort_entries_perm l : Permutation l (SignSpec.sort_entries l).
Proof.
  induction l as [|h t IH]; cbn [SignSpec.sort_entries]; [constructor|].
  eapply perm_trans; [apply perm_skip, IH | apply insert_entry_perm].
Qed.

Lemma sort_entries_values fields :
  NoDup (JS.keys fields) ->
  SignSpec.sort_entries fields
  = map (fun k => (k, value_of fields k)) (JS.sort (JS.keys fields)).
Proof.
  intros Hnd. unfold JS.keys. rewrite <- sort_entries_keys, map_map.
  assert (H : forall e, In e (SignSpec.sort_entries fields) ->
                        e = (fst e, value_of fields (fst e))).
  { intros [k v] Hin.
    apply (Permutation_in _ (Permutation_sym (sort_entries_perm fields))) in Hin.
    unfold value_of. cbn [fst]. now rewrite (get_in fields k v Hnd Hin). }
  induction (SignSpec.sort_entries fields) as [|e r IH]; cbn [map]; [reflexivity|].
  rewrite <- IH by (intros; apply H; now right).
  f_equal. apply H. now left.
Qed.

(** *** The query string *)

Lemma pair_string_nonempty e : (SignSpec.pair_string e =? "")%string = false.
Proof.
  unfold SignSpec.pair_string.
  destruct (QueryString.escape (fst e)); reflexivity.
Qed.

Lemma append_nonempty a b : (a =? "")%string = false -> (a ++ b =? "")%string = false.
Proof.
  destruct a; [discriminate | reflexivity].
Qed.

Lemma stringify_loop o :
  forall acc,
    (acc =? "")%string = false ->
    fold_left QueryString.stringify_step o acc = acc ++ following o.
Proof.
  induction o as [|e r IH]; intros acc Hacc; cbn [fold_left following].
  - now rewrite append_nil_r.
  - rewrite IH.
    + unfold QueryString.stringify_step, SignSpec.pair_string. rewrite Hacc.
      now rewrite !append_assoc.
    + unfold QueryString.stringify_step. rewrite Hacc.
      apply append_nonempty. destruct acc; [discriminate | reflexivity].
Qed.

Lemma join_following e r :
  Str.join "&" (map SignSpec.pair_string (e :: r))
  = SignSpec.pair_string e ++ following r.
Proof.
  revert e. induction r as [|e' r' IH]; intros e.
  - cbn [map Str.join following]. now rewrite append_nil_r.
  - change (Str.join "&" (map SignSpec.pair_string (e :: e' :: r')))
      with (SignSpec.pair_string e ++ "&"
            ++ Str.join "&" (map SignSpec.pair_string (e' :: r'))).
    rewrite IH. reflexivity.
Qed.

(** [stringify] joins the encoded pairs with [&]. *)
Lemma stringify_join o :
  QueryString.stringify o = Str.join "&" (map SignSpec.pair_string o).
Proof.
  destruct o as [|e r]; [reflexivity|].
  unfold QueryString.stringify. cbn [fold_left].
  assert (Hfirst : QueryString.stringify_step "" e = SignSpec.pair_string e).
  { unfold QueryString.stringify_step, SignSpec.pair_string.
    cbn [String.eqb append]. now rewrite append_assoc. }
  rewrite Hfirst, stringify_loop by apply pair_string_nonempty.
  now rewrite join_following.
Qed.

(** On plain keys the code signs what the specification describes. *)
Lemma generateSignature_plain fields secret :
  plain_fields fields ->
  SignatureService.generateSignature fields secret = SignSpec.sign fields secret.
Proof.
  intros Hplain.
  unfold SignatureService.generateSignature, SignatureService.signatureString,
    SignatureService.sortAndBuildQuery, SignSpec.sign, SignSpec.canonical.
  rewrite stringify_join, (sortFields_plain fields Hplain).
  now rewrite (sort_entries_values fields (proj1 Hplain)).
Qed.

(** *** The digest in hexadecimal *)

Lemma nib_lower_hex w i : lower_hex (SHA512.nib w i) = true.
Proof.
  unfold SHA512.nib.
  change 15 with (Z.ones 4). rewrite Z.land_ones by lia.
  apply (checked_below (fun z => lower_hex (SHA512.hexdigit z)) 16);
    [reflexivity|].
  apply Z.mod_pos_bound. reflexivity.
Qed.

Lemma hex64_shape w rest :
  all_lower_hex (SHA512.hex64 w rest) = all_lower_hex rest
  /\ String.length (SHA512.hex64 w rest) = (16 + String.length rest)%nat.
Proof.
  unfold SHA512.hex64. cbn [all_lower_hex String.length].
  rewrite !nib_lower_hex. split; reflexivity.
Qed.

(** The signature is 128 lowercase hexadecimal characters. *)
Lemma hexdigest_shape s :
  String.length (SHA512.hexdigest s) = 128%nat
  /\ all_lower_hex (SHA512.hexdigest s) = true.
Proof.
  unfold SHA512.hexdigest, SHA512.hex.
  set (d := SHA512.digest (Str.utf8 s)).
  split.
  - repeat (rewrite (proj2 (hex64_shape _ _))). reflexivity.
  - repeat (rewrite (proj1 (hex64_shape _ _))). reflexivity.
Qed.

(** *** Percent-encoding *)

Lemma no_space_or_plus_app a b :
  no_space_or_plus (a ++ b) = no_space_or_plus a && no_space_or_plus b.
Proof.
  induction a as [|c r IH]; cbn [append no_space_or_plus]; [reflexivity|].
  rewrite IH. now rewrite !andb_assoc.
Qed.

Lemma escape_char_clean c : no_space_or_plus (QueryString.escape_char c) = true.
Proof.
  destruct c as [[] [] [] [] [] [] [] []]; vm_compute; reflexivity.
Qed.

Lemma escape_clean s : no_space_or_plus (QueryString.escape s) = true.
Proof.
  induction s as [|c r IH]; cbn [QueryString.escape]; [reflexivity|].
  now rewrite no_space_or_plus_app, escape_char_clean, IH.
Qed.

Lemma following_clean o : no_space_or_plus (following o) = true.
Proof.
  induction o as [|e r IH]; cbn [following]; [reflexivity|].
  unfold SignSpec.pair_string.
  rewrite !no_space_or_plus_app, !escape_clean, IH. reflexivity.
Qed.

Lemma canonical_clean fields : no_space_or_plus (SignSpec.canonical fields) = true.
Proof.
  unfold SignSpec.canonical.
  destruct (SignSpec.sort_entries fields) as [|e r]; [reflexivity|].
  rewrite join_following. unfold SignSpec.pair_string.
  rewrite !no_space_or_plus_app, !escape_clean, following_clean. reflexivity.
Qed.

Lemma insert_entry_sorted e l :
  Sorted key_le l -> Sorted key_le (SignSpec.insert_entry e l).
Proof.
  induction 1 as [|h t Ht IH Hhd]; cbn [SignSpec.insert_entry]; [repeat constructor|].
  destruct (String.leb (fst e) (fst h)) eqn:E.
  - repeat constructor; assumption.
  - constructor; [exact IH|].
    assert (Hhe : key_le h e).
    { unfold key_le. destruct (String.leb_total (fst e) (fst h)); congruence. }
    destruct t as [|h' t']; cbn [SignSpec.insert_entry]; [now constructor|].
    destruct (String.leb (fst e) (fst h')); constructor; [exact Hhe|].
    now inversion Hhd.
Qed.

Lemma sort_entries_sorted l : Sorted key_le (SignSpec.sort_entries l).
Proof.
  induction l as [|h t IH]; cbn [SignSpec.sort_entries]; [constructor|].
  now apply insert_entry_sorted.
Qed.

(** C2: on a field map with plain keys (distinct, none an array index,
    none [__proto__]) the signature is the SHA-512 digest, in 128
    lowercase hexadecimal characters, of the entries sorted by key and
    written [key=value] joined by [&], percent-encoded with a space as
    [%20] and never a plus sign, followed by the secret.  With the keys
    "10" and "9" the code hashes "9=b&10=a" where the sorted string is
    "10=a&9=b": the object that carries the sorted keys lists array
    indices first and by value. *)
Theorem C2_signature_of_the_sorted_fields :
  (forall fields secret,
      plain_fields fields ->
      SignatureService.generateSignature fields secret = SignSpec.sign fields secret
      /\ Sorted key_le (SignSpec.sort_entries fields)
      /\ Permutation fields (SignSpec.sort_entries fields)
      /\ no_space_or_plus (SignSpec.canonical fields) = true
      /\ String.length (SignatureService.generateSignature fields secret) = 128%nat
      /\ all_lower_hex (SignatureService.generateSignature fields secret) = true)
  /\ QueryString.escape "a b+c" = "a%20b%2Bc"
  /\ (let fields := [("10", "a"); ("9", "b")] in
      JS.sort (JS.keys fields) = ["10"; "9"]
      /\ SignatureService.sortAndBuildQuery fields = "9=b&10=a"
      /\ SignSpec.canonical fields = "10=a&9=b"
      /\ SignatureService.generateSignature fields "secret"
         <> SignSpec.sign fields "secret").
Proof.
  split; [|split].
  - intros fields secret Hplain.
    split; [now apply generateSignature_plain|].
    split; [apply sort_entries_sorted|].
    split; [apply sort_entries_perm|].
    split; [apply canonical_clean|].
    apply hexdigest_shape.
  - reflexivity.
  - cbv zeta. repeat split; try reflexivity.
    vm_compute. discriminate.
Qed.

Lemma C2_signature_of_the_sorted_fields_witness :
  let fields := [ ("merchant_reference", "1234567890"); ("currency", "HKD");
                  ("amount", "100.00") ] in
  SignatureService.generateSignature fields "127f7830"
  = SignSpec.sign fields "127f7830"
  /\ String.length (SignatureService.generateSignature fields "127f7830") = 128%nat.
Proof.
  intros fields.
  destruct C2_signature_of_the_sorted_fields as [Hplain _].
  destruct (Hplain fields "127f7830") as (Hsign & _ & _ & _ & Hlen & _).
  - split.
    + repeat constructor; simpl; intuition discriminate.
    + repeat constructor; discriminate.
  - split; [exact Hsign | exact Hlen].
Defined.

(** *** Percent-encoding loses nothing *)

Lemma unescape_escape_char c rest :
  unescape_one (QueryString.escape_char c ++ rest) = Some (c, rest).
Proof.
  destruct c as [[] [] [] [] [] [] [] []]; vm_compute; reflexivity.
Qed.

Lemma escape_injective a : forall b,
  QueryString.escape a = QueryString.escape b -> a = b.
Proof.
  induction a as [|c r IH]; intros [|c' r'] H; cbn [QueryString.escape] in H.
  - reflexivity.
  - apply (f_equal unescape_one) in H.
    rewrite unescape_escape_char in H. discriminate.
  - apply (f_equal unescape_one) in H.
    rewrite unescape_escape_char in H. discriminate.
  - apply (f_equal unescape_one) in H.
    rewrite !unescape_escape_char in H. inversion H; subst.
    f_equal. now apply IH.
Qed.

(** *** What [sortFields] builds *)

Lemma keys_replace o k v : JS.keys (JS.replace o k v) = JS.keys o.
Proof.
  unfold JS.keys.
  induction o as [|[k' v'] r IH]; cbn [JS.replace]; [reflexivity|].
  destruct (String.eqb k' k); cbn [map fst]; [reflexivity|].
  now rewrite IH.
Qed.

Lemma put_index_perm o n k v : Permutation ((k, v) :: o) (JS.put_index o n k v).
Proof.
  induction o as [|[k' v'] r IH]; cbn [JS.put_index]; [apply Permutation_refl|].
  destruct (JS.array_index k') as [m|]; [|apply Permutation_refl].
  destruct (m <? n); [|apply Permutation_refl].
  eapply perm_trans; [apply perm_swap | now apply perm_skip].
Qed.

(** Writing a key either keeps the keys or adds the new one. *)
Lemma set_keys o k v :
  JS.keys (JS.set o k v) = JS.keys o
  \/ (~ In k (JS.keys o) /\ k <> "__proto__"
      /\ Permutation ((k, v) :: o) (JS.set o k v)).
Proof.
  unfold JS.set.
  destruct (String.eqb_spec k "__proto__") as [->|Hp]; [now left|].
  destruct (JS.has o k) eqn:Hh; [left; apply keys_replace|].
  right. apply has_false_iff in Hh. split; [exact Hh|]. split; [exact Hp|].
  destruct (JS.array_index k); [apply put_index_perm|].
  apply Permutation_cons_append.
Qed.

Lemma set_NoDup o k v : NoDup (JS.keys o) -> NoDup (JS.keys (JS.set o k v)).
Proof.
  intros Hnd. destruct (set_keys o k v) as [-> | (Hnew & _ & Hperm)]; [exact Hnd|].
  apply (Permutation_map fst) in Hperm.
  eapply Permutation_NoDup; [exact Hperm|]. now constructor.
Qed.

Lemma set_keeps_key o k v k0 :
  In k0 (JS.keys o) -> In k0 (JS.keys (JS.set o k v)).
Proof.
  intros Hin. destruct (set_keys o k v) as [-> | (_ & _ & Hperm)]; [exact Hin|].
  apply (Permutation_map fst) in Hperm.
  eapply Permutation_in; [exact Hperm|]. now right.
Qed.

Lemma set_adds_key o k v :
  k <> "__proto__" -> In k (JS.keys (JS.set o k v)).
Proof.
  intros Hp. destruct (set_keys o k v) as [He | (_ & _ & Hperm)].
  - rewrite He. unfold JS.set in He. apply String.eqb_neq in Hp.
    rewrite Hp in He. destruct (JS.has o k) eqn:Hh.
    + destruct (in_dec string_dec k (JS.keys o)) as [Hin | Hout]; [exact Hin|].
      apply has_false_iff in Hout. congruence.
    + exfalso. apply has_false_iff in Hh.
      assert (Hlen : List.length (JS.keys o) = S (List.length (JS.keys o))).
      { rewrite <- He at 1. unfold JS.keys. rewrite !length_map.
        destruct (JS.array_index k).
        - rewrite <- (Permutation_length (put_index_perm o _ k v)). reflexivity.
        - rewrite length_app. simpl. lia. }
      lia.
  - apply (Permutation_map fst) in Hperm.
    eapply Permutation_in; [exact Hperm|]. now left.
Qed.

Section FromFields.

Variable fields : JS.object.

Lemma replace_faithful o k v :
  faithful fields (k, v) -> Forall (faithful fields) o -> Forall (faithful fields) (JS.replace o k v).
Proof.
  intros Hkv. induction 1 as [|[k' v'] r He Hr IH]; cbn [JS.replace]; [constructor|].
  destruct (String.eqb_spec k' k) as [->|Hne]; constructor; auto.
Qed.

Lemma set_faithful o k v :
  faithful fields (k, v) -> Forall (faithful fields) o -> Forall (faithful fields) (JS.set o k v).
Proof.
  intros Hkv Ho. unfold JS.set.
  destruct (String.eqb k "__proto__"); [exact Ho|].
  destruct (JS.has o k); [now apply replace_faithful|].
  destruct (JS.array_index k).
  - eapply Permutation_Forall; [apply put_index_perm|]. now constructor.
  - apply Forall_app. split; [exact Ho | now repeat constructor].
Qed.

Lemma sortFields_loop_sound ks :
  forall acc,
    NoDup (JS.keys acc) -> Forall (faithful fields) acc ->
    let o := fold_left (sortFields_step fields) ks acc in
    NoDup (JS.keys o) /\ Forall (faithful fields) o
    /\ (forall k, In k (JS.keys acc) -> In k (JS.keys o))
    /\ (forall k, In k ks -> In k (JS.keys fields) -> k <> "__proto__" ->
                  In k (JS.keys o)).
Proof.
  induction ks as [|key r IH]; intros acc Hnd Hf; cbn [fold_left].
  - repeat split; auto. intros k [].
  - assert (Hnd' : NoDup (JS.keys (sortFields_step fields acc key))).
    { unfold sortFields_step. destruct (JS.get fields key); [now apply set_NoDup | exact Hnd]. }
    assert (Hf' : Forall (faithful fields) (sortFields_step fields acc key)).
    { unfold sortFields_step. destruct (JS.get fields key) eqn:Hg; [|exact Hf].
      apply set_faithful; [exact Hg | exact Hf]. }
    destruct (IH _ Hnd' Hf') as (H1 & H2 & H3 & H4).
    split; [exact H1|]. split; [exact H2|]. split.
    + intros k Hk. apply H3. unfold sortFields_step.
      destruct (JS.get fields key); [now apply set_keeps_key | exact Hk].
    + intros k [-> | Hk] Hin Hp; [|now apply H4].
      apply H3. unfold sortFields_step.
      destruct (JS.get fields k) eqn:Hg; [now apply set_adds_key|].
      apply get_none_iff in Hg. contradiction.
Qed.

Lemma sortFields_sound :
  let o := SignatureService.sortFields fields in
  NoDup (JS.keys o) /\ Forall (faithful fields) o
  /\ (forall k, In k (JS.keys fields) -> k <> "__proto__" -> In k (JS.keys o)).
Proof.
  destruct (sortFields_loop_sound (JS.sort (JS.keys fields)) [] (NoDup_nil _)
              (Forall_nil _)) as (H1 & H2 & _ & H4).
  split; [exact H1|]. split; [exact H2|].
  intros k Hin Hp. apply H4; auto.
  eapply Permutation_in; [apply sort_perm | exact Hin].
Qed.

End FromFields.

(** *** Changing one value *)

Section OneValue.

Variables (k v' : string).

Lemma with_value_keys o : JS.keys (JS.with_value o k v') = JS.keys o.
Proof.
  unfold JS.keys, JS.with_value. rewrite map_map. apply map_ext.
  intros e. destruct (String.eqb (fst e) k); reflexivity.
Qed.

Lemma with_value_get o k0 :
  JS.get (JS.with_value o k v') k0
  = if String.eqb k0 k then option_map (fun _ => v') (JS.get o k0)
    else JS.get o k0.
Proof.
  induction o as [|[k1 v1] r IH]; cbn [JS.with_value map JS.get fst].
  - destruct (String.eqb k0 k); reflexivity.
  - destruct (String.eqb_spec k1 k) as [->|Hne]; cbn [fst JS.get].
    + destruct (String.eqb_spec k k0) as [->|Hne0].
      * rewrite String.eqb_refl. reflexivity.
      * exact IH.
    + destruct (String.eqb_spec k1 k0) as [->|Hne0]; [|exact IH].
      apply String.eqb_neq in Hne. now rewrite Hne.
Qed.

Lemma with_value_has o k0 : JS.has (JS.with_value o k v') k0 = JS.has o k0.
Proof.
  unfold JS.has. rewrite with_value_get.
  destruct (String.eqb k0 k), (JS.get o k0); reflexivity.
Qed.

Lemma with_value_absent o : ~ In k (JS.keys o) -> JS.with_value o k v' = o.
Proof.
  unfold JS.with_value, JS.keys.
  induction o as [|[k1 v1] r IH]; cbn [map fst In]; intros H; [reflexivity|].
  destruct (String.eqb_spec k1 k) as [->|Hne]; [exfalso; apply H; now left|].
  rewrite IH; [reflexivity | tauto].
Qed.

Lemma with_value_replace o k0 w :
  JS.replace (JS.with_value o k v') k0 (written k v' k0 w)
  = JS.with_value (JS.replace o k0 w) k v'.
Proof.
  unfold written.
  induction o as [|[k1 v1] r IH]; cbn [JS.with_value map JS.replace fst];
    [reflexivity|].
  destruct (String.eqb_spec k1 k) as [->|Hne]; cbn [fst JS.replace].
  - destruct (String.eqb_spec k k0) as [<-|Hne0]; cbn [map fst].
    + now rewrite !String.eqb_refl.
    + rewrite String.eqb_refl. f_equal. exact IH.
  - destruct (String.eqb_spec k1 k0) as [->|Hne0]; cbn [map fst].
    + apply String.eqb_neq in Hne. now rewrite Hne.
    + apply String.eqb_neq in Hne. rewrite Hne. f_equal. exact IH.
Qed.

Lemma with_value_put_index o n k0 w :
  JS.put_index (JS.with_value o k v') n k0 (written k v' k0 w)
  = JS.with_value (JS.put_index o n k0 w) k v'.
Proof.
  assert (Hnew : [(k0, written k v' k0 w)] = JS.with_value [(k0, w)] k v').
  { unfold written, JS.with_value. cbn [map fst].
    destruct (String.eqb k0 k); reflexivity. }
  induction o as [|[k1 v1] r IH]; cbn [JS.with_value map JS.put_index fst];
    [exact Hnew|].
  assert (Hfst : fst (if String.eqb k1 k then (k1, v') else (k1, v1)) = k1)
    by (destruct (String.eqb k1 k); reflexivity).
  destruct (if String.eqb k1 k then (k1, v') else (k1, v1)) as [k2 v2] eqn:E.
  cbn [fst] in Hfst. subst k2.
  destruct (JS.array_index k1) as [m|].
  - destruct (m <? n); cbn [map fst].
    + rewrite E. f_equal. exact IH.
    + rewrite E. inversion Hnew as [Hn]. now rewrite Hn.
  - cbn [map fst]. rewrite E. inversion Hnew as [Hn]. now rewrite Hn.
Qed.

Lemma with_value_set o k0 w :
  JS.set (JS.with_value o k v') k0 (written k v' k0 w)
  = JS.with_value (JS.set o k0 w) k v'.
Proof.
  unfold JS.set. destruct (String.eqb k0 "__proto__"); [reflexivity|].
  rewrite with_value_has. destruct (JS.has o k0); [apply with_value_replace|].
  destruct (JS.array_index k0); [apply with_value_put_index|].
  unfold JS.with_value at 2. rewrite map_app. cbn [map fst]. unfold written.
  destruct (String.eqb k0 k); reflexivity.
Qed.

Lemma sortFields_loop_with_value fields ks :
  forall acc,
    fold_left (sortFields_step (JS.with_value fields k v')) ks
      (JS.with_value acc k v')
    = JS.with_value (fold_left (sortFields_step fields) ks acc) k v'.
Proof.
  induction ks as [|key r IH]; intros acc; cbn [fold_left]; [reflexivity|].
  rewrite <- IH. f_equal.
  unfold sortFields_step. rewrite with_value_get.
  destruct (JS.get fields key) as [w|] eqn:Hg.
  - rewrite <- with_value_set. unfold written.
    destruct (String.eqb key k); reflexivity.
  - destruct (String.eqb key k); reflexivity.
Qed.

(** [sortFields] of the changed fields is the changed [sortFields]. *)
Lemma sortFields_with_value fields :
  SignatureService.sortFields (JS.with_value fields k v')
  = JS.with_value (SignatureService.sortFields fields) k v'.
Proof.
  unfold SignatureService.sortFields. rewrite with_value_keys.
  apply (sortFields_loop_with_value fields (JS.sort (JS.keys fields)) []).
Qed.

End OneValue.

Lemma following_app a b :
  following (a ++ b)%list = following a ++ following b.
Proof.
  induction a as [|e r IH]; cbn [app following]; [reflexivity|].
  rewrite IH. now rewrite !append_assoc.
Qed.

(** The query string around the value of one entry. *)
Lemma stringify_around pre k post :
  exists A B, forall x,
    QueryString.stringify (pre ++ (k, x) :: post)%list
    = A ++ QueryString.escape x ++ B.
Proof.
  destruct pre as [|e r].
  - exists (QueryString.escape k ++ "="), (following post). intros x.
    rewrite stringify_join. cbn [app]. rewrite join_following.
    unfold SignSpec.pair_string. cbn [fst snd]. now rewrite !append_assoc.
  - exists (SignSpec.pair_string e ++ following r ++ "&" ++ QueryString.escape k ++ "="),
           (following post).
    intros x. rewrite stringify_join. cbn [app]. rewrite join_following, following_app.
    cbn [following]. unfold SignSpec.pair_string at 2. cbn [fst snd].
    now rewrite !append_assoc.
Qed.

Lemma split_at_key o k :
  In k (JS.keys o) -> NoDup (JS.keys o) ->
  exists pre v0 post,
    o = (pre ++ (k, v0) :: post)%list
    /\ ~ In k (JS.keys pre) /\ ~ In k (JS.keys post).
Proof.
  intros Hin Hnd. unfold JS.keys in Hin. apply in_map_iff in Hin as ([k0 v0] & Hk & Hin).
  cbn [fst] in Hk. subst k0.
  apply in_split in Hin as (pre & post & ->).
  exists pre, v0, post. split; [reflexivity|].
  unfold JS.keys in *. rewrite map_app in Hnd. cbn [map fst] in Hnd.
  apply NoDup_remove_2 in Hnd.
  split; intros H; apply Hnd, in_or_app; auto.
Qed.

(** Changing the value of a field changes the string that is hashed. *)
Lemma signatureString_changes fields k v v' secret :
  JS.get fields k = Some v -> v' <> v -> k <> "__proto__" ->
  SignatureService.signatureString (JS.with_value fields k v') secret
  <> SignatureService.signatureString fields secret.
Proof.
  intros Hget Hne Hproto.
  unfold SignatureService.signatureString, SignatureService.sortAndBuildQuery.
  rewrite sortFields_with_value.
  destruct (sortFields_sound fields) as (Hnd & Hfaith & Hkeys).
  assert (Hin : In k (JS.keys (SignatureService.sortFields fields))).
  { apply Hkeys; [|exact Hproto].
    destruct (in_dec string_dec k (JS.keys fields)) as [H|H]; [exact H|].
    apply get_none_iff in H. congruence. }
  destruct (split_at_key _ k Hin Hnd) as (pre & v0 & post & Ho & Hpre & Hpost).
  rewrite Ho in *.
  assert (v0 = v).
  { rewrite Forall_forall in Hfaith.
    specialize (Hfaith (k, v0) ltac:(apply in_or_app; right; left; reflexivity)).
    unfold faithful in Hfaith. cbn [fst snd] in Hfaith. congruence. }
  subst v0.
  assert (Hchanged : JS.with_value (pre ++ (k, v) :: post)%list k v'
                     = (pre ++ (k, v') :: post)%list).
  { unfold JS.with_value. rewrite map_app. cbn [map fst]. rewrite String.eqb_refl.
    fold (JS.with_value pre k v'). fold (JS.with_value post k v').
    now rewrite !with_value_absent by assumption. }
  rewrite Hchanged.
  destruct (stringify_around pre k post) as (A & B & Hs).
  rewrite !Hs, !append_assoc. intros H.
  apply append_cancel_l, append_cancel_r in H.
  apply Hne, escape_injective, H.
Qed.

Lemma signatureString_other_secret fields secret secret' :
  secret <> secret' ->
  SignatureService.signatureString fields secret'
  <> SignatureService.signatureString fields secret.
Proof.
  unfold SignatureService.signatureString. intros Hne H.
  apply append_cancel_l in H. congruence.
Qed.

(** *** The key [__proto__] *)

Lemma sortFields_loop_no_proto fields ks : forall acc,
  ~ In "__proto__" (JS.keys acc) ->
  ~ In "__proto__" (JS.keys (fold_left (sortFields_step fields) ks acc)).
Proof.
  induction ks as [|k ks IH]; intros acc Hacc; cbn [fold_left]; [exact Hacc|].
  apply IH. unfold sortFields_step.
  destruct (JS.get fields k) as [v|]; [|exact Hacc].
  destruct (set_keys acc k v) as [E | (_ & Hk & Hp)].
  - now rewrite E.
  - intros Hin. apply (Permutation_in _ (Permutation_sym (Permutation_map fst Hp)))
      in Hin.
    cbn [map fst In] in Hin. destruct Hin as [E|Hin]; [now apply Hk | now apply Hacc].
Qed.

(** The sorted object never has the key [__proto__]. *)
Lemma sortFields_no_proto fields :
  ~ In "__proto__" (JS.keys (SignatureService.sortFields fields)).
Proof.
  apply (sortFields_loop_no_proto fields (JS.sort (JS.keys fields)) []).
  intros [].
Qed.

(** C3, as the code has it: a signature verifies against the fields
    and secret it was made from, and [verifySignature] accepts exactly
    the recomputed signature.  With another secret, or with the value
    of a field other than one keyed [__proto__] changed, the string
    that is hashed is a different one, so verification fails unless the
    two strings collide under SHA-512.  But the value under the key
    [__proto__] is not part of the string that is hashed: whatever it
    is changed to, the signature made before still verifies. *)
Theorem C3_verification_round_trip :
  (forall fields secret,
      SignatureService.verifySignature fields
        (SignatureService.generateSignature fields secret) secret = true)
  /\ (forall fields received secret,
      SignatureService.verifySignature fields received secret = true
      <-> received = SignatureService.generateSignature fields secret)
  /\ (forall fields secret secret',
      secret <> secret' ->
      SignatureService.signatureString fields secret'
      <> SignatureService.signatureString fields secret
      /\ (SignatureService.verifySignature fields
            (SignatureService.generateSignature fields secret) secret' = false
          \/ collide (SignatureService.signatureString fields secret')
                     (SignatureService.signatureString fields secret)))
  /\ (forall fields k v v' secret,
      JS.get fields k = Some v -> v' <> v -> k <> "__proto__" ->
      SignatureService.signatureString (JS.with_value fields k v') secret
      <> SignatureService.signatureString fields secret
      /\ (SignatureService.verifySignature (JS.with_value fields k v')
            (SignatureService.generateSignature fields secret) secret = false
          \/ collide (SignatureService.signatureString (JS.with_value fields k v') secret)
                     (SignatureService.signatureString fields secret)))
  /\ (forall fields v' secret,
      SignatureService.verifySignature (JS.with_value fields "__proto__" v')
        (SignatureService.generateSignature fields secret) secret = true)
  /\ (let sent := [("__proto__", "a"); ("merchant_reference", "ORDER-1")] in
      let changed := [("__proto__", "b"); ("merchant_reference", "ORDER-1")] in
      JS.get sent "__proto__" <> JS.get changed "__proto__"
      /\ SignatureService.verifySignature changed
           (SignatureService.generateSignature sent "127f7830") "127f7830"
         = true).
Proof.
  unfold SignatureService.verifySignature, SignatureService.generateSignature.
  split; [|split; [|split; [|split; [|split]]]].
  - intros. apply String.eqb_refl.
  - intros fields received secret. rewrite String.eqb_eq. split; congruence.
  - intros fields secret secret' Hne.
    pose proof (signatureString_other_secret fields secret secret' Hne) as Hs.
    split; [exact Hs|].
    destruct (String.eqb_spec
                (SHA512.hexdigest (SignatureService.signatureString fields secret'))
                (SHA512.hexdigest (SignatureService.signatureString fields secret)))
      as [Heq | Hneq]; [right | now left].
    split; [exact Hs | exact Heq].
  - intros fields k v v' secret Hget Hne Hproto.
    pose proof (signatureString_changes fields k v v' secret Hget Hne Hproto) as Hs.
    split; [exact Hs|].
    destruct (String.eqb_spec
                (SHA512.hexdigest
                   (SignatureService.signatureString (JS.with_value fields k v') secret))
                (SHA512.hexdigest (SignatureService.signatureString fields secret)))
      as [Heq | Hneq]; [right | now left].
    split; [exact Hs | exact Heq].
  - intros fields v' secret.
    unfold SignatureService.signatureString, SignatureService.sortAndBuildQuery.
    rewrite sortFields_with_value.
    rewrite with_value_absent by apply sortFields_no_proto.
    apply String.eqb_refl.
  - split; [discriminate | vm_compute; reflexivity].
Qed.

Lemma C3_verification_round_trip_witness :
  let fields := [("amount", "100.00"); ("currency", "HKD")] in
  SignatureService.verifySignature fields
    (SignatureService.generateSignature fields "127f7830") "127f7831" = false
  /\ SignatureService.verifySignature (JS.with_value fields "amount" "900.00")
       (SignatureService.generateSignature fields "127f7830") "127f7830" = false.
Proof.
  intros fields.
  destruct C3_verification_round_trip as (_ & _ & Hsecret & Hvalue & _).
  split.
  - destruct (Hsecret fields "127f7830" "127f7831") as [_ [H | [_ H]]].
    + discriminate.
    + exact H.
    + exfalso. vm_compute in H. discriminate.
  - destruct (Hvalue fields "amount" "100.00" "900.00" "127f7830")
      as [_ [H | [_ H]]].
    + reflexivity.
    + discriminate.
    + discriminate.
    + exact H.
    + exfalso. vm_compute in H. discriminate.
Defined.

(** The value under [__proto__] is not signed at all: the write into
    the sorted object is lost. *)
Remark proto_value_is_not_signed :
  SignatureService.sortAndBuildQuery [("__proto__", "a"); ("amount", "100.00")]
  = "amount=100.00"
  /\ SignatureService.verifySignature [("__proto__", "b"); ("amount", "100.00")]
       (SignatureService.generateSignature
          [("__proto__", "a"); ("amount", "100.00")] "127f7830")
       "127f7830" = true.
Proof.
  split; vm_compute; reflexivity.
Qed.

(* ================================================================= *)
(** * Further properties of the services and the routes *)

(** ** Scenario rules *)

Lemma substring_whole s : substring 0 (String.length s) s = s.
Proof.
  induction s as [|c s IH]; simpl; [reflexivity | now rewrite IH].
Qed.

Lemma substring_suffix p suf :
  substring (String.length p) (String.length suf) (p ++ suf) = suf.
Proof.
  induction p as [|c p IH]; simpl; [apply substring_whole | exact IH].
Qed.

Lemma substring_split n : forall s,
  (n <= String.length s)%nat ->
  s = substring 0 n s ++ substring n (String.length s - n) s.
Proof.
  induction n as [|n IH]; intros s Hn.
  - rewrite Nat.sub_0_r, substring_whole.
    destruct s; reflexivity.
  - destruct s as [|c s]; simpl in Hn; [lia|].
    simpl. f_equal. apply IH. lia.
Qed.

Lemma endsWith_iff s suffix :
  Str.endsWith s suffix = true <-> exists p, s = p ++ suffix.
Proof.
  unfold Str.endsWith. split.
  - destruct (String.length suffix <=? String.length s)%nat eqn:Hk;
      [|discriminate].
    apply Nat.leb_le in Hk. intros H. apply String.eqb_eq in H.
    remember (String.length suffix) as k eqn:Ek.
    exists (substring 0 (String.length s - k) s).
    rewrite <- H.
    assert (Hs := substring_split (String.length s - k) s (Nat.le_sub_l _ _)).
    replace (String.length s - (String.length s - k))%nat with k in Hs by lia.
    exact Hs.
  - intros [p ->]. rewrite length_append.
    replace (String.length suffix <=? String.length p + String.length suffix)%nat
      with true by (symmetry; apply Nat.leb_le; lia).
    replace (String.length p + String.length suffix - String.length suffix)%nat
      with (String.length p) by lia.
    rewrite substring_suffix. apply String.eqb_refl.
Qed.

(** X1: a rule matches exactly when the amount ends with its value
    (for [amount_ends_with]), the amount is its value (for
    [amount_equals]) or the network is its value (for [network]); the
    comparison is on the strings as they are, so a rule
    [amount_ends_with] with an empty value matches every payment. *)
Theorem ruleMatches_iff :
  (forall rule amount network,
     ScenarioService.ruleMatches rule amount network = true <->
     match condition rule with
     | amount_ends_with => exists p, amount = p ++ value rule
     | amount_equals => amount = value rule
     | network_is => network = value rule
     end)
  /\ (forall o amount network,
        ScenarioService.ruleMatches
          {| condition := amount_ends_with; value := ""; outcome := o |}
          amount network = true).
Proof.
  assert (H : forall rule amount network,
     ScenarioService.ruleMatches rule amount network = true <->
     match condition rule with
     | amount_ends_with => exists p, amount = p ++ value rule
     | amount_equals => amount = value rule
     | network_is => network = value rule
     end).
  { intros rule amount network. unfold ScenarioService.ruleMatches.
    destruct (condition rule).
    - apply endsWith_iff.
    - apply String.eqb_eq.
    - apply String.eqb_eq. }
  split; [exact H|].
  intros o amount network. apply H. simpl.
  exists amount. symmetry. apply append_nil_r.
Qed.

Lemma checkRules_app a b amount network :
  ScenarioService.checkRules (a ++ b) amount network
  = match ScenarioService.checkRules a amount network with
    | Some s => Some s
    | None => ScenarioService.checkRules b amount network
    end.
Proof.
  induction a as [|r a IH]; simpl; [reflexivity|].
  destruct (ScenarioService.ruleMatches r amount network); [reflexivity | exact IH].
Qed.

(** X2: [addRule] puts the rule behind the ones already there.  A
    payment that an earlier rule matches keeps its outcome; a payment
    that no earlier rule matches gets SUCCESS or FAIL as the new rule
    says when that rule matches, and keeps the default otherwise.
    After [clearRules] every payment gets the default outcome. *)
Theorem addRule_has_lowest_priority :
  forall cfg r random amount network token,
    let before :=
      ScenarioService.getOutcomeForTransaction cfg random amount network token in
    let after :=
      ScenarioService.getOutcomeForTransaction (ScenarioService.addRule cfg r)
        random amount network token in
    let default :=
      match defaultOutcome cfg with
      | RANDOM => if Qle_bool random (1 # 2) then FAIL else SUCCESS
      | DefaultSuccess => SUCCESS
      | DefaultFail => FAIL
      end in
    (existsb (fun x => ScenarioService.ruleMatches x amount network) (rules cfg)
     = true -> after = before)
    /\ (existsb (fun x => ScenarioService.ruleMatches x amount network) (rules cfg)
        = false ->
        before = default
        /\ after = if ScenarioService.ruleMatches r amount network
                   then match outcome r with
                        | RuleSuccess => SUCCESS
                        | RuleFail => FAIL
                        end
                   else default)
    /\ ScenarioService.getOutcomeForTransaction
         (ScenarioService.clearRules (ScenarioService.addRule cfg r))
         random amount network token
       = default.
Proof.
  intros cfg r random amount network token before after default.
  assert (Hc : forall rs,
    existsb (fun x => ScenarioService.ruleMatches x amount network) rs
    = match ScenarioService.checkRules rs amount network with
      | Some _ => true | None => false end).
  { induction rs as [|x rs IH]; simpl; [reflexivity|].
    destruct (ScenarioService.ruleMatches x amount network);
      [reflexivity | exact IH]. }
  subst before after default. unfold ScenarioService.getOutcomeForTransaction.
  cbn [rules ScenarioService.addRule ScenarioService.clearRules defaultOutcome].
  rewrite checkRules_app, Hc.
  destruct (ScenarioService.checkRules (rules cfg) amount network) eqn:E.
  - split; [reflexivity|]. split; [discriminate | reflexivity].
  - split; [discriminate|]. split; [|reflexivity].
    intros _. split; [reflexivity|]. simpl.
    destruct (ScenarioService.ruleMatches r amount network); [|reflexivity].
    unfold ScenarioService.rule_status. destruct (outcome r); reflexivity.
Qed.

Lemma addRule_has_lowest_priority_witness :
  ScenarioService.getOutcomeForTransaction
    (ScenarioService.addRule
       {| defaultOutcome := DefaultSuccess; callbackDelay := 3000;
          processingDelay := 1000; rules := [Sample.rule99 RuleFail] |}
       (Sample.rule99 RuleSuccess))
    0 "99.99" "Alipay" "ae476881"
  = FAIL
  /\ ScenarioService.getOutcomeForTransaction
       (ScenarioService.addRule
          {| defaultOutcome := DefaultFail; callbackDelay := 3000;
             processingDelay := 1000; rules := [Sample.rule99 RuleFail] |}
          {| condition := network_is; value := "Alipay"; outcome := RuleSuccess |})
       0 "100.00" "Alipay" "ae476881"
     = SUCCESS.
Proof.
  split.
  - apply (addRule_has_lowest_priority
             {| defaultOutcome := DefaultSuccess; callbackDelay := 3000;
                processingDelay := 1000; rules := [Sample.rule99 RuleFail] |}
             (Sample.rule99 RuleSuccess) 0 "99.99" "Alipay" "ae476881").
    reflexivity.
  - destruct (addRule_has_lowest_priority
                {| defaultOutcome := DefaultFail; callbackDelay := 3000;
                   processingDelay := 1000; rules := [Sample.rule99 RuleFail] |}
                {| condition := network_is; value := "Alipay";
                   outcome := RuleSuccess |}
                0 "100.00" "Alipay" "ae476881") as (_ & Hnew & _).
    destruct (Hnew eq_refl) as [_ Hafter]. exact Hafter.
Defined.

(** ** The signature and the order of the fields *)

Lemma leb_trans a : forall b c,
  String.leb a b = true -> String.leb b c = true -> String.leb a c = true.
Proof.
  unfold String.leb.
  induction a as [|x a IH]; intros [|y b] [|z c]; simpl;
    try reflexivity; try discriminate.
  unfold Ascii.compare.
  destruct (N.compare_spec (N_of_ascii x) (N_of_ascii y)) as [Exy | Lxy | Gxy];
    destruct (N.compare_spec (N_of_ascii y) (N_of_ascii z)) as [Eyz | Lyz | Gyz];
    try discriminate; intros H1 H2.
  - rewrite Exy, Eyz, N.compare_refl. now apply IH with b.
  - rewrite Exy. now rewrite (proj2 (N.compare_lt_iff _ _) Lyz).
  - rewrite <- Eyz. now rewrite (proj2 (N.compare_lt_iff _ _) Lxy).
  - now rewrite (proj2 (N.compare_lt_iff _ _) (N.lt_trans _ _ _ Lxy Lyz)).
Qed.

Lemma insert_strongly_sorted k l :
  StronglySorted (fun a b => String.leb a b = true) l ->
  StronglySorted (fun a b => String.leb a b = true) (JS.insert k l).
Proof.
  induction 1 as [|h t Ht IH Hh]; cbn [JS.insert].
  - constructor; constructor.
  - destruct (String.leb k h) eqn:E.
    + constructor; [now constructor|].
      constructor; [exact E|].
      eapply Forall_impl; [|exact Hh]. intros x Hx. now apply leb_trans with h.
    + constructor; [exact IH|].
      assert (Hhk : String.leb h k = true).
      { destruct (String.leb_total k h) as [H|H]; [congruence | exact H]. }
      apply Forall_forall. intros x Hx.
      apply (Permutation_in _ (Permutation_sym (sort_insert_perm k t))) in Hx.
      destruct Hx as [<-|Hx]; [exact Hhk|].
      rewrite Forall_forall in Hh. now apply Hh.
Qed.

Lemma sort_strongly_sorted l :
  StronglySorted (fun a b => String.leb a b = true) (JS.sort l).
Proof.
  induction l as [|h t IH]; cbn [JS.sort];
    [constructor | now apply insert_strongly_sorted].
Qed.

Lemma sorted_unique l : forall l',
  StronglySorted (fun a b => String.leb a b = true) l ->
  StronglySorted (fun a b => String.leb a b = true) l' ->
  Permutation l l' -> l = l'.
Proof.
  induction l as [|a r IH]; intros l' Hl Hl' Hp.
  - now apply Permutation_nil in Hp.
  - destruct l' as [|b r'].
    { apply Permutation_sym, Permutation_nil in Hp. discriminate. }
    inversion Hl as [|? ? Hr Ha]; subst.
    inversion Hl' as [|? ? Hr' Hb]; subst.
    rewrite Forall_forall in Ha, Hb.
    assert (Eab : a = b).
    { assert (Hin : In a (b :: r')) by (eapply Permutation_in; [exact Hp | now left]).
      assert (Hin' : In b (a :: r)).
      { eapply Permutation_in; [apply Permutation_sym; exact Hp | now left]. }
      destruct Hin as [->|Hin]; [reflexivity|].
      destruct Hin' as [->|Hin']; [reflexivity|].
      apply String.leb_antisym; [now apply Ha | now apply Hb]. }
    subst b. f_equal. apply IH; try assumption.
    now apply Permutation_cons_inv in Hp.
Qed.

Lemma sort_of_permutation l l' : Permutation l l' -> JS.sort l = JS.sort l'.
Proof.
  intros Hp. apply sorted_unique; try apply sort_strongly_sorted.
  eapply perm_trans; [apply Permutation_sym, sort_perm|].
  eapply perm_trans; [exact Hp | apply sort_perm].
Qed.

Lemma get_some_in o k v : JS.get o k = Some v -> In (k, v) o.
Proof.
  induction o as [|[k' v'] r IH]; cbn [JS.get]; [discriminate|].
  destruct (String.eqb_spec k' k) as [->|Hne].
  - intros H. inversion H; subst. now left.
  - intros H. right. now apply IH.
Qed.

Lemma get_of_permutation o o' k :
  NoDup (JS.keys o) -> Permutation o o' -> JS.get o k = JS.get o' k.
Proof.
  intros Hnd Hp.
  assert (Hk : Permutation (JS.keys o) (JS.keys o')) by now apply Permutation_map.
  destruct (JS.get o k) as [v|] eqn:E.
  - symmetry. apply get_in.
    + eapply Permutation_NoDup; [exact Hk | exact Hnd].
    + eapply Permutation_in; [exact Hp | now apply get_some_in].
  - symmetry. apply get_none_iff. intros Hin.
    apply get_none_iff in E. apply E.
    eapply Permutation_in; [apply Permutation_sym; exact Hk | exact Hin].
Qed.

Lemma sortFields_of_permutation fields fields' :
  NoDup (JS.keys fields) -> Permutation fields fields' ->
  SignatureService.sortFields fields = SignatureService.sortFields fields'.
Proof.
  intros Hnd Hp. unfold SignatureService.sortFields.
  rewrite (sort_of_permutation (JS.keys fields) (JS.keys fields'))
    by now apply Permutation_map.
  generalize (@nil (string * string)).
  induction (JS.sort (JS.keys fields')) as [|k ks IH]; intros acc;
    cbn [fold_left]; [reflexivity|].
  rewrite (get_of_permutation fields fields' k Hnd Hp). apply IH.
Qed.

(** X3: the signature does not depend on the order in which the fields
    are given: two objects with the same entries, each key once, have
    the same string to sign and the same signature under every secret.
    This holds for every key, whether or not the sorted order survives
    in the object that is serialised. *)
Theorem signature_ignores_the_order_of_fields :
  forall fields fields' secret,
    NoDup (JS.keys fields) -> Permutation fields fields' ->
    SignatureService.sortAndBuildQuery fields
    = SignatureService.sortAndBuildQuery fields'
    /\ SignatureService.generateSignature fields secret
       = SignatureService.generateSignature fields' secret
    /\ forall received,
         SignatureService.verifySignature fields received secret
         = SignatureService.verifySignature fields' received secret.
Proof.
  intros fields fields' secret Hnd Hp.
  unfold SignatureService.verifySignature, SignatureService.generateSignature,
    SignatureService.signatureString, SignatureService.sortAndBuildQuery.
  rewrite (sortFields_of_permutation fields fields' Hnd Hp).
  repeat split; reflexivity.
Qed.

Lemma signature_ignores_the_order_of_fields_witness :
  SignatureService.generateSignature
    [("merchant_reference", "1234567890"); ("currency", "HKD"); ("amount", "100.00")]
    "127f7830"
  = SignatureService.generateSignature
      [("amount", "100.00"); ("merchant_reference", "1234567890"); ("currency", "HKD")]
      "127f7830".
Proof.
  apply (signature_ignores_the_order_of_fields
           [("merchant_reference", "1234567890"); ("currency", "HKD");
            ("amount", "100.00")]
           [("amount", "100.00"); ("merchant_reference", "1234567890");
            ("currency", "HKD")]
           "127f7830").
  - repeat constructor; simpl; intuition discriminate.
  - apply Permutation_sym, (Permutation_cons_app [_; _] [] _), Permutation_refl.
Defined.

(** ** The signature check of the middleware *)

Lemma digest_nonempty s : (SHA512.hexdigest s =? "")%string = false.
Proof.
  destruct (hexdigest_shape s) as [Hlen _].
  destruct (SHA512.hexdigest s); [discriminate | reflexivity].
Qed.

Lemma stringFields_loop fields : forall acc,
  NoDup (JS.keys acc ++ JS.keys fields) ->
  Forall plain_key (JS.keys fields) ->
  fold_left (fun acc e => JS.set acc (fst e) (snd e)) fields acc
  = (acc ++ fields)%list.
Proof.
  induction fields as [|[k v] r IH]; intros acc Hnd Hp; cbn [fold_left fst snd].
  - now rewrite app_nil_r.
  - cbn [JS.keys map fst] in Hnd, Hp. inversion Hp as [|? ? Hk Hr]; subst.
    rewrite set_plain.
    + rewrite IH.
      * now rewrite <- app_assoc.
      * unfold JS.keys in *. rewrite map_app, <- app_assoc. exact Hnd.
      * exact Hr.
    + exact Hk.
    + apply NoDup_remove_2 in Hnd. intros Hin. apply Hnd.
      apply in_or_app. now left.
Qed.

Lemma stringFields_plain fields :
  plain_fields fields -> Validation.stringFields fields = fields.
Proof.
  intros [Hnd Hp]. unfold Validation.stringFields.
  now rewrite stringFields_loop.
Qed.

Lemma rest_of_plain body :
  plain_fields body -> plain_fields (Validation.rest_of body).
Proof.
  unfold plain_fields, Validation.rest_of.
  induction body as [|[k v] r IH]; cbn [filter JS.keys map fst];
    intros [Hnd Hp]; [now split|].
  inversion Hnd as [|? ? Hk Hr]; subst. inversion Hp as [|? ? Hpk Hpr]; subst.
  destruct (IH (conj Hr Hpr)) as [IH1 IH2].
  destruct (negb (k =? "sign")%string); cbn [JS.keys map fst];
    [|now split].
  split; [|now constructor].
  constructor; [|exact IH1].
  intros Hin. apply Hk. unfold JS.keys in Hin.
  apply in_map_iff in Hin. destruct Hin as [[k' v'] [<- Hin]].
  apply filter_In in Hin. destruct Hin as [Hin _].
  apply (in_map fst) in Hin. exact Hin.
Qed.

Lemma validateSignature_next m body :
  Validation.validateSignature (Some m) body = Next tt <->
  JS.get body "sign"
  = Some (SignatureService.generateSignature
            (Validation.stringFields (Validation.rest_of body))
            (signatureSecret m)).
Proof.
  unfold Validation.validateSignature.
  destruct (JS.get body "sign") as [sign|]; [|split; discriminate].
  destruct (String.eqb_spec sign "") as [->|Hne].
  - split; [discriminate|]. intros H. injection H as H1.
    pose proof (digest_nonempty
      (SignatureService.signatureString
         (Validation.stringFields (Validation.rest_of body))
         (signatureSecret m))) as Hd.
    unfold SignatureService.generateSignature in H1.
    rewrite <- H1 in Hd. discriminate.
  - unfold SignatureService.verifySignature.
    destruct (String.eqb_spec
                (SignatureService.generateSignature
                   (Validation.stringFields (Validation.rest_of body))
                   (signatureSecret m)) sign) as [<-|Hd].
    + split; reflexivity.
    + split; [discriminate|]. intros H. injection H as H1. congruence.
Qed.

Lemma validateSignature_refused m body e :
  Validation.validateSignature m body = Refused e ->
  match m with
  | Some _ => statusCode e = 400
  | None => statusCode e = 401
  end.
Proof.
  unfold Validation.validateSignature, Validation.refuse.
  destruct m as [m|].
  - destruct (JS.get body "sign") as [sign|].
    + destruct (String.eqb sign "").
      * intros H; injection H as <-; reflexivity.
      * destruct (SignatureService.verifySignature _ _ _); [discriminate|].
        intros H; injection H as <-; reflexivity.
    + intros H; injection H as <-; reflexivity.
  - intros H; injection H as <-; reflexivity.
Qed.

(** X4: the signature middleware lets a request through exactly when
    its [sign] field is the signature, under the merchant's secret, of
    the other fields of the body; for a body of ordinary keys these
    are the other fields as sent.  Every other request is refused with
    status 400, and 401 is only given when no merchant is attached. *)
Theorem validateSignature_accepts_iff :
  (forall m body,
     Validation.validateSignature (Some m) body = Next tt <->
     JS.get body "sign"
     = Some (SignatureService.generateSignature
               (Validation.stringFields (Validation.rest_of body))
               (signatureSecret m)))
  /\ (forall body,
        plain_fields body ->
        Validation.stringFields (Validation.rest_of body)
        = Validation.rest_of body)
  /\ (forall m body e,
        Validation.validateSignature m body = Refused e ->
        (statusCode e = 401 <-> m = None)
        /\ (statusCode e = 400 <-> m <> None)).
Proof.
  split; [|split].
  - apply validateSignature_next.
  - intros body Hp. apply stringFields_plain, rest_of_plain, Hp.
  - intros m body e H. apply validateSignature_refused in H.
    destruct m as [m|]; rewrite H; split; split;
      try discriminate; try congruence; try reflexivity.
Qed.

Lemma validateSignature_accepts_iff_witness :
  Validation.stringFields
    (Validation.rest_of [("merchant_reference", "ORDER-1"); ("sign", "00")])
  = [("merchant_reference", "ORDER-1")].
Proof.
  destruct validateSignature_accepts_iff as (_ & Hplain & _).
  apply (Hplain [("merchant_reference", "ORDER-1"); ("sign", "00")]).
  split.
  - repeat constructor; simpl; intuition discriminate.
  - repeat constructor; discriminate.
Defined.

(** ** The callback as the merchant receives it *)

Lemma lower_hex_not_escaped c :
  lower_hex c = true -> QueryString.escape_char c = String c "".
Proof.
  destruct c as [[] [] [] [] [] [] [] []]; vm_compute;
    first [reflexivity | discriminate].
Qed.

Lemma escape_lower_hex s :
  all_lower_hex s = true -> QueryString.escape s = s.
Proof.
  induction s as [|c r IH]; cbn [all_lower_hex QueryString.escape];
    [reflexivity|].
  intros H. apply andb_true_iff in H. destruct H as [Hc Hr].
  now rewrite lower_hex_not_escaped, IH.
Qed.

Lemma callback_fields_in_order a c mr rr st sig :
  let fields :=
    [ ("amount", a); ("currency", c); ("merchant_reference", mr);
      ("request_reference", rr); ("status", st) ] in
  JS.get (fields ++ [("sign", sig)])%list "sign" = Some sig
  /\ Validation.rest_of (fields ++ [("sign", sig)])%list = fields
  /\ Validation.stringFields fields = fields
  /\ SignatureService.sortFields fields = fields.
Proof.
  repeat split; reflexivity.
Qed.

(** X5: the body of a callback is the string that was signed, without
    the secret, followed by [&sign=] and the signature; and the payload
    passes the server's own signature check under the merchant's
    secret, so a merchant can verify a callback by the procedure it
    uses to sign a request. *)
Theorem callback_payload_verifies :
  forall tx m,
    let payload :=
      CallbackService.buildCallbackPayload tx (signatureSecret m) in
    let fields := Validation.rest_of payload in
    JS.keys payload
    = ["amount"; "currency"; "merchant_reference"; "request_reference";
       "status"; "sign"]
    /\ QueryString.stringify payload
       = SignatureService.sortAndBuildQuery fields ++ "&sign="
         ++ SignatureService.generateSignature fields (signatureSecret m)
    /\ SignatureService.verifySignature fields (value_of payload "sign")
         (signatureSecret m) = true
    /\ Validation.validateSignature (Some m) payload = Next tt.
Proof.
  intros tx m payload fields. subst fields payload.
  unfold CallbackService.buildCallbackPayload.
  set (a := Decimal.toFixed (amount tx) 2).
  set (st := status_code (status tx)).
  destruct (callback_fields_in_order a (currency tx) (merchantReference tx)
              (requestReference tx) st
              (SignatureService.generateSignature
                 [ ("amount", a); ("currency", currency tx);
                   ("merchant_reference", merchantReference tx);
                   ("request_reference", requestReference tx); ("status", st) ]
                 (signatureSecret m)))
    as (Hget & Hrest & Hsf & Hsort).
  cbv zeta in Hget, Hrest, Hsf, Hsort.
  set (fs := [ ("amount", a); ("currency", currency tx);
               ("merchant_reference", merchantReference tx);
               ("request_reference", requestReference tx); ("status", st) ]) in *.
  set (sig := SignatureService.generateSignature fs (signatureSecret m)) in *.
  rewrite Hrest.
  split; [reflexivity|]. split; [|split].
  - unfold SignatureService.sortAndBuildQuery. rewrite Hsort.
    rewrite !stringify_join. unfold fs at 1 2.
    cbn [app]. rewrite !join_following.
    change [("currency", currency tx);
            ("merchant_reference", merchantReference tx);
            ("request_reference", requestReference tx); ("status", st);
            ("sign", sig)]
      with ([("currency", currency tx);
             ("merchant_reference", merchantReference tx);
             ("request_reference", requestReference tx); ("status", st)]
            ++ [("sign", sig)])%list.
    rewrite following_app, append_assoc. do 2 f_equal.
    cbn [following]. unfold SignSpec.pair_string. cbn [fst snd].
    rewrite append_nil_r.
    rewrite (escape_lower_hex sig)
      by (apply (hexdigest_shape (SignatureService.signatureString fs (signatureSecret m)))).
    reflexivity.
  - unfold value_of. rewrite Hget. unfold SignatureService.verifySignature.
    apply String.eqb_refl.
  - unfold Validation.validateSignature. rewrite Hget, Hrest, Hsf.
    unfold sig at 1. unfold SignatureService.generateSignature at 1.
    rewrite digest_nonempty.
    unfold SignatureService.verifySignature. fold sig.
    now rewrite String.eqb_refl.
Qed.

(** ** Status updates *)

Lemma find_update_other (p q : Transaction -> bool) f l : forall l',
  Db.update p f l = Some l' ->
  (forall x, q (f x) = q x) ->
  (forall x, p x = true -> q x = false) ->
  Db.find q l' = Db.find q l.
Proof.
  induction l as [|x r IH]; intros l' Hu Hq Hpq; cbn [Db.update] in Hu;
    [discriminate|].
  destruct (p x) eqn:Ep.
  - injection Hu as <-. cbn [Db.find]. now rewrite Hq, (Hpq x Ep).
  - destruct (Db.update p f r) as [r'|] eqn:Er; [|discriminate].
    injection Hu as <-. cbn [Db.find].
    destruct (q x); [reflexivity|]. now apply IH.
Qed.

Lemma update_keeps (A : Type) (g : Transaction -> A) p f l : forall l',
  Db.update p f l = Some l' ->
  (forall x, g (f x) = g x) ->
  map g l' = map g l.
Proof.
  induction l as [|x r IH]; intros l' Hu Hg; cbn [Db.update] in Hu;
    [discriminate|].
  destruct (p x).
  - injection Hu as <-. cbn [map]. now rewrite Hg.
  - destruct (Db.update p f r) as [r'|] eqn:Er; [|discriminate].
    injection Hu as <-. cbn [map]. f_equal. now apply IH.
Qed.

Lemma find_in {A} (p : A -> bool) l x : Db.find p l = Some x -> In x l.
Proof.
  induction l as [|y r IH]; cbn [Db.find]; [discriminate|].
  destruct (p y); [intros H; injection H as <-; now left | right; now apply IH].
Qed.

Lemma find_none {A} (p : A -> bool) l :
  (forall x, In x l -> p x = false) -> Db.find p l = None.
Proof.
  induction l as [|y r IH]; intros H; cbn [Db.find]; [reflexivity|].
  rewrite (H y (or_introl eq_refl)). apply IH. intros x Hx. apply H. now right.
Qed.

Lemma find_app {A} (p : A -> bool) l l2 :
  Db.find p (l ++ l2)
  = match Db.find p l with Some x => Some x | None => Db.find p l2 end.
Proof.
  induction l as [|y r IH]; cbn [Db.find app]; [reflexivity|].
  destruct (p y); [reflexivity | exact IH].
Qed.

Lemma update_split (p : Transaction -> bool) f l : forall l',
  Db.update p f l = Some l' ->
  exists pre x post,
    l = (pre ++ x :: post)%list /\ l' = (pre ++ f x :: post)%list
    /\ Forall (fun y => p y = false) pre /\ p x = true.
Proof.
  induction l as [|y r IH]; intros l' Hu; cbn [Db.update] in Hu; [discriminate|].
  destruct (p y) eqn:Ep.
  - injection Hu as <-. exists [], y, r. repeat split; [constructor | exact Ep].
  - destruct (Db.update p f r) as [r'|] eqn:Er; [|discriminate].
    injection Hu as <-.
    destruct (IH r' eq_refl) as (pre & x & post & -> & -> & Hpre & Hx).
    exists (y :: pre), x, post. repeat split; [now constructor | exact Hx].
Qed.

(** X6: [updateTransactionStatus] fails when no row has the request
    reference.  Otherwise it changes one row, the first with that
    reference, and in it the status and the completion time only: the
    status becomes the one given; the completion time becomes the one
    given, else the current time for SUCCESS and FAIL, else null (so an
    update to PENDING or PROCESSING erases a completion time that was
    set); the fourteen other columns of the row, the rows before and
    after it, and the rest of the state stay as they were. *)
Theorem updateTransactionStatus_writes_one_row :
  forall w requestRef s completed,
    (PaymentService.getTransactionByRequestReference w requestRef = None ->
     PaymentService.updateTransactionStatus w requestRef s completed = None)
    /\ (forall tx,
          PaymentService.getTransactionByRequestReference w requestRef = Some tx ->
          exists w1 pre post row',
            PaymentService.updateTransactionStatus w requestRef s completed
            = Some w1
            /\ transactions w = (pre ++ tx :: post)%list
            /\ transactions w1 = (pre ++ row' :: post)%list
            /\ Forall (fun r => requestReference r <> requestRef) pre
            /\ status row' = s
            /\ completedTime row'
               = match completed with
                 | Some t => Some t
                 | None =>
                     match s with
                     | SUCCESS | FAIL => Some (clock w)
                     | PENDING | PROCESSING => None
                     end
                 end
            /\ kept_columns row' = kept_columns tx
            /\ PaymentService.getTransactionByRequestReference w1 requestRef
               = Some row'
            /\ timers w1 = timers w /\ trace w1 = trace w
            /\ clock w1 = clock w /\ merchants w1 = merchants w
            /\ scenarioConfig w1 = scenarioConfig w /\ payment w1 = payment w
            /\ serial w1 = serial w).
Proof.
  intros w requestRef s completed. split.
  - unfold PaymentService.getTransactionByRequestReference,
      PaymentService.updateTransactionStatus.
    intros H. now rewrite update_undefined.
  - intros tx Htx.
    destruct (update_status_defined w requestRef s completed tx Htx) as [w1 Hw1].
    pose proof (updated_row w w1 requestRef s completed Hw1) as Hrow.
    rewrite Htx in Hrow. cbn [option_map] in Hrow.
    revert Hw1 Hrow. unfold PaymentService.updateTransactionStatus.
    fold (stamped w s completed).
    destruct (Db.update _ _ (transactions w)) as [l|] eqn:Hu; [|discriminate].
    intros Hw1 Hrow. injection Hw1 as <-.
    destruct (update_split _ _ _ _ Hu) as (pre & x & post & Hl & Hl' & Hpre & Hx).
    assert (Ex : x = tx).
    { unfold PaymentService.getTransactionByRequestReference in Htx.
      rewrite Hl, find_app, find_none in Htx.
      - cbn [Db.find] in Htx. rewrite Hx in Htx. now injection Htx.
      - intros y Hy. rewrite Forall_forall in Hpre. now apply Hpre. }
    subst x.
    exists (set_transactions w l), pre, post,
      (PaymentService.with_status s (stamped w s completed) tx).
    cbn [transactions set_transactions timers trace clock merchants
         scenarioConfig payment serial].
    split; [reflexivity|]. split; [exact Hl|]. split; [exact Hl'|].
    split.
    { eapply Forall_impl; [|exact Hpre]. intros y Hy.
      unfold Db.by_requestReference in Hy. now apply String.eqb_neq. }
    split; [reflexivity|]. split.
    { cbn [completedTime PaymentService.with_status]. unfold stamped.
      destruct completed; [reflexivity|]. destruct s; reflexivity. }
    split; [reflexivity|]. split; [exact Hrow|].
    repeat split.
Qed.

Lemma updateTransactionStatus_writes_one_row_witness :
  exists w1 row',
    PaymentService.updateTransactionStatus Sample.completed_ "req-1" PROCESSING None
    = Some w1
    /\ option_map (fun r => (status r, completedTime r))
         (PaymentService.getTransactionByRequestReference Sample.completed_ "req-1")
       = Some (SUCCESS, Some 1640000003000)
    /\ transactions w1 = [row']
    /\ status row' = PROCESSING /\ completedTime row' = None
    /\ amount row' = {| Decimal.coefficient := 10000; Decimal.places := 2 |}.
Proof.
  destruct (PaymentService.getTransactionByRequestReference Sample.completed_ "req-1")
    as [tx|] eqn:Htx; [|exfalso; vm_compute in Htx; discriminate].
  assert (Hc : (status tx, completedTime tx) = (SUCCESS, Some 1640000003000)
               /\ amount tx = {| Decimal.coefficient := 10000; Decimal.places := 2 |}
               /\ transactions Sample.completed_ = [tx]).
  { vm_compute in Htx. injection Htx as <-. repeat split. }
  destruct Hc as (Hc & Ha & Hrows).
  destruct (updateTransactionStatus_writes_one_row Sample.completed_ "req-1"
              PROCESSING None) as [_ Hsome].
  destruct (Hsome tx Htx)
    as (w1 & pre & post & row' & Hw1 & Hl & Hl' & _ & Hs & Hct & Hk & _).
  rewrite Hrows in Hl.
  assert (Hpp : pre = [] /\ post = []).
  { destruct pre as [|y [|z pre]]; cbn in Hl.
    - injection Hl as <-. now split.
    - discriminate.
    - discriminate. }
  destruct Hpp as [-> ->]. cbn [app] in Hl'.
  exists w1, row'. split; [exact Hw1|].
  split; [cbn [option_map]; now rewrite Hc|].
  split; [exact Hl'|]. split; [exact Hs|]. split; [exact Hct|].
  rewrite <- Ha. unfold kept_columns in Hk. now injection Hk.
Defined.

(** ** Amounts *)

Lemma span_digits_spec s :
  s = fst (Validation.span_digits s) ++ snd (Validation.span_digits s)
  /\ Str.all_digits (fst (Validation.span_digits s)) = true
  /\ match snd (Validation.span_digits s) with
     | EmptyString => True
     | String c _ => Str.is_digit c = false
     end.
Proof.
  induction s as [|c r IH]; cbn [Validation.span_digits].
  - repeat split.
  - destruct (Str.is_digit c) eqn:Ec.
    + destruct (Validation.span_digits r) as [d rest].
      cbn [fst snd] in *. destruct IH as (IH1 & IH2 & IH3).
      cbn [append Str.all_digits]. rewrite Ec, IH2.
      split; [now f_equal | split; [reflexivity | exact IH3]].
    + cbn [fst snd append Str.all_digits]. repeat split. exact Ec.
Qed.

Lemma amount_pattern_shape a :
  Validation.amount_pattern a = true ->
  exists whole d1 d2,
    a = whole ++ String "." (String d1 (String d2 ""))
    /\ Str.all_digits whole = true /\ whole <> ""
    /\ Str.is_digit d1 = true /\ Str.is_digit d2 = true.
Proof.
  unfold Validation.amount_pattern.
  destruct (span_digits_spec a) as (Ha & Hd & _).
  destruct (Validation.span_digits a) as [whole rest]. cbn [fst snd] in *.
  intros H. apply andb_true_iff in H. destruct H as [Hw Hrest].
  destruct rest as [|p [|d1 [|d2 [|? ?]]]]; try discriminate.
  apply andb_true_iff in Hrest. destruct Hrest as [Hrest H2].
  apply andb_true_iff in Hrest. destruct Hrest as [Hp H1].
  apply Ascii.eqb_eq in Hp. subst p.
  exists whole, d1, d2. repeat split; try assumption.
  intros ->. discriminate.
Qed.

Lemma parse_accepted whole d1 d2 :
  Str.all_digits whole = true -> whole <> "" ->
  Str.is_digit d1 = true -> Str.is_digit d2 = true ->
  Decimal.parse (whole ++ String "." (String d1 (String d2 "")))
  = Some {| Decimal.coefficient :=
              100 * Str.digits_value 0 whole
              + (10 * (Str.code d1 - 48) + (Str.code d2 - 48));
            Decimal.places := 2 |}.
Proof.
  intros Hdig Hne Hd1 Hd2.
  unfold Decimal.parse. rewrite split_dot_digits by assumption.
  cbn [append]. rewrite Hdig.
  replace (whole =? "")%string with false
    by (symmetry; now apply String.eqb_neq).
  cbn [Str.all_digits]. rewrite Hd1, Hd2. cbn [andb negb String.eqb].
  rewrite digits_value_app. cbn [Str.digits_value String.length].
  do 2 f_equal. lia.
Qed.

Lemma amount_pattern_parses a :
  Validation.amount_pattern a = true -> exists d, Decimal.parse a = Some d.
Proof.
  intros Ha.
  destruct (amount_pattern_shape a Ha)
    as (whole & d1 & d2 & -> & Hdig & Hne & Hd1 & Hd2).
  eexists. now apply parse_accepted.
Qed.

(** X7: a request whose amount the schema accepts ([digits.dd]) is
    always stored by [createTransaction], as a decimal with two places
    and the value written.  The callback payload of that row, and of
    the row in any later state of it, reports the amount with its whole
    part in canonical form (superfluous leading zeros dropped) and the
    same two decimals, the query with four zeros more; and the check
    for the Atome minimum refuses exactly the amounts whose whole part
    is below 30. *)
Theorem accepted_amount_is_stored :
  forall w data merchantId_ secret,
    Validation.amount_pattern (req_amount data) = true ->
    exists whole d1 d2 tx w',
      req_amount data = whole ++ String "." (String d1 (String d2 ""))
      /\ PaymentService.createTransaction w data merchantId_ = Some (tx, w')
      /\ transactions w' = (transactions w ++ [tx])%list
      /\ amount tx
         = {| Decimal.coefficient :=
                100 * Str.digits_value 0 whole
                + (10 * (Str.code d1 - 48) + (Str.code d2 - 48));
              Decimal.places := 2 |}
      /\ (forall row,
            amount row = amount tx ->
            JS.get (CallbackService.buildCallbackPayload row secret) "amount"
            = Some (Str.of_Z (Str.digits_value 0 whole)
                    ++ String "." (String d1 (String d2 "")))
            /\ q_amount (PaymentService.toQuery row)
               = Str.of_Z (Str.digits_value 0 whole)
                 ++ String "." (String d1 (String d2 "0000")))
      /\ Validation.below_thirty (req_amount data)
         = (Str.digits_value 0 whole <? 30).
Proof.
  intros w data mid secret Ha.
  destruct (amount_pattern_shape _ Ha)
    as (whole & d1 & d2 & Hshape & Hdig & Hne & Hd1 & Hd2).
  pose proof (digit_value_bounds d1 Hd1) as B1.
  pose proof (digit_value_bounds d2 Hd2) as B2.
  pose proof (digits_value_nonneg whole 0 Hdig ltac:(lia)) as HV.
  destruct (toFixed_two_decimals (Str.digits_value 0 whole)
              (Str.code d1 - 48) (Str.code d2 - 48) HV B1 B2) as [T2 T6].
  rewrite !digit_char_value in T2, T6.
  pose proof (parse_accepted whole d1 d2 Hdig Hne Hd1 Hd2) as Hparse.
  rewrite <- Hshape in Hparse.
  exists whole, d1, d2.
  unfold PaymentService.createTransaction. rewrite Hparse. cbv zeta.
  eexists. eexists. split; [exact Hshape|]. split; [reflexivity|].
  cbn [transactions bump_serial set_transactions amount].
  split; [reflexivity|]. split; [reflexivity|]. split.
  - intros row Hrow. unfold CallbackService.buildCallbackPayload,
      PaymentService.toQuery. cbn [q_amount JS.get app].
    rewrite Hrow. cbn [String.eqb Ascii.eqb Bool.eqb].
    rewrite T2, T6. split; reflexivity.
  - unfold Validation.below_thirty. rewrite Hparse.
    cbn [Decimal.places Decimal.coefficient].
    change (10 ^ Z.of_nat 2) with 100.
    destruct (Z.ltb_spec (Str.digits_value 0 whole) 30);
      [apply Z.ltb_lt | apply Z.ltb_ge]; lia.
Qed.

Lemma accepted_amount_is_stored_witness :
  exists tx w',
    PaymentService.createTransaction Sample.w0 Sample.body_padded "m1"
    = Some (tx, w')
    /\ req_amount Sample.body_padded = "007.50"
    /\ JS.get (CallbackService.buildCallbackPayload tx "127f7830") "amount"
       = Some "7.50"
    /\ Validation.below_thirty "007.50" = true.
Proof.
  destruct (accepted_amount_is_stored Sample.w0 Sample.body_padded "m1"
              "127f7830" eq_refl)
    as (whole & d1 & d2 & tx & w' & Hshape & Hrun & _ & _ & Hrep & Hb).
  assert (Hw : whole = "007" /\ d1 = "5"%char /\ d2 = "0"%char).
  { change (req_amount Sample.body_padded) with "007.50" in Hshape.
    destruct whole as [|c0 [|c1 [|c2 [|c3 [|c4 [|c5 r]]]]]];
      cbn [append] in Hshape; try discriminate.
    - injection Hshape as <- <- <- <- <-. repeat split.
    - exfalso. destruct r; cbn [append] in Hshape; discriminate. }
  destruct Hw as (-> & -> & ->).
  exists tx, w'. split; [exact Hrun|]. split; [reflexivity|].
  split; [exact (proj1 (Hrep tx eq_refl)) | exact Hb].
Defined.

(** ** What the validation lets through *)

Lemma required_field body k p :
  Validation.required body k p = true ->
  JS.get body k = Some (Validation.field body k)
  /\ p (Validation.field body k) = true.
Proof.
  unfold Validation.required, Validation.field.
  destruct (JS.get body k); [now split | discriminate].
Qed.

Lemma one_of_in l s : Validation.one_of l s = true -> In s l.
Proof.
  unfold Validation.one_of. intros H. apply existsb_exists in H.
  destruct H as (x & Hin & Hx). apply String.eqb_eq in Hx. now subst.
Qed.

Lemma present_field body k :
  Validation.missing body k = false ->
  JS.get body k = Some (Validation.field body k)
  /\ Validation.field body k <> "".
Proof.
  unfold Validation.missing, Validation.field.
  destruct (JS.get body k) as [v|]; [|discriminate].
  intros H. split; [reflexivity|]. now apply String.eqb_neq.
Qed.

Lemma validatePaymentRequest_schema isEmail isUrl body r :
  Validation.validatePaymentRequest isEmail isUrl body = Next r ->
  Validation.paymentRequestSchema isEmail isUrl body = true.
Proof.
  unfold Validation.validatePaymentRequest.
  destruct (Validation.paymentRequestSchema isEmail isUrl body);
    [reflexivity | discriminate].
Qed.

Lemma schema_fields isEmail isUrl body :
  Validation.paymentRequestSchema isEmail isUrl body = true ->
  Validation.required body "currency" (Validation.one_of ["HKD"; "USD"; "CNY"])
  = true
  /\ Validation.required body "amount" Validation.amount_pattern = true
  /\ Validation.required body "network"
       (Validation.one_of ["Alipay"; "Wechat"; "CUP"; "CreditCard"; "Atome"])
     = true
  /\ Validation.required body "notify_url"
       (fun s => isUrl s && Validation.max 255 s) = true
  /\ Validation.optional body "customer_country" (Validation.length_is 2) = true
  /\ Validation.required body "sign" (Validation.length_is 128) = true.
Proof.
  unfold Validation.paymentRequestSchema. rewrite !andb_true_iff. tauto.
Qed.

(** X8: what a payment request that passes [validatePaymentRequest]
    looks like.  Its amount is [digits.dd], its network and currency
    are among those listed, and the currency is HKD unless the network
    is CreditCard; for CreditCard and Atome the address, the country
    (two characters) and the postal code are there and not empty; for
    Atome the amount is at least 30; the signature has 128 characters.
    Every refusal carries status 400. *)
Theorem validatePaymentRequest_accepts_only :
  forall isEmail isUrl body,
    (Validation.validatePaymentRequest isEmail isUrl body = Next tt ->
     let network := Validation.field body "network" in
     let currency := Validation.field body "currency" in
     Validation.amount_pattern (Validation.field body "amount") = true
     /\ In network ["Alipay"; "Wechat"; "CUP"; "CreditCard"; "Atome"]
     /\ In currency ["HKD"; "USD"; "CNY"]
     /\ (network <> "CreditCard" -> currency = "HKD")
     /\ (network = "CreditCard" \/ network = "Atome" ->
         Validation.field body "customer_address" <> ""
         /\ String.length (Validation.field body "customer_country") = 2%nat
         /\ Validation.field body "customer_postal_code" <> "")
     /\ (network = "Atome" ->
         Validation.below_thirty (Validation.field body "amount") = false)
     /\ isUrl (Validation.field body "notify_url") = true
     /\ String.length (Validation.field body "sign") = 128%nat)
    /\ (forall e,
          Validation.validatePaymentRequest isEmail isUrl body = Refused e ->
          statusCode e = 400).
Proof.
  intros isEmail isUrl body. split.
  - intros Hv network currency.
    pose proof (validatePaymentRequest_schema _ _ _ _ Hv) as Hs.
    revert Hv. unfold Validation.validatePaymentRequest. rewrite Hs.
    cbn [negb]. fold network. fold currency.
    destruct (schema_fields _ _ _ Hs) as (S14 & S13 & S7 & S5 & S1 & S).
    destruct (required_field _ _ _ S13) as [_ Hamount].
    destruct (required_field _ _ _ S14) as [_ Hcur].
    destruct (required_field _ _ _ S7) as [_ Hnet].
    destruct (required_field _ _ _ S5) as [_ Hurl].
    destruct (required_field _ _ _ S) as [_ Hsign].
    apply one_of_in in Hcur, Hnet. fold network in Hnet. fold currency in Hcur.
    apply andb_true_iff in Hurl. destruct Hurl as [Hurl _].
    apply Nat.eqb_eq in Hsign.
    destruct ((network =? "CreditCard")%string || (network =? "Atome")%string)
      eqn:Ecard.
    + destruct (Validation.missing body "customer_address") eqn:Ma;
        [discriminate|].
      destruct (Validation.missing body "customer_country") eqn:Mc;
        [discriminate|].
      destruct (Validation.missing body "customer_postal_code") eqn:Mp;
        [discriminate|].
      cbn [orb andb].
      destruct ((network =? "Atome")%string
                && Validation.below_thirty (Validation.field body "amount"))
        eqn:Eatome; [discriminate|].
      destruct (negb (network =? "CreditCard")%string
                && negb (currency =? "HKD")%string) eqn:Ehkd; [discriminate|].
      intros _.
      destruct (present_field _ _ Ma) as [_ Hadr].
      destruct (present_field _ _ Mc) as [Gc _].
      destruct (present_field _ _ Mp) as [_ Hpc].
      unfold Validation.optional in S1. rewrite Gc in S1.
      apply Nat.eqb_eq in S1.
      repeat split; try assumption.
      * intros Hn. apply String.eqb_neq in Hn. rewrite Hn in Ehkd.
        cbn [negb andb] in Ehkd. apply negb_false_iff in Ehkd.
        now apply String.eqb_eq.
      * intros Hn. apply String.eqb_eq in Hn. rewrite Hn in Eatome.
        exact Eatome.
    + apply orb_false_iff in Ecard. destruct Ecard as [Ec Ea].
      rewrite Ea. cbn [andb]. rewrite Ec. cbn [negb andb].
      destruct (negb (currency =? "HKD")%string) eqn:Ehkd; [discriminate|].
      intros _. apply negb_false_iff in Ehkd. apply String.eqb_eq in Ehkd.
      apply String.eqb_neq in Ec, Ea.
      repeat split; intros; try assumption; try contradiction;
        match goal with H : _ \/ _ |- _ => destruct H; contradiction end.
  - intros e. unfold Validation.validatePaymentRequest, Validation.refuse.
    repeat match goal with
           | |- (if ?c then _ else _) = _ -> _ => destruct c
           end;
      intros H; try discriminate; injection H as <-; reflexivity.
Qed.

Lemma validatePaymentRequest_accepts_only_witness :
  Validation.validatePaymentRequest Requests.well_formed Requests.well_formed
    Requests.page_body = Next tt
  /\ Validation.amount_pattern (Validation.field Requests.page_body "amount")
     = true
  /\ String.length (Validation.field Requests.page_body "sign") = 128%nat.
Proof.
  assert (H : Validation.validatePaymentRequest Requests.well_formed
                Requests.well_formed Requests.page_body = Next tt)
    by (vm_compute; reflexivity).
  destruct (validatePaymentRequest_accepts_only Requests.well_formed
              Requests.well_formed Requests.page_body) as [Hacc _].
  destruct (Hacc H) as (Ha & _ & _ & _ & _ & _ & _ & Hs).
  split; [exact H|]. split; [exact Ha | exact Hs].
Defined.

(** ** The two public routes *)

Lemma validateMerchant_next w token m :
  Validation.validateMerchant w token = Next m ->
  token <> ""
  /\ Db.find (fun m => String.eqb (merchantToken m) token) (merchants w) = Some m
  /\ merchantToken m = token /\ active m = true.
Proof.
  unfold Validation.validateMerchant, Validation.refuse.
  destruct (String.eqb_spec token "") as [->|Hne]; [discriminate|].
  destruct (Db.find _ (merchants w)) as [m'|] eqn:Hf; [|discriminate].
  destruct (active m') eqn:Ha; [|discriminate].
  intros H; injection H as <-.
  repeat split; try assumption.
  apply find_holds in Hf. now apply String.eqb_eq.
Qed.

Lemma validateMerchant_refused w token e :
  Validation.validateMerchant w token = Refused e ->
  In (statusCode e) [400; 403; 404].
Proof.
  unfold Validation.validateMerchant, Validation.refuse.
  destruct (String.eqb token "").
  - intros H; injection H as <-. cbn. tauto.
  - destruct (Db.find _ (merchants w)) as [m'|].
    + destruct (active m'); [discriminate|].
      intros H; injection H as <-. cbn. tauto.
    + intros H; injection H as <-. cbn. tauto.
Qed.

Lemma validatePaymentRequest_refused isEmail isUrl body e :
  Validation.validatePaymentRequest isEmail isUrl body = Refused e ->
  statusCode e = 400.
Proof.
  unfold Validation.validatePaymentRequest, Validation.refuse.
  repeat match goal with
         | |- (if ?c then _ else _) = _ -> _ => destruct c
         end;
    intros H; try discriminate; injection H as <-; reflexivity.
Qed.

(** X9: the payment page route.  A request that is refused leaves the
    state as it was, with status 400, 403 or 404, never 401.  A request
    that passes the three checks is always stored (the route never
    answers 'Failed to create transaction'): one row is added, PENDING,
    for the merchant of the token, with no callback sent and no
    completion time, and one timer is set, with the processing delay of
    the configuration, that carries the amount and network of the
    request and the token. *)
Theorem paymentPage_outcomes :
  forall isEmail isUrl w token body,
    (forall e w',
       Routes.paymentPage isEmail isUrl w token body = (PageRefused e, w') ->
       w' = w /\ In (statusCode e) [400; 403; 404])
    /\ (forall w',
          Routes.paymentPage isEmail isUrl w token body <> (PageFailed, w'))
    /\ (forall tx w',
          Routes.paymentPage isEmail isUrl w token body = (PageAccepted tx, w') ->
          exists m,
            Db.find (fun m => String.eqb (merchantToken m) token) (merchants w)
            = Some m
            /\ active m = true
            /\ Validation.validatePaymentRequest isEmail isUrl body = Next tt
            /\ JS.get body "sign"
               = Some (SignatureService.generateSignature
                         (Validation.stringFields (Validation.rest_of body))
                         (signatureSecret m))
            /\ transactions w' = (transactions w ++ [tx])%list
            /\ status tx = PENDING
            /\ merchantId tx = m_id m
            /\ merchantReference tx = Validation.field body "merchant_reference"
            /\ Decimal.parse (Validation.field body "amount") = Some (amount tx)
            /\ callbackSent tx = false /\ callbackAttempts tx = 0
            /\ completedTime tx = None /\ createdTime tx = clock w
            /\ timers w'
               = (timers w
                  ++ [ {| requested := cfg_processingDelay (payment w);
                          due := clock w
                                 + effective_delay (cfg_processingDelay (payment w));
                          task := ToProcessing (requestReference tx) (id tx)
                                    (Validation.field body "amount")
                                    (Validation.field body "network") token |} ])%list
            /\ trace w' = trace w /\ clock w' = clock w).
Proof.
  intros isEmail isUrl w token body. unfold Routes.paymentPage.
  destruct (Validation.validateMerchant w token) as [m|e0] eqn:Hm.
  2:{ split; [|split]; intros; try discriminate.
      match goal with H : _ = _ |- _ => injection H as <- <- end.
      split; [reflexivity | now apply validateMerchant_refused in Hm]. }
  destruct (Validation.validatePaymentRequest isEmail isUrl body) as [[]|e0] eqn:Hp.
  2:{ split; [|split]; intros; try discriminate.
      match goal with H : _ = _ |- _ => injection H as <- <- end.
      split; [reflexivity|].
      apply validatePaymentRequest_refused in Hp. rewrite Hp. cbn. tauto. }
  destruct (Validation.validateSignature (Some m) body) as [[]|e0] eqn:Hs.
  2:{ split; [|split]; intros; try discriminate.
      match goal with H : _ = _ |- _ => injection H as <- <- end.
      split; [reflexivity|].
      apply validateSignature_refused in Hs. rewrite Hs. cbn. tauto. }
  assert (Hamount : Validation.amount_pattern (Validation.field body "amount") = true).
  { pose proof (validatePaymentRequest_schema _ _ _ _ Hp) as S.
    destruct (schema_fields _ _ _ S) as (_ & S13 & _).
    now destruct (required_field _ _ _ S13). }
  destruct (amount_pattern_parses _ Hamount) as [d Hd].
  unfold PaymentPage.handler, PaymentService.createTransaction.
  cbn [Routes.paymentRequest req_amount]. rewrite Hd.
  split; [|split]; intros; try discriminate.
  match goal with H : _ = _ |- _ => injection H as <- <- end.
  destruct (validateMerchant_next _ _ _ Hm) as (_ & Hfind & Htok & Hact).
  exists m. cbn. rewrite Htok.
  repeat split; try assumption; try reflexivity.
  now apply validateSignature_next.
Qed.

Lemma paymentPage_outcomes_witness :
  exists tx w',
    Routes.paymentPage Requests.well_formed Requests.well_formed Sample.w0
      "ae476881" Requests.page_body = (PageAccepted tx, w')
    /\ transactions w' = [tx] /\ status tx = PENDING
    /\ map requested (timers w') = [1000].
Proof.
  destruct (Routes.paymentPage Requests.well_formed Requests.well_formed
              Sample.w0 "ae476881" Requests.page_body)
    as [[e | | tx] w'] eqn:H.
  - exfalso. vm_compute in H. discriminate.
  - exfalso. vm_compute in H. discriminate.
  - destruct (paymentPage_outcomes Requests.well_formed Requests.well_formed
                Sample.w0 "ae476881" Requests.page_body) as (_ & _ & Hacc).
    destruct (Hacc tx w' H)
      as (m & _ & _ & _ & _ & Hrows & Hst & _ & _ & _ & _ & _ & _ & _ & Ht & _).
    exists tx, w'. split; [reflexivity|]. split; [exact Hrows|].
    split; [exact Hst|]. rewrite Ht. reflexivity.
Defined.

(** X10: the query route.  It refuses with status 400, 403 or 404; when
    it answers, the token is that of an active merchant, the signature
    is that merchant's over the other fields, and the answer lists the
    transactions that carry the merchant reference whichever merchant
    created them: the rows are not filtered by the merchant of the
    token. *)
Theorem paymentQuery_outcomes :
  forall w token body,
    (forall e,
       Routes.paymentQuery w token body = QueryRefused e ->
       In (statusCode e) [400; 403; 404])
    /\ (forall records,
          Routes.paymentQuery w token body = QueryResult records ->
          let reference := Validation.field body "merchant_reference" in
          exists m,
            Db.find (fun m => String.eqb (merchantToken m) token) (merchants w)
            = Some m
            /\ active m = true
            /\ JS.get body "sign"
               = Some (SignatureService.generateSignature
                         (Validation.stringFields (Validation.rest_of body))
                         (signatureSecret m))
            /\ (String.length reference <= 36)%nat
            /\ records
               = PaymentService.getTransactionsByMerchantReference w reference
            /\ (forall tx,
                  In tx (transactions w) ->
                  merchantReference tx = reference ->
                  In (PaymentService.toQuery tx) records)
            /\ List.length records
               = List.length
                   (filter (fun tx => String.eqb (merchantReference tx) reference)
                           (transactions w))).
Proof.
  intros w token body. unfold Routes.paymentQuery.
  destruct (Validation.validateMerchant w token) as [m|e0] eqn:Hm.
  2:{ split; intros; try discriminate.
      match goal with H : _ = _ |- _ => injection H as <- end.
      now apply validateMerchant_refused in Hm. }
  unfold Validation.validateQueryRequest.
  destruct (Validation.queryRequestSchema body) eqn:Hq.
  2:{ split; intros; try discriminate.
      match goal with H : _ = _ |- _ => injection H as <- end. cbn. tauto. }
  destruct (Validation.validateSignature (Some m) body) as [[]|e0] eqn:Hs.
  2:{ split; intros; try discriminate.
      match goal with H : _ = _ |- _ => injection H as <- end.
      apply validateSignature_refused in Hs. rewrite Hs. cbn. tauto. }
  split; intros; try discriminate.
  match goal with H : _ = _ |- _ => injection H as <- end.
  destruct (validateMerchant_next _ _ _ Hm) as (_ & Hfind & Htok & Hact).
  exists m. split; [exact Hfind|]. split; [exact Hact|].
  split; [now apply validateSignature_next|].
  unfold Validation.queryRequestSchema in Hq.
  apply andb_true_iff in Hq. destruct Hq as [Hq _].
  apply required_field in Hq. destruct Hq as [_ Hq].
  apply Nat.leb_le in Hq.
  split; [exact Hq|]. split; [reflexivity|].
  unfold PaymentService.getTransactionsByMerchantReference. split.
  - intros tx Hin Href. apply in_map.
    eapply Permutation_in; [apply order_by_time_perm|].
    apply filter_In. split; [exact Hin|]. now apply String.eqb_eq.
  - rewrite length_map.
    apply Permutation_length, Permutation_sym, order_by_time_perm.
Qed.

Lemma paymentQuery_outcomes_witness :
  exists records,
    Routes.paymentQuery Sample.completed_ "ae476881" Requests.query_body
    = QueryResult records
    /\ List.length records = 1%nat.
Proof.
  destruct (Routes.paymentQuery Sample.completed_ "ae476881" Requests.query_body)
    as [e | records] eqn:H.
  - exfalso. vm_compute in H. discriminate.
  - destruct (paymentQuery_outcomes Sample.completed_ "ae476881"
                Requests.query_body) as (_ & Hres).
    destruct (Hres records H) as (m & _ & _ & _ & _ & _ & _ & Hlen).
    exists records. split; [reflexivity|]. rewrite Hlen. reflexivity.
Defined.

(** ** What a delivery touches *)

Lemma frame_refl n w : delivery_frame n w w.
Proof.
  unfold delivery_frame. repeat split; try reflexivity; try lia.
  exists []. rewrite app_nil_r. split; [reflexivity | cbn; lia].
Qed.

Lemma frame_trans a b w w1 w2 :
  delivery_frame a w w1 -> delivery_frame b w1 w2 ->
  delivery_frame (a + b) w w2.
Proof.
  intros (T1 & M1 & S1 & P1 & N1 & R1 & C1 & e1 & E1 & L1)
         (T2 & M2 & S2 & P2 & N2 & R2 & C2 & e2 & E2 & L2).
  unfold delivery_frame.
  repeat split; try congruence; try lia.
  exists (e1 ++ e2)%list. split.
  - rewrite E2, E1. now rewrite app_assoc.
  - rewrite posts_app. lia.
Qed.

Lemma frame_weaken a b w w' :
  (a <= b)%nat -> delivery_frame a w w' -> delivery_frame b w w'.
Proof.
  intros Hab (T1 & M1 & S1 & P1 & N1 & R1 & C1 & e1 & E1 & L1).
  unfold delivery_frame. repeat split; try assumption.
  exists e1. split; [assumption | lia].
Qed.

Lemma frame_post w u b : delivery_frame 1 w (log_event w (Posted u b)).
Proof.
  unfold delivery_frame. cbn. repeat split; try lia.
  exists [Posted u b]. split; [reflexivity | cbn; lia].
Qed.

Lemma frame_sleep w ms : 0 <= ms -> delivery_frame 0 w (CallbackService.sleep w ms).
Proof.
  intros Hms. unfold delivery_frame. cbn. repeat split; try lia.
  exists [Slept ms]. split; [reflexivity | cbn; lia].
Qed.

Lemma frame_tracking w i sent attempt w2 :
  CallbackService.update_tracking w i sent attempt = Some w2 ->
  delivery_frame 0 w w2.
Proof.
  unfold CallbackService.update_tracking.
  destruct (Db.update _ _ (transactions w)) as [l|] eqn:Hu; [|discriminate].
  intros H; injection H as <-. unfold delivery_frame. cbn.
  repeat split; try lia.
  - eapply update_keeps; [exact Hu | reflexivity].
  - exists []. rewrite app_nil_r. split; [reflexivity | cbn; lia].
Qed.

Lemma attempts_frame net tx remaining : forall attempt w,
  delivery_frame remaining w
    (snd (CallbackService.attempts net remaining attempt tx w)).
Proof.
  induction remaining as [|rest IH]; intros attempt w;
    cbn [CallbackService.attempts].
  - apply frame_refl.
  - destruct (match merchant tx with
              | Some m => Some m
              | None => Db.findMerchant w (merchantId tx)
              end) as [m|]; [|apply frame_refl].
    cbv zeta.
    set (w1 := log_event w _).
    assert (F1 : delivery_frame 1 w w1) by apply frame_post.
    assert (Hcatch :
      delivery_frame (S rest) w
        (snd match CallbackService.update_tracking w1 (id tx) None (attempt + 1) with
             | Some w2 =>
                 if attempt + 1 <? CallbackService.maxAttempts
                 then CallbackService.attempts net rest (attempt + 1) tx
                        (CallbackService.sleep w2 (2 ^ (attempt + 1) * 1000))
                 else CallbackService.attempts net rest (attempt + 1) tx w2
             | None => (Threw, w1)
             end)).
    { destruct (CallbackService.update_tracking w1 (id tx) None (attempt + 1))
        as [w2|] eqn:Hu.
      - apply frame_tracking in Hu.
        destruct (attempt + 1 <? CallbackService.maxAttempts).
        + change (S rest) with (1 + 0 + 0 + rest)%nat.
          eapply frame_trans; [|apply IH].
          eapply frame_trans; [|apply frame_sleep].
          * eapply frame_trans; [exact F1 | exact Hu].
          * assert (0 <= 2 ^ (attempt + 1)) by (apply Z.pow_nonneg; lia). lia.
        + change (S rest) with (1 + 0 + rest)%nat.
          eapply frame_trans; [|apply IH].
          eapply frame_trans; [exact F1 | exact Hu].
      - cbn [snd]. eapply frame_weaken; [|exact F1]. lia. }
    destruct (CallbackService.accepted (net (CallbackService.posts (trace w)))).
    + destruct (CallbackService.update_tracking w1 (id tx) (Some true) (attempt + 1))
        as [w2|] eqn:Hu; [|exact Hcatch].
      cbn [snd]. apply frame_tracking in Hu.
      eapply frame_weaken; [|eapply frame_trans; [exact F1 | exact Hu]]. lia.
    + exact Hcatch.
Qed.

(** X11: a delivery touches nothing but the three tracking columns.
    Whatever the target answers and whatever the state, [sendCallback]
    makes at most three POSTs, leaves the timers, the merchants, the
    scenario and every other column of every row (status and completion
    time among them) as they were, and only lets time pass.  When the
    merchant of the transaction cannot be found it returns false
    without a POST and without a write.  When the merchant is there
    but the row is not, the first POST is still made, the write that
    follows fails, and the error leaves [sendCallback]: a manual
    trigger cannot reach this, it returns false without any effect
    when the row is not found. *)
Theorem sendCallback_writes_only_tracking :
  (forall net tx w,
     delivery_frame 3 w (snd (CallbackService.sendCallback net tx w)))
  /\ (forall net tx w,
        merchant tx = None -> Db.findMerchant w (merchantId tx) = None ->
        CallbackService.sendCallback net tx w = (Returned false, w))
  /\ (forall net tx m w,
        resolves tx m w -> Db.findTransaction w (id tx) = None ->
        CallbackService.sendCallback net tx w
        = (Threw, log_event w (Posted (url tx) (body tx m))))
  /\ (forall net i w,
        Db.findTransaction w i = None ->
        CallbackService.triggerCallbackManually net i w = (false, w))
  /\ (forall net i w,
        delivery_frame 3 w (snd (CallbackService.triggerCallbackManually net i w))).
Proof.
  split; [|split; [|split; [|split]]].
  - intros net tx w. apply attempts_frame.
  - intros net tx w Hm Hf. unfold CallbackService.sendCallback.
    change (Z.to_nat CallbackService.maxAttempts) with 3%nat.
    cbn [CallbackService.attempts]. now rewrite Hm, Hf.
  - intros net tx m w Hm Hrow. unfold CallbackService.sendCallback.
    change (Z.to_nat CallbackService.maxAttempts) with 3%nat.
    cbn [CallbackService.attempts]. unfold resolves in Hm. rewrite Hm.
    cbv zeta.
    assert (Hu : forall sent a,
      CallbackService.update_tracking
        (log_event w (Posted (notifyUrl tx)
           (QueryString.stringify
              (CallbackService.buildCallbackPayload tx (signatureSecret m)))))
        (id tx) sent a = None).
    { intros sent a. unfold CallbackService.update_tracking.
      cbn [transactions log_event].
      unfold Db.findTransaction in Hrow. now rewrite update_undefined. }
    rewrite !Hu.
    destruct (CallbackService.accepted _); reflexivity.
  - intros net i w Hrow. unfold CallbackService.triggerCallbackManually,
      Db.findWithMerchant. now rewrite Hrow.
  - intros net i w. unfold CallbackService.triggerCallbackManually.
    destruct (Db.findWithMerchant w i) as [tx|]; [|apply frame_refl].
    pose proof (attempts_frame net tx 3 0 w) as F.
    unfold CallbackService.sendCallback.
    change (Z.to_nat CallbackService.maxAttempts) with 3%nat.
    destruct (CallbackService.attempts net 3 0 tx w) as [[b|] w']; exact F.
Qed.

Lemma sendCallback_writes_only_tracking_witness :
  CallbackService.triggerCallbackManually (Sample.always (Responded 200)) "tx-9"
    Sample.completed_ = (false, Sample.completed_).
Proof.
  destruct sendCallback_writes_only_tracking as (_ & _ & _ & Hnone & _).
  apply (Hnone (Sample.always (Responded 200)) "tx-9" Sample.completed_).
  vm_compute. reflexivity.
Defined.

(** ** The admin API *)

Lemma apiKey_nonempty env : (Admin.apiKey env =? "")%string = false.
Proof.
  unfold Admin.apiKey. destruct env as [s|]; [|reflexivity].
  destruct (String.eqb s "") eqn:E; [reflexivity | exact E].
Qed.

Lemma apiKeyAuth_next env header :
  Admin.apiKeyAuth (Admin.apiKey env) header = Next tt
  <-> header = Some (Admin.apiKey env).
Proof.
  unfold Admin.apiKeyAuth, Validation.refuse. destruct header as [h|].
  - destruct (String.eqb_spec h (Admin.apiKey env)) as [->|Hne].
    + rewrite apiKey_nonempty. cbn. split; reflexivity.
    + rewrite orb_true_r. split; [discriminate|]. intros H. congruence.
  - split; discriminate.
Qed.

(** X12: the admin key.  A request to the admin API passes exactly when
    its [x-api-key] header is the configured key, and is refused with
    status 401 otherwise, without any effect on the state.  The
    configured key is the value of [API_KEY], and when that is unset or
    empty it is the default written in the source: a server started
    without [API_KEY] accepts that default. *)
Theorem admin_api_key :
  (forall env header,
     Admin.apiKeyAuth (Admin.apiKey env) header = Next tt
     <-> header = Some (Admin.apiKey env))
  /\ (forall configured header e,
        Admin.apiKeyAuth configured header = Refused e -> statusCode e = 401)
  /\ (forall env,
        Admin.apiKey env
        = match env with
          | Some (String c s) => String c s
          | _ => "your-admin-api-key-change-this"
          end)
  /\ (forall env header net i p w,
        header <> Some (Admin.apiKey env) ->
        snd (Admin.triggerCallback net (Admin.apiKey env) header i w) = w
        /\ snd (Admin.postScenario (Admin.apiKey env) header p w) = w
        /\ (exists e, fst (Admin.triggerCallback net (Admin.apiKey env) header i w)
                      = Refused e /\ statusCode e = 401)).
Proof.
  split; [|split; [|split]].
  - apply apiKeyAuth_next.
  - intros configured header e. unfold Admin.apiKeyAuth, Validation.refuse.
    destruct header as [h|].
    + destruct (_ || _); [|discriminate].
      intros H; injection H as <-; reflexivity.
    + intros H; injection H as <-; reflexivity.
  - intros [[|c s]|]; reflexivity.
  - intros env header net i p w Hne.
    unfold Admin.triggerCallback, Admin.postScenario.
    destruct (Admin.apiKeyAuth (Admin.apiKey env) header) as [[]|e] eqn:Ha.
    + apply apiKeyAuth_next in Ha. contradiction.
    + cbn [fst snd]. split; [reflexivity|]. split; [reflexivity|].
      exists e. split; [reflexivity|].
      revert Ha. unfold Admin.apiKeyAuth, Validation.refuse.
      destruct header as [h|].
      * destruct (_ || _); [|discriminate].
        intros H; injection H as <-; reflexivity.
      * intros H; injection H as <-; reflexivity.
Qed.

Lemma admin_api_key_witness :
  snd (Admin.triggerCallback (Sample.always (Responded 200)) (Admin.apiKey None)
         (Some "guess") "tx-1" Sample.completed_)
  = Sample.completed_.
Proof.
  destruct admin_api_key as (_ & _ & _ & H).
  apply (H None (Some "guess") (Sample.always (Responded 200)) "tx-1"
           (Sample.only_default DefaultFail) Sample.completed_).
  discriminate.
Defined.

(** X13: the manual trigger of the admin API.  With the right key, for
    a transaction whose merchant is on file, the answer is a success
    exactly when the target accepts one of the (at most three) POSTs
    made now; it is made whatever the status of the transaction and
    whether or not a callback was delivered before.  Otherwise the
    answer is the error 500, as it is for an unknown transaction, for
    which nothing is sent. *)
Theorem admin_trigger_answers :
  (forall net env i w row m,
     Db.findTransaction w i = Some row ->
     Db.findMerchant w (merchantId row) = Some m ->
     let n0 := CallbackService.posts (trace w) in
     exists w',
       Admin.triggerCallback net (Admin.apiKey env) (Some (Admin.apiKey env)) i w
       = (if confirmed net n0 then Next tt
          else Validation.refuse "Failed to trigger callback" 500, w')
       /\ CallbackService.posts (trace w') = (n0 + made net n0)%nat
       /\ option_map callbackSent (Db.findTransaction w' i)
          = Some (if confirmed net n0 then true else callbackSent row)
       /\ option_map status (Db.findTransaction w' i) = Some (status row))
  /\ (forall net env i w,
        Db.findTransaction w i = None ->
        Admin.triggerCallback net (Admin.apiKey env) (Some (Admin.apiKey env)) i w
        = (Validation.refuse "Failed to trigger callback" 500, w)).
Proof.
  split.
  - intros net env i w row m Hrow Hmer n0. subst n0.
    unfold Admin.triggerCallback.
    rewrite (proj2 (apiKeyAuth_next env (Some (Admin.apiKey env))) eq_refl).
    pose proof (find_holds _ _ _ Hrow) as Hid. apply String.eqb_eq in Hid.
    unfold CallbackService.triggerCallbackManually, Db.findWithMerchant.
    rewrite Hrow.
    match goal with
    | |- context [CallbackService.sendCallback net ?t w] => set (tx := t)
    end.
    destruct (sendCallback_runs net tx m w row) as (w' & t & Hrun & Htr & Hrow' & _).
    + unfold resolves. cbn. now rewrite Hmer.
    + cbn. rewrite Hid. exact Hrow.
    + rewrite Hrun. cbv zeta in Hrow', Htr.
      cbn [id tx] in Hrow'. rewrite Hid in Hrow'.
      pose proof (made_bounds net (CallbackService.posts (trace w))) as Hb.
      exists w'. split; [|split; [|split]].
      * destruct (confirmed net (CallbackService.posts (trace w))); reflexivity.
      * rewrite Htr, posts_app, posts_deliveries by lia. reflexivity.
      * rewrite Hrow'. cbn.
        destruct (confirmed net (CallbackService.posts (trace w))); reflexivity.
      * rewrite Hrow'. reflexivity.
  - intros net env i w Hrow. unfold Admin.triggerCallback.
    rewrite (proj2 (apiKeyAuth_next env (Some (Admin.apiKey env))) eq_refl).
    unfold CallbackService.triggerCallbackManually, Db.findWithMerchant.
    now rewrite Hrow.
Qed.

Lemma admin_trigger_answers_witness :
  exists w',
    Admin.triggerCallback Sample.down_then_up (Admin.apiKey None)
      (Some (Admin.apiKey None)) "tx-1" Sample.undelivered_
    = (Next tt, w')
    /\ option_map callbackSent (Db.findTransaction w' "tx-1") = Some true.
Proof.
  assert (Hrow : Db.findTransaction Sample.undelivered_ "tx-1"
                 = Some Sample.given_up_) by (vm_compute; reflexivity).
  assert (Hmer : Db.findMerchant Sample.undelivered_ (merchantId Sample.given_up_)
                 = Some Sample.m1) by (vm_compute; reflexivity).
  assert (Hposts : CallbackService.posts (trace Sample.undelivered_) = 3%nat)
    by (vm_compute; reflexivity).
  destruct admin_trigger_answers as [Hsome _].
  destruct (Hsome Sample.down_then_up None "tx-1" Sample.undelivered_
              Sample.given_up_ Sample.m1 Hrow Hmer)
    as (w' & Hrun & _ & Hsent & _).
  rewrite Hposts in Hrun, Hsent.
  exists w'. split; [exact Hrun | exact Hsent].
Defined.

(** ** Pages of the transaction list *)

Lemma insert_latest_perm tx l : Permutation (tx :: l) (Listing.insert_latest tx l).
Proof.
  induction l as [|h t IH]; cbn [Listing.insert_latest]; [apply Permutation_refl|].
  destruct (createdTime h <=? createdTime tx); [apply Permutation_refl|].
  eapply perm_trans; [apply perm_swap | now apply perm_skip].
Qed.

Lemma latest_first_perm l : Permutation l (Listing.latest_first l).
Proof.
  induction l as [|h t IH]; cbn [Listing.latest_first]; [constructor|].
  eapply perm_trans; [apply perm_skip; exact IH | apply insert_latest_perm].
Qed.

Lemma insert_latest_hd tx a l :
  later a tx -> HdRel later a l -> HdRel later a (Listing.insert_latest tx l).
Proof.
  intros Ha Hl. destruct l as [|h t]; cbn [Listing.insert_latest].
  - now constructor.
  - destruct (createdTime h <=? createdTime tx); constructor; [exact Ha|].
    now inversion Hl.
Qed.

Lemma insert_latest_sorted tx l :
  Sorted later l -> Sorted later (Listing.insert_latest tx l).
Proof.
  induction 1 as [|h t Ht IH Hh]; cbn [Listing.insert_latest].
  - repeat constructor.
  - destruct (Z.leb_spec (createdTime h) (createdTime tx)) as [Hle|Hgt].
    + constructor; [now constructor|]. constructor. exact Hle.
    + constructor; [exact IH|].
      apply insert_latest_hd; [unfold later; lia | exact Hh].
Qed.

Lemma latest_first_sorted l : Sorted later (Listing.latest_first l).
Proof.
  induction l as [|h t IH]; cbn [Listing.latest_first];
    [constructor | now apply insert_latest_sorted].
Qed.

Lemma pages_concat (A : Type) (limit : nat) : forall n (l : list A),
  (1 <= limit)%nat -> (List.length l <= n * limit)%nat ->
  List.concat (map (fun k => firstn limit (skipn ((k - 1) * limit) l)) (seq 1 n)) = l.
Proof.
  induction n as [|n IH]; intros l Hl Hn.
  - destruct l; [reflexivity | cbn in Hn; lia].
  - cbn [seq map List.concat]. cbn [Nat.sub Nat.mul skipn].
    transitivity (firstn limit l ++ skipn limit l)%list;
      [|apply firstn_skipn].
    f_equal. rewrite <- seq_shift, map_map.
    etransitivity; [|apply (IH (skipn limit l) Hl)].
    + f_equal. apply map_ext_in. intros k Hk. apply in_seq in Hk.
      rewrite skipn_skipn. do 2 f_equal. nia.
    + rewrite length_skipn. cbn in Hn. lia.
Qed.

Lemma ceil_bounds total limit :
  (1 <= limit)%nat ->
  (total <= (total + limit - 1) / limit * limit)%nat
  /\ ((total + limit - 1) / limit * limit < total + limit)%nat.
Proof.
  intros Hl.
  pose proof (Nat.div_mod_eq (total + limit - 1) limit) as E.
  pose proof (Nat.mod_upper_bound (total + limit - 1) limit ltac:(lia)) as B.
  split; nia.
Qed.

(** X14: the pages of [getAllTransactions].  For a page number and a
    limit of at least one, a page holds at most [limit] rows, every
    page before the last is full, a page is empty exactly when its
    number is beyond [totalPages], and the pages from 1 to [totalPages]
    put one after the other are all the transactions, each once, the
    latest created first. *)
Theorem pages_cover_all_transactions :
  forall w page limit,
    (1 <= page)%nat -> (1 <= limit)%nat ->
    let p := Listing.getAllTransactions w page limit in
    let pages :=
      List.concat (map (fun k => Listing.rows (Listing.getAllTransactions w k limit))
                  (seq 1 (Listing.totalPages p))) in
    (List.length (Listing.rows p) <= limit)%nat
    /\ (page < Listing.totalPages p ->
        List.length (Listing.rows p) = limit)%nat
    /\ (Listing.rows p = [] <-> (Listing.totalPages p < page)%nat)
    /\ Listing.total p = List.length (transactions w)
    /\ Permutation (transactions w) pages
    /\ Sorted later pages.
Proof.
  intros w page limit Hp Hl p pages. subst p pages.
  unfold Listing.getAllTransactions.
  cbn [Listing.rows Listing.totalPages Listing.total].
  set (all := Listing.latest_first (transactions w)).
  assert (Hlen : List.length all = List.length (transactions w)).
  { symmetry. apply Permutation_length, latest_first_perm. }
  rewrite <- Hlen.
  destruct (ceil_bounds (List.length all) limit Hl) as [Hlo Hhi].
  set (pages := ((List.length all + limit - 1) / limit)%nat) in *.
  rewrite (pages_concat _ limit pages all Hl Hlo).
  split; [|split; [|split; [|split; [|split]]]].
  - rewrite length_firstn. lia.
  - intros Hlt. rewrite length_firstn, length_skipn. nia.
  - split.
    + intros He. apply (f_equal (@List.length _)) in He.
      rewrite length_firstn, length_skipn in He. cbn in He. nia.
    + intros Hlt. apply length_zero_iff_nil.
      rewrite length_firstn, length_skipn. nia.
  - reflexivity.
  - apply latest_first_perm.
  - apply latest_first_sorted.
Qed.

Lemma pages_cover_all_transactions_witness :
  (List.length
     (Listing.rows (Listing.getAllTransactions Sample.completed_ 1 20)) <= 20)%nat
  /\ Listing.totalPages (Listing.getAllTransactions Sample.completed_ 1 20) = 1%nat.
Proof.
  destruct (pages_cover_all_transactions Sample.completed_ 1 20) as [H _];
    [lia | lia |].
  split; [exact H | vm_compute; reflexivity].
Defined.

(** ** The lifecycle of a payment *)

(** *** Row numbers are read back from their decimal form *)

Lemma code_digit_char d : 0 <= d < 10 -> Str.code (Str.digit_char d) = 48 + d.
Proof.
  intros Hd. apply Z.eqb_eq.
  apply (checked_below (fun d => Str.code (Str.digit_char d) =? 48 + d) 10);
    [vm_compute; reflexivity | lia].
Qed.

Lemma digits_value_acc s : forall acc,
  Str.digits_value acc s
  = acc * 10 ^ Z.of_nat (String.length s) + Str.digits_value 0 s.
Proof.
  induction s as [|c r IH]; intros acc; cbn [Str.digits_value String.length].
  - change (10 ^ Z.of_nat 0) with 1. lia.
  - rewrite IH. rewrite (IH (10 * 0 + (Str.code c - 48))).
    rewrite Nat2Z.inj_succ, Z.pow_succ_r by lia. lia.
Qed.

Lemma digits_of_back fuel : forall n acc,
  0 <= n < 10 ^ Z.of_nat fuel ->
  Str.digits_value 0 (Str.digits_of fuel n acc)
  = n * 10 ^ Z.of_nat (String.length acc) + Str.digits_value 0 acc.
Proof.
  induction fuel as [|f IH]; intros n acc Hn; cbn [Str.digits_of].
  - change (10 ^ Z.of_nat 0) with 1 in Hn. assert (n = 0) by lia. subst. lia.
  - rewrite Nat2Z.inj_succ, Z.pow_succ_r in Hn by lia.
    assert (Hm : 0 <= n mod 10 < 10) by (apply Z.mod_pos_bound; lia).
    assert (Hpow : 0 < 10 ^ Z.of_nat (String.length acc))
      by (apply Z.pow_pos_nonneg; lia).
    assert (Hx : Str.digits_value 0
                   (String (Str.digit_char (n mod 10)) acc)
                 = (n mod 10) * 10 ^ Z.of_nat (String.length acc)
                   + Str.digits_value 0 acc).
    { cbn [Str.digits_value]. rewrite digits_value_acc, code_digit_char by lia.
      f_equal. f_equal. lia. }
    destruct (Z.ltb_spec n 10) as [Hlt|Hge].
    + rewrite Hx. rewrite Z.mod_small by lia. reflexivity.
    + rewrite IH.
      * rewrite Hx. cbn [String.length].
        rewrite Nat2Z.inj_succ, Z.pow_succ_r by lia.
        pose proof (Z.div_mod n 10 ltac:(lia)) as E. nia.
      * split; [apply Z.div_pos; lia|].
        apply Z.div_lt_upper_bound; lia.
Qed.

Lemma of_Z_back n : 0 <= n -> Str.digits_value 0 (Str.of_Z n) = n.
Proof.
  intros Hn. unfold Str.of_Z.
  replace (n <? 0) with false by (symmetry; apply Z.ltb_ge; lia).
  rewrite digits_of_back.
  - cbn [String.length Str.digits_value]. change (10 ^ Z.of_nat 0) with 1. lia.
  - split; [exact Hn|].
    rewrite Nat2Z.inj_succ, Z2Nat.id by apply Z.log2_nonneg.
    destruct (Z.eq_dec n 0) as [->|Hne]; [reflexivity|].
    destruct (Z.log2_spec n ltac:(lia)) as [_ Hup].
    eapply Z.lt_le_trans; [exact Hup|].
    apply Z.pow_le_mono_l. pose proof (Z.log2_nonneg n). lia.
Qed.

Lemma of_Z_inj a b : 0 <= a -> 0 <= b -> Str.of_Z a = Str.of_Z b -> a = b.
Proof.
  intros Ha Hb H. apply (f_equal (Str.digits_value 0)) in H.
  now rewrite !of_Z_back in H.
Qed.

(** *** Rows and timers *)

Lemma find_unique l row :
  NoDup (map requestReference l) -> In row l ->
  Db.find (Db.by_requestReference (requestReference row)) l = Some row.
Proof.
  induction l as [|y r IH]; cbn [map Db.find]; intros Hnd Hin; [contradiction|].
  inversion Hnd as [|? ? Hy Hr]; subst. unfold Db.by_requestReference at 1.
  destruct Hin as [->|Hin].
  - now rewrite String.eqb_refl.
  - destruct (String.eqb_spec (requestReference y) (requestReference row)) as [E|_].
    + exfalso. apply Hy. rewrite E. now apply in_map.
    + now apply IH.
Qed.

Lemma forward_refl row : forward row row.
Proof.
  unfold forward. repeat split; try reflexivity; try lia.
Qed.

Lemma terminal_rank s : terminal s = true <-> rank s = 2.
Proof.
  destruct s; cbn; split; intros; try reflexivity; try discriminate; lia.
Qed.

Lemma forward_trans a b c : forward a b -> forward b c -> forward a c.
Proof.
  intros (A1 & A2 & A3 & A4 & A5 & A6 & A7 & A8 & A9 & A10 & A11)
         (B1 & B2 & B3 & B4 & B5 & B6 & B7 & B8 & B9 & B10 & B11).
  unfold forward. repeat split; try congruence; try lia.
  - destruct (A11 H) as [E _]. rewrite <- E in H.
    destruct (B11 H) as [E' _]. congruence.
  - destruct (A11 H) as [E E2]. rewrite <- E in H.
    destruct (B11 H) as [_ E']. congruence.
Qed.

Lemma advances_refl w : advances w w.
Proof.
  intros r row H. exists row. split; [exact H | apply forward_refl].
Qed.

Lemma advances_trans a b c : advances a b -> advances b c -> advances a c.
Proof.
  intros Hab Hbc r row H.
  destruct (Hab r row H) as (row1 & H1 & F1).
  destruct (Hbc r row1 H1) as (row2 & H2 & F2).
  exists row2. split; [exact H2 | eapply forward_trans; eassumption].
Qed.

Lemma outcome_is_terminal cfg random amount network token :
  terminal (ScenarioService.getOutcomeForTransaction cfg random amount network token)
  = true.
Proof.
  unfold ScenarioService.getOutcomeForTransaction.
  destruct (ScenarioService.checkRules (rules cfg) amount network) as [s|] eqn:E.
  - revert E. induction (rules cfg) as [|x rs IH];
      cbn [ScenarioService.checkRules]; [discriminate|].
    destruct (ScenarioService.ruleMatches x amount network); [|exact IH].
    intros H; injection H as <-. unfold ScenarioService.rule_status.
    destruct (outcome x); reflexivity.
  - destruct (defaultOutcome cfg); try reflexivity.
    destruct (Qle_bool random (1 # 2)); reflexivity.
Qed.

Lemma pick_none l : PaymentPage.pick l = None -> l = [].
Proof.
  destruct l as [|x r]; cbn [PaymentPage.pick]; [reflexivity|].
  destruct (PaymentPage.pick r) as [[t' r']|]; [|discriminate].
  destruct (due x <=? due t'); discriminate.
Qed.

Lemma pick_perm l : forall t rest,
  PaymentPage.pick l = Some (t, rest) -> Permutation l (t :: rest).
Proof.
  induction l as [|x r IH]; intros t rest; cbn [PaymentPage.pick];
    [discriminate|].
  destruct (PaymentPage.pick r) as [[t' r']|] eqn:E.
  - destruct (due x <=? due t').
    + intros H; injection H as <- <-. apply Permutation_refl.
    + intros H; injection H as <- <-.
      eapply perm_trans; [apply perm_skip, (IH t' r' eq_refl) | apply perm_swap].
  - intros H; injection H as <- <-. apply pick_none in E. subst r.
    apply Permutation_refl.
Qed.

Lemma timer_refs_perm l l' :
  Permutation l l' -> Permutation (timer_refs l) (timer_refs l').
Proof.
  intros H. unfold timer_refs. now apply Permutation_flat_map.
Qed.

Lemma timer_refs_app a b : timer_refs (a ++ b) = (timer_refs a ++ timer_refs b)%list.
Proof.
  unfold timer_refs. apply flat_map_app.
Qed.

(** A timer that waits for a row names a row that is there. *)
Lemma awaited_ref rows t r :
  awaited rows t -> In r (timer_refs [t]) ->
  exists row, In row rows /\ requestReference row = r.
Proof.
  unfold awaited, timer_refs. cbn [flat_map]. rewrite app_nil_r.
  destruct (task t) as [r0 ? ? ? ?|r0 ? s|?]; intros H Hin;
    cbn [In] in Hin; try contradiction.
  - destruct Hin as [<-|[]]. destruct H as (row & Hf & _).
    exists row. split; [now apply find_in in Hf|].
    apply find_holds in Hf. now apply String.eqb_eq.
  - destruct Hin as [<-|[]]. destruct H as (_ & row & Hf & _).
    exists row. split; [now apply find_in in Hf|].
    apply find_holds in Hf. now apply String.eqb_eq.
Qed.

Lemma timer_refs_rows rows l r :
  Forall (awaited rows) l -> In r (timer_refs l) ->
  exists row, In row rows /\ requestReference row = r.
Proof.
  induction 1 as [|t l Ht Hl IH]; [intros []|].
  change (t :: l) with ([t] ++ l)%list. rewrite timer_refs_app.
  intros Hin. apply in_app_or in Hin. destruct Hin as [Hin|Hin].
  - now apply (awaited_ref rows t).
  - now apply IH.
Qed.

(** A timer for another reference does not notice an update. *)
Lemma awaited_other rows rows' t :
  (forall r, In r (timer_refs [t]) ->
     Db.find (Db.by_requestReference r) rows'
     = Db.find (Db.by_requestReference r) rows) ->
  awaited rows t -> awaited rows' t.
Proof.
  unfold awaited, timer_refs. cbn [flat_map]. rewrite app_nil_r.
  destruct (task t) as [r0 ? ? ? ?|r0 ? s|?]; intros Hsame H; [| |exact I].
  - rewrite (Hsame r0) by now left. exact H.
  - rewrite (Hsame r0) by now left. exact H.
Qed.

Lemma awaited_others rows rows' l :
  (forall r, In r (timer_refs l) ->
     Db.find (Db.by_requestReference r) rows'
     = Db.find (Db.by_requestReference r) rows) ->
  Forall (awaited rows) l -> Forall (awaited rows') l.
Proof.
  intros Hsame H. induction H as [|t l Ht Hl IH]; [constructor|].
  change (t :: l) with ([t] ++ l)%list in Hsame. rewrite timer_refs_app in Hsame.
  constructor.
  - apply (awaited_other rows); [|exact Ht].
    intros r Hr. apply Hsame. apply in_or_app. now left.
  - apply IH. intros r Hr. apply Hsame. apply in_or_app. now right.
Qed.

Lemma NoDup_disjoint {A} (a b : list A) :
  NoDup (a ++ b) -> forall x, In x a -> ~ In x b.
Proof.
  induction a as [|y a IH]; cbn [app]; intros Hnd x Hin; [contradiction|].
  inversion Hnd as [|? ? Hy Ha]; subst. destruct Hin as [->|Hin].
  - intros Hb. apply Hy. apply in_or_app. now right.
  - now apply IH.
Qed.

Lemma sound_picked w t rest c :
  sound w -> PaymentPage.pick (timers w) = Some (t, rest) ->
  sound (set_clock (set_timers w rest) c)
  /\ awaited (transactions w) t
  /\ (forall r, In r (timer_refs [t]) -> ~ In r (timer_refs rest)).
Proof.
  intros (Hs & Hn & Hd & Hc & Ht & Hr) Hp.
  apply pick_perm in Hp.
  assert (Ht' : Forall (awaited (transactions w)) (t :: rest))
    by (eapply Permutation_Forall; [exact Hp | exact Ht]).
  assert (Hr' : NoDup (timer_refs ([t] ++ rest)))
    by (eapply Permutation_NoDup; [apply timer_refs_perm; exact Hp | exact Hr]).
  rewrite timer_refs_app in Hr'.
  inversion Ht' as [|? ? Hat Hrest]; subst.
  split; [|split].
  - unfold sound. cbn [serial transactions timers set_clock set_timers].
    repeat split; try assumption.
    now apply NoDup_app_remove_l in Hr'.
  - exact Hat.
  - now apply NoDup_disjoint.
Qed.

(** One status update, with the timer that is set after it. *)
Lemma update_then_timer w1 w2 r row s c tk delay :
  sound w1 ->
  ~ In r (timer_refs (timers w1)) ->
  PaymentService.getTransactionByRequestReference w1 r = Some row ->
  (stamped w1 s c = None <-> terminal s = false) ->
  rank (status row) <= rank s -> terminal (status row) = false ->
  PaymentService.updateTransactionStatus w1 r s c = Some w2 ->
  match tk with
  | ToProcessing _ _ _ _ _ => False
  | ToFinal r' _ s' => r' = r /\ terminal s' = true /\ s = PROCESSING
  | ScheduledCallback _ => True
  end ->
  sound (setTimeout w2 tk delay) /\ advances w1 (setTimeout w2 tk delay).
Proof.
  intros (Hs & Hn & Hd & Hc & Ht & Hr) Hfresh Hrow Hst Hrank Hterm Hu Htk.
  revert Hu. unfold PaymentService.updateTransactionStatus.
  fold (stamped w1 s c).
  destruct (Db.update _ _ (transactions w1)) as [l'|] eqn:Hu; [|discriminate].
  intros H; injection H as <-.
  assert (Hsame : forall r', r' <> r ->
    Db.find (Db.by_requestReference r') l'
    = Db.find (Db.by_requestReference r') (transactions w1)).
  { intros r' Hne. eapply find_update_other; [exact Hu | reflexivity |].
    intros x Hx. unfold Db.by_requestReference in *.
    apply String.eqb_eq in Hx. rewrite Hx. apply String.eqb_neq. congruence. }
  assert (Hnew : Db.find (Db.by_requestReference r) l'
                 = Some (PaymentService.with_status s (stamped w1 s c) row)).
  { rewrite (find_update (Db.by_requestReference r)
               (PaymentService.with_status s (stamped w1 s c))
               (fun x => eq_refl) (transactions w1) l' Hu).
    unfold PaymentService.getTransactionByRequestReference in Hrow.
    now rewrite Hrow. }
  split.
  - unfold sound.
    cbn [serial transactions timers setTimeout set_timers set_transactions].
    split; [exact Hs|]. split; [|split; [|split; [|split]]].
    + eapply update_forall; [|exact Hu | exact Hn]. intros x Hx. exact Hx.
    + erewrite update_keeps; [exact Hd | exact Hu | reflexivity].
    + eapply update_forall; [|exact Hu | exact Hc].
      intros x _. unfold settled. cbn. exact Hst.
    + apply Forall_app. split.
      * apply (awaited_others (transactions w1)); [|exact Ht].
        intros r' Hr'. apply Hsame. intros ->. contradiction.
      * constructor; [|constructor]. unfold awaited. cbn [task].
        destruct tk as [? ? ? ? ?|r' ? s'|?]; [contradiction| |exact I].
        destruct Htk as (-> & Hs' & ->). split; [exact Hs'|].
        eexists. split; [exact Hnew | reflexivity].
    + rewrite timer_refs_app. apply NoDup_app; [exact Hr | |].
      * unfold timer_refs. cbn [flat_map task].
        destruct tk; repeat constructor; intros [].
      * intros a Ha. unfold timer_refs. cbn [flat_map task].
        destruct tk as [? ? ? ? ?|r' ? s'|?]; [contradiction| |intros []].
        destruct Htk as (-> & _). rewrite app_nil_r. intros [<-|[]].
        contradiction.
  - intros r0 row0 H0. unfold PaymentService.getTransactionByRequestReference in *.
    cbn [transactions setTimeout set_timers set_transactions].
    destruct (String.eqb_spec r0 r) as [->|Hne].
    + rewrite Hrow in H0. injection H0 as <-.
      eexists. split; [exact Hnew|].
      unfold forward. cbn. repeat split; try assumption.
      * rewrite Hterm in H. discriminate.
      * rewrite Hterm in H. discriminate.
    + rewrite (Hsame r0 Hne). exists row0. split; [exact H0 | apply forward_refl].
Qed.

(** A request adds a row under a number not used before. *)
Lemma request_sound w body m :
  sound w ->
  sound (act (Request body m) w) /\ advances w (act (Request body m) w).
Proof.
  intros Hsound. pose proof Hsound as (Hs & Hn & Hd & Hc & Ht & Hr).
  cbn [act]. unfold PaymentPage.handler, PaymentService.createTransaction.
  destruct (Decimal.parse (req_amount body)) as [a|];
    [|split; [exact Hsound | apply advances_refl]].
  cbv zeta.
  set (tx := {| id := "tx-" ++ Str.of_Z (serial w + 1);
                requestReference := "req-" ++ Str.of_Z (serial w + 1) |}).
  assert (Hfresh : forall row, In row (transactions w) ->
                     requestReference row <> requestReference tx).
  { intros row Hin. rewrite Forall_forall in Hn.
    destruct (Hn row Hin) as (k & Hk & _ & Hk'). rewrite Hk'. cbn.
    intros E. injection E as E.
    apply of_Z_inj in E; lia. }
  assert (Hnone : Db.find (Db.by_requestReference (requestReference tx))
                    (transactions w) = None).
  { apply find_none. intros x Hx. unfold Db.by_requestReference.
    apply String.eqb_neq. now apply Hfresh. }
  assert (Hold : forall r row,
    Db.find (Db.by_requestReference r) (transactions w) = Some row ->
    Db.find (Db.by_requestReference r) (transactions w ++ [tx]) = Some row).
  { intros r row H. now rewrite find_app, H. }
  split.
  - unfold sound.
    cbn [serial transactions timers setTimeout set_timers set_transactions
         bump_serial].
    split; [lia|]. split; [|split; [|split; [|split]]].
    + apply Forall_app. split.
      * eapply Forall_impl; [|exact Hn].
        intros row (k & Hk & Hi & Hq). exists k. repeat split; try assumption; lia.
      * constructor; [|constructor]. exists (serial w + 1).
        repeat split; try lia.
    + rewrite map_app. apply NoDup_app; [exact Hd | repeat constructor; intros [] |].
      intros r Hin [<-|[]]. apply in_map_iff in Hin.
      destruct Hin as (row & E & Hin). now apply (Hfresh row).
    + apply Forall_app. split; [exact Hc|]. constructor; [|constructor].
      unfold settled. cbn. split; reflexivity.
    + apply Forall_app. split.
      * eapply Forall_impl; [|exact Ht]. intros t. unfold awaited.
        destruct (task t) as [r ? ? ? ?|r ? s|?]; [| |exact (fun x => x)].
        -- intros (row & Hf & Hst). exists row. split; [now apply Hold | exact Hst].
        -- intros (Hs' & row & Hf & Hst). split; [exact Hs'|].
           exists row. split; [now apply Hold | exact Hst].
      * constructor; [|constructor]. unfold awaited. cbn [task].
        exists tx. split; [|reflexivity].
        rewrite find_app, Hnone. cbn [Db.find]. unfold Db.by_requestReference.
        now rewrite String.eqb_refl.
    + rewrite timer_refs_app. apply NoDup_app; [exact Hr | repeat constructor; intros [] |].
      intros r Hin [<-|[]].
      destruct (timer_refs_rows _ _ _ Ht Hin) as (row & Hrow & E).
      now apply (Hfresh row).
  - intros r row H. unfold PaymentService.getTransactionByRequestReference in *.
    cbn [transactions setTimeout set_timers set_transactions bump_serial].
    exists row. split; [now apply Hold | apply forward_refl].
Qed.

(** Rows that differ in the tracking columns only. *)
Lemma columns_eq a b :
  payment_columns b = payment_columns a ->
  id b = id a /\ merchantId b = merchantId a
  /\ merchantReference b = merchantReference a
  /\ requestReference b = requestReference a
  /\ currency b = currency a /\ amount b = amount a
  /\ network b = network a /\ status b = status a /\ type b = type a
  /\ notifyUrl b = notifyUrl a /\ createdTime b = createdTime a
  /\ completedTime b = completedTime a.
Proof.
  unfold payment_columns. intros H. injection H. intros.
  repeat split; assumption.
Qed.

Lemma columns_find r : forall l l',
  map payment_columns l' = map payment_columns l ->
  match Db.find (Db.by_requestReference r) l,
        Db.find (Db.by_requestReference r) l' with
  | Some a, Some b => payment_columns b = payment_columns a
  | None, None => True
  | _, _ => False
  end.
Proof.
  induction l as [|x l IH]; intros [|y l'] H; cbn [map] in H;
    try discriminate; [exact I|].
  pose proof (f_equal (hd (payment_columns x)) H) as Hxy.
  pose proof (f_equal (@tl _) H) as Hl. cbn [hd tl] in Hxy, Hl.
  cbn [Db.find].
  change (Db.by_requestReference r x) with (String.eqb (requestReference x) r).
  change (Db.by_requestReference r y) with (String.eqb (requestReference y) r).
  assert (E : requestReference y = requestReference x).
  { apply (columns_eq x y Hxy). }
  rewrite E. destruct (String.eqb (requestReference x) r); [exact Hxy|].
  now apply IH.
Qed.

Lemma columns_forall (P : Transaction -> Prop) :
  (forall a b, payment_columns b = payment_columns a -> P a -> P b) ->
  forall l l', map payment_columns l' = map payment_columns l ->
               Forall P l -> Forall P l'.
Proof.
  intros HP. induction l as [|x l IH]; intros [|y l'] H HF; cbn [map] in H;
    try discriminate; [constructor|].
  pose proof (f_equal (hd (payment_columns x)) H) as Hxy.
  pose proof (f_equal (@tl _) H) as Hl. cbn [hd tl] in Hxy, Hl.
  inversion HF; subst.
  constructor; [now apply (HP x) | now apply IH].
Qed.

Lemma delivery_sound n w w' :
  sound w -> delivery_frame n w w' -> sound w' /\ advances w w'.
Proof.
  intros (Hs & Hn & Hd & Hc & Ht & Hr)
         (Tm & _ & _ & _ & Sr & Cols & _).
  split.
  - unfold sound. rewrite Tm, Sr.
    split; [exact Hs|]. split; [|split; [|split; [|split]]].
    + eapply columns_forall; [|exact Cols | exact Hn].
      intros a b E (k & Hk & Hi & Hq).
      destruct (columns_eq a b E) as (E1 & _ & _ & E4 & _).
      exists k. repeat split; try congruence; lia.
    + replace (map requestReference (transactions w'))
        with (map requestReference (transactions w)); [exact Hd|].
      assert (E : forall l, map requestReference l
                = map (fun c => match c with
                                | (_, _, _, q, _, _, _, _, _, _, _, _) => q
                                end) (map payment_columns l)).
      { intros l. rewrite map_map. reflexivity. }
      now rewrite !E, Cols.
    + eapply columns_forall; [|exact Cols | exact Hc].
      intros a b E. unfold settled.
      destruct (columns_eq a b E) as (_ & _ & _ & _ & _ & _ & _ & E8 & _ & _ & _ & E12).
      now rewrite E8, E12.
    + eapply Forall_impl; [|exact Ht]. intros t. unfold awaited.
      destruct (task t) as [r ? ? ? ?|r ? s|?]; [| |exact (fun x => x)].
      * intros (row & Hf & Hst). pose proof (columns_find r _ _ Cols) as C.
        rewrite Hf in C.
        destruct (Db.find (Db.by_requestReference r) (transactions w'))
          as [b|]; [|contradiction].
        exists b. split; [reflexivity|].
        destruct (columns_eq row b C) as (_ & _ & _ & _ & _ & _ & _ & E8 & _).
        congruence.
      * intros (Hs' & row & Hf & Hst). split; [exact Hs'|].
        pose proof (columns_find r _ _ Cols) as C. rewrite Hf in C.
        destruct (Db.find (Db.by_requestReference r) (transactions w'))
          as [b|]; [|contradiction].
        exists b. split; [reflexivity|].
        destruct (columns_eq row b C) as (_ & _ & _ & _ & _ & _ & _ & E8 & _).
        congruence.
    + exact Hr.
  - intros r row H. unfold PaymentService.getTransactionByRequestReference in *.
    pose proof (columns_find r _ _ Cols) as C. rewrite H in C.
    destruct (Db.find (Db.by_requestReference r) (transactions w'))
      as [b|]; [|contradiction].
    exists b. split; [reflexivity|].
    destruct (columns_eq row b C)
      as (E1 & E2 & E3 & E4 & E5 & E6 & E7 & E8 & E9 & E10 & E11 & E12).
    unfold forward. rewrite E8.
    repeat split; try assumption; lia.
Qed.

Lemma tick_sound net random w w' :
  sound w -> PaymentPage.tick net random w = Some w' ->
  sound w' /\ advances w w'.
Proof.
  intros Hsound. unfold PaymentPage.tick.
  destruct (PaymentPage.pick (timers w)) as [[t rest]|] eqn:Hp; [|discriminate].
  intros H; injection H as <-.
  set (w1 := set_clock (set_timers w rest) (Z.max (clock w) (due t))).
  destruct (sound_picked w t rest (Z.max (clock w) (due t)) Hsound Hp)
    as (Hs1 & Hat & Hdis).
  fold w1 in Hs1.
  assert (Hrefs : forall r, In r (timer_refs [t]) -> ~ In r (timer_refs (timers w1)))
    by exact Hdis.
  assert (Hstep : sound (PaymentPage.run_task net random (task t) w1)
                  /\ advances w1 (PaymentPage.run_task net random (task t) w1)).
  { unfold awaited in Hat. unfold timer_refs in Hrefs at 1.
    cbn [flat_map] in Hrefs. rewrite app_nil_r in Hrefs.
    destruct (task t) as [r i a n tok|r i s|i]; cbn [PaymentPage.run_task].
    - destruct Hat as (row & Hrow & Hst).
      change (PaymentService.getTransactionByRequestReference w1 r = Some row)
        in Hrow.
      destruct (update_status_defined w1 r PROCESSING None row Hrow) as [w2 Hu].
      rewrite Hu.
      apply (update_then_timer w1 w2 r row PROCESSING None); try assumption.
      + apply Hrefs. now left.
      + cbn. split; reflexivity.
      + rewrite Hst. cbn. lia.
      + now rewrite Hst.
      + split; [reflexivity|]. split; [|reflexivity].
        apply outcome_is_terminal.
    - destruct Hat as (Hs & row & Hrow & Hst).
      change (PaymentService.getTransactionByRequestReference w1 r = Some row)
        in Hrow.
      destruct (update_status_defined w1 r s (Some (clock w1)) row Hrow)
        as [w2 Hu].
      rewrite Hu. unfold CallbackService.scheduleCallback.
      apply (update_then_timer w1 w2 r row s (Some (clock w1))); try assumption.
      + apply Hrefs. now left.
      + cbn [stamped]. rewrite Hs. split; discriminate.
      + rewrite Hst. apply terminal_rank in Hs. rewrite Hs. cbn. lia.
      + now rewrite Hst.
      + exact I.
    - destruct (Db.findWithMerchant w1 i) as [tx|];
        [|split; [exact Hs1 | apply advances_refl]].
      apply (delivery_sound 3); [exact Hs1|].
      apply attempts_frame. }
  destruct Hstep as [Hs2 Ha2]. split; [exact Hs2|].
  eapply advances_trans; [|exact Ha2].
  intros r row H. exists row. split; [exact H | apply forward_refl].
Qed.

Lemma act_sound a w : sound w -> sound (act a w) /\ advances w (act a w).
Proof.
  intros Hs. destruct a as [body m|net random|p|net i].
  - now apply request_sound.
  - cbn [act]. destruct (PaymentPage.tick net random w) as [w'|] eqn:Ht.
    + now apply (tick_sound net random).
    + split; [exact Hs | apply advances_refl].
  - cbn [act]. split; [exact Hs|].
    intros r row H. exists row. split; [exact H | apply forward_refl].
  - cbn [act]. apply (delivery_sound 3); [exact Hs|].
    unfold CallbackService.triggerCallbackManually.
    destruct (Db.findWithMerchant w i) as [tx|]; [|apply frame_refl].
    pose proof (attempts_frame net tx 3 0 w) as F.
    unfold CallbackService.sendCallback.
    change (Z.to_nat CallbackService.maxAttempts) with 3%nat.
    destruct (CallbackService.attempts net 3 0 tx w) as [[b|] w']; exact F.
Qed.

Lemma run_sound actions : forall w,
  sound w -> sound (run actions w) /\ advances w (run actions w).
Proof.
  unfold run. induction actions as [|a actions IH]; intros w Hs; cbn [fold_left].
  - split; [exact Hs | apply advances_refl].
  - destruct (act_sound a w Hs) as [Hs1 Ha1].
    destruct (IH (act a w) Hs1) as [Hs2 Ha2].
    split; [exact Hs2 | eapply advances_trans; eassumption].
Qed.

Lemma started_sound w : started w -> sound w.
Proof.
  intros (Hr & Ht & Hs). unfold sound. rewrite Hr, Ht, Hs.
  repeat split; try constructor. discriminate.
Qed.

(** X15: the lifecycle of a payment, in every state the process can
    reach from its start by payment requests, timers firing (each
    callback taken as one step, with any answers of the callback
    targets and any random draws), changes of the scenario and manual
    triggers.  A completion time is set exactly on the rows that are
    SUCCESS or FAIL; and from then on every row stays the same payment
    (same id, references, merchant, amount, currency, network, notify
    URL and creation time) whose status only moves forward along
    PENDING, PROCESSING, SUCCESS or FAIL: once SUCCESS or FAIL, its
    status and completion time never change again. *)
Theorem status_only_moves_forward :
  forall w0 before after,
    started w0 ->
    let w := run before w0 in
    let w' := run after w in
    Forall settled (transactions w)
    /\ forall row,
         In row (transactions w) ->
         exists row', In row' (transactions w') /\ forward row row'.
Proof.
  intros w0 before after Hstart w w'.
  destruct (run_sound before w0 (started_sound w0 Hstart)) as [Hs _].
  fold w in Hs.
  destruct (run_sound after w Hs) as [_ Ha]. fold w' in Ha.
  pose proof Hs as (_ & _ & Hd & Hc & _).
  split; [exact Hc|].
  intros row Hin.
  destruct (Ha (requestReference row) row (find_unique _ _ Hd Hin))
    as (row' & Hf & Hfw).
  exists row'. split; [now apply find_in in Hf | exact Hfw].
Qed.

Lemma status_only_moves_forward_witness :
  started Sample.w0
  /\ Forall settled
       (transactions
          (run [Request Sample.body Sample.m1;
                Fire (Sample.always (Responded 200)) 0;
                Fire (Sample.always (Responded 200)) 0] Sample.w0)).
Proof.
  assert (H : started Sample.w0) by (repeat split).
  split; [exact H|].
  apply (status_only_moves_forward Sample.w0
           [Request Sample.body Sample.m1;
            Fire (Sample.always (Responded 200)) 0;
            Fire (Sample.always (Responded 200)) 0] [] H).
Defined.

(** ** The string to sign determines the fields *)

Lemma no_separator_app a b :
  no_separator (a ++ b) = no_separator a && no_separator b.
Proof.
  induction a as [|c r IH]; cbn [append no_separator]; [reflexivity|].
  rewrite IH. now rewrite !andb_assoc.
Qed.

Lemma escape_char_no_separator c :
  no_separator (QueryString.escape_char c) = true.
Proof.
  destruct c as [[] [] [] [] [] [] [] []]; vm_compute; reflexivity.
Qed.

Lemma escape_no_separator s : no_separator (QueryString.escape s) = true.
Proof.
  induction s as [|c r IH]; cbn [QueryString.escape]; [reflexivity|].
  now rewrite no_separator_app, escape_char_no_separator, IH.
Qed.

(** Two strings free of separators, each before an [=]. *)
Lemma split_at_equals a : forall a' x x',
  no_separator a = true -> no_separator a' = true ->
  a ++ String "=" x = a' ++ String "=" x' -> a = a' /\ x = x'.
Proof.
  induction a as [|c r IH]; intros [|c' r'] x x' Ha Ha' E;
    cbn [append no_separator] in *.
  - injection E as ->. now split.
  - injection E as <- _. cbn in Ha'. discriminate.
  - injection E as -> _. cbn in Ha. discriminate.
  - injection E as -> E.
    apply andb_true_iff in Ha, Ha'. destruct Ha as [_ Ha], Ha' as [_ Ha'].
    destruct (IH r' x x' Ha Ha' E) as [-> ->]. now split.
Qed.

(** Two strings free of separators, each before the end or an [&]. *)
Lemma split_at_ampersand a : forall a' f f',
  no_separator a = true -> no_separator a' = true ->
  separated f -> separated f' ->
  a ++ f = a' ++ f' -> a = a' /\ f = f'.
Proof.
  induction a as [|c r IH]; intros [|c' r'] f f' Ha Ha' Hf Hf' E;
    cbn [append no_separator] in *.
  - now split.
  - subst f. cbn in Hf. subst c'. cbn in Ha'. discriminate.
  - subst f'. cbn in Hf'. subst c. cbn in Ha. discriminate.
  - injection E as -> E.
    apply andb_true_iff in Ha, Ha'. destruct Ha as [_ Ha], Ha' as [_ Ha'].
    destruct (IH r' f f' Ha Ha' Hf Hf' E) as [-> ->]. now split.
Qed.

Lemma following_separated o : separated (following o).
Proof.
  destruct o; cbn; [exact I | reflexivity].
Qed.

Lemma pair_then_rest e e' f f' :
  separated f -> separated f' ->
  SignSpec.pair_string e ++ f = SignSpec.pair_string e' ++ f' ->
  e = e' /\ f = f'.
Proof.
  destruct e as [k v], e' as [k' v']. unfold SignSpec.pair_string.
  cbn [fst snd]. intros Hf Hf' E.
  rewrite !append_assoc in E. cbn [append] in E.
  apply split_at_equals in E; try apply escape_no_separator.
  destruct E as [Ek E].
  apply split_at_ampersand in E; try apply escape_no_separator; try assumption.
  destruct E as [Ev Ef].
  apply escape_injective in Ek, Ev. subst. now split.
Qed.

Lemma following_injective o : forall o', following o = following o' -> o = o'.
Proof.
  induction o as [|e r IH]; intros [|e' r'] E; cbn [following] in E.
  - reflexivity.
  - discriminate.
  - discriminate.
  - cbn [append] in E. injection E as E.
    apply pair_then_rest in E; try apply following_separated.
    destruct E as [-> E]. f_equal. now apply IH.
Qed.

Lemma stringify_injective o o' :
  QueryString.stringify o = QueryString.stringify o' -> o = o'.
Proof.
  rewrite !stringify_join. destruct o as [|e r], o' as [|e' r'].
  - reflexivity.
  - rewrite join_following. cbn [map Str.join]. intros E. exfalso.
    pose proof (append_nonempty _ (following r') (pair_string_nonempty e')) as N.
    rewrite <- E in N. discriminate.
  - rewrite join_following. cbn [map Str.join]. intros E. exfalso.
    pose proof (append_nonempty _ (following r) (pair_string_nonempty e)) as N.
    rewrite E in N. discriminate.
  - rewrite !join_following. intros E.
    apply pair_then_rest in E; try apply following_separated.
    destruct E as [-> E]. f_equal. now apply following_injective.
Qed.

(** X16: the string that is signed can be read back.  [stringify]
    never gives the same text for two different objects, since [&] and
    [=] are always percent-encoded inside keys and values; so two
    requests of ordinary keys have the same string to sign exactly when
    they carry the same fields, in whatever order, and two requests
    with different fields get different signatures unless SHA-512
    collides on them. *)
Theorem query_string_determines_the_fields :
  (forall o o', QueryString.stringify o = QueryString.stringify o' -> o = o')
  /\ (forall fields fields',
        plain_fields fields -> plain_fields fields' ->
        (SignatureService.sortAndBuildQuery fields
         = SignatureService.sortAndBuildQuery fields'
         <-> Permutation fields fields'))
  /\ (forall fields fields' secret,
        plain_fields fields -> plain_fields fields' ->
        ~ Permutation fields fields' ->
        SignatureService.generateSignature fields secret
        <> SignatureService.generateSignature fields' secret
        \/ collide (SignatureService.signatureString fields secret)
                   (SignatureService.signatureString fields' secret)).
Proof.
  assert (Hiff : forall fields fields',
    plain_fields fields -> plain_fields fields' ->
    (SignatureService.sortAndBuildQuery fields
     = SignatureService.sortAndBuildQuery fields'
     <-> Permutation fields fields')).
  { intros fields fields' Hp Hp'. split.
    - unfold SignatureService.sortAndBuildQuery. intros E.
      apply stringify_injective in E.
      rewrite (sortFields_plain fields Hp), (sortFields_plain fields' Hp') in E.
      destruct Hp as [Hnd _], Hp' as [Hnd' _].
      rewrite <- (sort_entries_values fields Hnd),
              <- (sort_entries_values fields' Hnd') in E.
      eapply perm_trans; [apply sort_entries_perm|].
      rewrite E. apply Permutation_sym, sort_entries_perm.
    - intros Hperm. unfold SignatureService.sortAndBuildQuery.
      destruct Hp as [Hnd _].
      now rewrite (sortFields_of_permutation fields fields' Hnd Hperm). }
  split; [exact stringify_injective|]. split; [exact Hiff|].
  intros fields fields' secret Hp Hp' Hne.
  destruct (string_dec (SignatureService.generateSignature fields secret)
                       (SignatureService.generateSignature fields' secret))
    as [E|N]; [right | now left].
  split; [|exact E].
  unfold SignatureService.signatureString. intros E'.
  apply append_cancel_r in E'. apply Hne. now apply (Hiff fields fields').
Qed.

Lemma query_string_determines_the_fields_witness :
  SignatureService.sortAndBuildQuery [("amount", "100.00"); ("currency", "HKD")]
  = SignatureService.sortAndBuildQuery [("currency", "HKD"); ("amount", "100.00")].
Proof.
  destruct query_string_determines_the_fields as (_ & Hiff & _).
  apply (Hiff [("amount", "100.00"); ("currency", "HKD")]
              [("currency", "HKD"); ("amount", "100.00")]).
  - split; [repeat constructor; simpl; intuition discriminate
           | repeat constructor; discriminate].
  - split; [repeat constructor; simpl; intuition discriminate
           | repeat constructor; discriminate].
  - apply perm_swap.
Defined.

(** ** A created transaction is found again *)

Lemma fresh_number w row :
  sound w -> In row (transactions w) ->
  requestReference row <> "req-" ++ Str.of_Z (serial w + 1)
  /\ id row <> "tx-" ++ Str.of_Z (serial w + 1).
Proof.
  intros (Hs & Hn & _) Hin. rewrite Forall_forall in Hn.
  destruct (Hn row Hin) as (k & Hk & Hi & Hq). rewrite Hi, Hq.
  split; intros E; cbn in E; injection E as E; apply of_Z_inj in E; lia.
Qed.

(** X17: in every state the process can reach, a transaction that
    [createTransaction] stores is found again, as it was stored, by its
    request reference and by its id, and it is listed by the query for
    its merchant reference; the rows that were there before are found
    as before. *)
Theorem created_transaction_is_found :
  forall w0 actions data merchantId_ tx w',
    started w0 ->
    let w := run actions w0 in
    PaymentService.createTransaction w data merchantId_ = Some (tx, w') ->
    PaymentService.getTransactionByRequestReference w' (requestReference tx)
    = Some tx
    /\ Db.findTransaction w' (id tx) = Some tx
    /\ In (PaymentService.toQuery tx)
          (PaymentService.getTransactionsByMerchantReference w'
             (merchant_reference data))
    /\ status tx = PENDING /\ merchantId tx = merchantId_
    /\ (forall r row,
          PaymentService.getTransactionByRequestReference w r = Some row ->
          PaymentService.getTransactionByRequestReference w' r = Some row)
    /\ (forall i row,
          Db.findTransaction w i = Some row ->
          Db.findTransaction w' i = Some row).
Proof.
  intros w0 actions data mid tx w' Hstart w.
  destruct (run_sound actions w0 (started_sound w0 Hstart)) as [Hs _].
  fold w in Hs.
  unfold PaymentService.createTransaction.
  destruct (Decimal.parse (req_amount data)) as [a|]; [|discriminate].
  cbv zeta. intros H. injection H as <- <-.
  unfold PaymentService.getTransactionByRequestReference, Db.findTransaction,
    PaymentService.getTransactionsByMerchantReference.
  cbn [transactions bump_serial set_transactions requestReference id status
       merchantId].
  split; [|split; [|split; [|split; [|split; [|split]]]]].
  - rewrite find_app, find_none.
    + cbn [Db.find]. unfold Db.by_requestReference.
      cbn [requestReference]. now rewrite String.eqb_refl.
    + intros x Hx. unfold Db.by_requestReference. apply String.eqb_neq.
      now apply fresh_number.
  - rewrite find_app, find_none.
    + cbn [Db.find]. unfold Db.by_id. cbn [id]. now rewrite String.eqb_refl.
    + intros x Hx. unfold Db.by_id. apply String.eqb_neq.
      now apply fresh_number.
  - apply in_map.
    eapply Permutation_in; [apply order_by_time_perm|].
    apply filter_In. split.
    + apply in_or_app. right. now left.
    + cbn [merchantReference]. apply String.eqb_refl.
  - reflexivity.
  - reflexivity.
  - intros r row H. now rewrite find_app, H.
  - intros i row H. now rewrite find_app, H.
Qed.

Lemma created_transaction_is_found_witness :
  exists tx w',
    PaymentService.createTransaction
      (run [Request Sample.body Sample.m1] Sample.w0) Sample.body_padded "m1"
    = Some (tx, w')
    /\ PaymentService.getTransactionByRequestReference w' "req-2" = Some tx.
Proof.
  destruct (PaymentService.createTransaction
              (run [Request Sample.body Sample.m1] Sample.w0)
              Sample.body_padded "m1") as [[tx w']|] eqn:H.
  - exists tx, w'. split; [reflexivity|].
    assert (Href : requestReference tx = "req-2").
    { vm_compute in H. injection H as <- _. reflexivity. }
    rewrite <- Href.
    assert (Hstart : started Sample.w0) by (repeat split).
    destruct (created_transaction_is_found Sample.w0
                [Request Sample.body Sample.m1] Sample.body_padded "m1" tx w'
                Hstart H) as [Hfound _].
    exact Hfound.
  - exfalso. vm_compute in H. discriminate.
Defined.

(** ** No payment is left without its timer *)

Lemma attended_request w body m :
  sound w -> attended w -> attended (act (Request body m) w).
Proof.
  intros Hs Ha. cbn [act].
  unfold PaymentPage.handler, PaymentService.createTransaction.
  destruct (Decimal.parse (req_amount body)) as [a|]; [|exact Ha].
  cbv zeta. intros r row.
  unfold PaymentService.getTransactionByRequestReference.
  cbn [transactions timers setTimeout set_timers set_transactions bump_serial].
  rewrite find_app.
  destruct (Db.find (Db.by_requestReference r) (transactions w)) as [old|] eqn:Hf.
  - intros H; injection H as <-.
    destruct (Ha r old Hf) as [Ht | (t & Hin & Hw)]; [now left | right].
    exists t. split; [apply in_or_app; now left | exact Hw].
  - cbn [Db.find]. destruct (Db.by_requestReference r _); [|discriminate].
    intros H; injection H as <-. right.
    eexists. split; [apply in_or_app; right; now left|].
    unfold waits_for. cbn. now split.
Qed.

Lemma attended_delivery n w w' :
  attended w -> delivery_frame n w w' -> attended w'.
Proof.
  intros Ha (Tm & _ & _ & _ & _ & Cols & _) r row.
  unfold PaymentService.getTransactionByRequestReference. intros H.
  pose proof (columns_find r _ _ Cols) as C. rewrite H in C.
  destruct (Db.find (Db.by_requestReference r) (transactions w)) as [old|] eqn:Hf;
    [|contradiction].
  destruct (columns_eq old row C) as (_ & _ & _ & E4 & _ & _ & _ & E8 & _).
  rewrite Tm, E8.
  destruct (Ha r old Hf) as [Ht | (t & Hin & Hw)]; [now left | right].
  exists t. split; [exact Hin|].
  unfold waits_for in *. rewrite E4, E8. exact Hw.
Qed.

(** The rows other than the one a picked timer is for keep their
    timers. *)
Lemma attended_others w t rest c :
  attended w -> Permutation (timers w) (t :: rest) ->
  forall r0 row0,
    PaymentService.getTransactionByRequestReference
      (set_clock (set_timers w rest) c) r0 = Some row0 ->
    ~ In r0 (timer_refs [t]) ->
    terminal (status row0) = true
    \/ exists t', In t' rest /\ waits_for t' row0.
Proof.
  intros Ha Hp r0 row0 H Hne.
  change (PaymentService.getTransactionByRequestReference w r0 = Some row0) in H.
  destruct (Ha r0 row0 H) as [Ht | (t' & Hin & Hw)]; [now left | right].
  apply (Permutation_in _ Hp) in Hin. destruct Hin as [<-|Hin].
  - exfalso. apply Hne. apply find_holds in H.
    unfold Db.by_requestReference in H. apply String.eqb_eq in H.
    unfold waits_for in Hw. unfold timer_refs. cbn [flat_map].
    destruct (task t) as [r ? ? ? ?|r ? s|?]; [| |contradiction].
    + destruct Hw as [-> _]. left. now symmetry.
    + destruct Hw as [-> _]. left. now symmetry.
  - exists t'. now split.
Qed.

Lemma attended_update w1 w2 r s c tk delay :
  (forall r0 row0,
     PaymentService.getTransactionByRequestReference w1 r0 = Some row0 ->
     r0 <> r ->
     terminal (status row0) = true
     \/ exists t', In t' (timers w1) /\ waits_for t' row0) ->
  PaymentService.updateTransactionStatus w1 r s c = Some w2 ->
  (terminal s = true
   \/ match tk with
      | ToFinal r' _ s' => r' = r /\ s = PROCESSING /\ terminal s' = true
      | _ => False
      end) ->
  attended (setTimeout w2 tk delay).
Proof.
  intros Hothers Hu Htk r0 row0 H0.
  change (PaymentService.getTransactionByRequestReference w2 r0 = Some row0) in H0.
  pose proof (updated_row w1 w2 r s c Hu) as Hrow.
  assert (Htimers : timers w2 = timers w1) by apply (updated_frame w1 w2 r s c Hu).
  cbn [timers setTimeout set_timers]. rewrite Htimers.
  destruct (String.eqb_spec r0 r) as [->|Hne].
  - rewrite Hrow in H0.
    destruct (PaymentService.getTransactionByRequestReference w1 r) as [row|] eqn:Hf;
      [|discriminate].
    cbn [option_map] in H0. injection H0 as <-. cbn [status PaymentService.with_status].
    destruct Htk as [Ht | Htk]; [now left | right].
    destruct tk as [? ? ? ? ?|r' i s'|?]; try contradiction.
    destruct Htk as (-> & -> & Hs').
    eexists. split; [apply in_or_app; right; now left|].
    unfold waits_for. cbn. repeat split; try assumption.
    apply find_holds in Hf. unfold Db.by_requestReference in Hf.
    apply String.eqb_eq in Hf. now symmetry.
  - assert (Hsame : PaymentService.getTransactionByRequestReference w2 r0
                    = PaymentService.getTransactionByRequestReference w1 r0).
    { revert Hu. unfold PaymentService.updateTransactionStatus,
        PaymentService.getTransactionByRequestReference.
      destruct (Db.update _ _ (transactions w1)) as [l'|] eqn:Hu; [|discriminate].
      intros H; injection H as <-. cbn [transactions set_transactions].
      eapply find_update_other; [exact Hu | reflexivity |].
      intros x Hx. unfold Db.by_requestReference in *.
      apply String.eqb_eq in Hx. rewrite Hx. apply String.eqb_neq. congruence. }
    rewrite Hsame in H0.
    destruct (Hothers r0 row0 H0 Hne) as [Ht | (t' & Hin & Hw)]; [now left | right].
    exists t'. split; [apply in_or_app; now left | exact Hw].
Qed.

Lemma attended_tick net random w w' :
  sound w -> attended w -> PaymentPage.tick net random w = Some w' ->
  attended w'.
Proof.
  intros Hsound Ha. unfold PaymentPage.tick.
  destruct (PaymentPage.pick (timers w)) as [[t rest]|] eqn:Hp; [|discriminate].
  intros H; injection H as <-.
  set (w1 := set_clock (set_timers w rest) (Z.max (clock w) (due t))).
  destruct (sound_picked w t rest (Z.max (clock w) (due t)) Hsound Hp)
    as (Hs1 & Hat & _).
  pose proof (attended_others w t rest (Z.max (clock w) (due t)) Ha
                (pick_perm _ _ _ Hp)) as Hothers.
  fold w1 in Hs1, Hothers.
  unfold awaited in Hat. unfold timer_refs in Hothers. cbn [flat_map] in Hothers.
  destruct (task t) as [r i a n tok|r i s|i]; cbn [PaymentPage.run_task].
  - destruct Hat as (row & Hrow & Hst).
    change (PaymentService.getTransactionByRequestReference w1 r = Some row)
      in Hrow.
    destruct (update_status_defined w1 r PROCESSING None row Hrow) as [w2 Hu].
    rewrite Hu.
    apply (attended_update w1 w2 r PROCESSING None); [|exact Hu|].
    + intros r0 row0 H0 Hne. apply (Hothers r0 row0 H0).
      intros [E|[]]. now apply Hne.
    + right. split; [reflexivity|]. split; [reflexivity|].
      apply outcome_is_terminal.
  - destruct Hat as (Hs & row & Hrow & Hst).
    change (PaymentService.getTransactionByRequestReference w1 r = Some row)
      in Hrow.
    destruct (update_status_defined w1 r s (Some (clock w1)) row Hrow) as [w2 Hu].
    rewrite Hu. unfold CallbackService.scheduleCallback.
    apply (attended_update w1 w2 r s (Some (clock w1))); [|exact Hu|].
    + intros r0 row0 H0 Hne. apply (Hothers r0 row0 H0).
      intros [E|[]]. now apply Hne.
    + now left.
  - assert (Ha1 : attended w1).
    { intros r0 row0 H0. apply (Hothers r0 row0 H0). intros []. }
    destruct (Db.findWithMerchant w1 i) as [tx|]; [|exact Ha1].
    apply (attended_delivery 3 w1); [exact Ha1 | apply attempts_frame].
Qed.

Lemma run_attended actions : forall w,
  sound w -> attended w -> attended (run actions w).
Proof.
  unfold run. induction actions as [|a actions IH]; intros w Hs Ha;
    cbn [fold_left]; [exact Ha|].
  destruct (act_sound a w Hs) as [Hs1 _].
  apply IH; [exact Hs1|].
  destruct a as [body m|net random|p|net i].
  - now apply attended_request.
  - cbn [act]. destruct (PaymentPage.tick net random w) as [w'|] eqn:Ht;
      [now apply (attended_tick net random w) | exact Ha].
  - exact Ha.
  - cbn [act]. apply (attended_delivery 3 w); [exact Ha|].
    unfold CallbackService.triggerCallbackManually.
    destruct (Db.findWithMerchant w i) as [tx|]; [|apply frame_refl].
    pose proof (attempts_frame net tx 3 0 w) as F.
    unfold CallbackService.sendCallback.
    change (Z.to_nat CallbackService.maxAttempts) with 3%nat.
    destruct (CallbackService.attempts net 3 0 tx w) as [[b|] w']; exact F.
Qed.

(** X18: no payment is left without its timer.  In every state the
    process can reach from its start, taking each timer callback as one
    step, a payment is SUCCESS or FAIL, or it is PENDING with the timer
    pending that will set it to PROCESSING, or it is PROCESSING with
    the timer pending that will write an outcome already decided to be
    SUCCESS or FAIL.  So when no timer is pending every payment is
    complete, with its completion time set. *)
Theorem every_open_payment_has_its_timer :
  forall w0 actions,
    started w0 ->
    let w := run actions w0 in
    (forall row,
       In row (transactions w) ->
       terminal (status row) = true
       \/ (status row = PENDING
           /\ exists t i amount_ network_ token,
                In t (timers w)
                /\ task t = ToProcessing (requestReference row) i amount_
                              network_ token)
       \/ (status row = PROCESSING
           /\ exists t i s,
                In t (timers w)
                /\ task t = ToFinal (requestReference row) i s
                /\ terminal s = true))
    /\ (timers w = [] ->
        forall row,
          In row (transactions w) ->
          terminal (status row) = true /\ completedTime row <> None).
Proof.
  intros w0 actions Hstart w.
  pose proof (started_sound w0 Hstart) as Hs0.
  destruct (run_sound actions w0 Hs0) as [Hs _]. fold w in Hs.
  assert (Ha : attended w).
  { apply run_attended; [exact Hs0|].
    intros r row. unfold PaymentService.getTransactionByRequestReference.
    destruct Hstart as (-> & _). discriminate. }
  pose proof Hs as (_ & _ & Hd & Hc & _).
  assert (Hrows : forall row, In row (transactions w) ->
            terminal (status row) = true
            \/ exists t, In t (timers w) /\ waits_for t row).
  { intros row Hin. apply (Ha (requestReference row)).
    now apply find_unique. }
  split.
  - intros row Hin.
    destruct (Hrows row Hin) as [Ht | (t & Hin' & Hw)]; [now left | right].
    unfold waits_for in Hw.
    destruct (task t) as [r i a n tok|r i s|i] eqn:Et; [| |contradiction].
    + left. destruct Hw as [-> Hst]. split; [exact Hst|].
      exists t, i, a, n, tok. now split.
    + right. destruct Hw as (-> & Hst & Hs'). split; [exact Hst|].
      exists t, i, s. now repeat split.
  - intros Hnone row Hin.
    destruct (Hrows row Hin) as [Ht | (t & Hin' & _)].
    + split; [exact Ht|]. rewrite Forall_forall in Hc.
      destruct (Hc row Hin) as [Hc1 _]. intros E.
      apply Hc1 in E. congruence.
    + rewrite Hnone in Hin'. contradiction.
Qed.

Lemma every_open_payment_has_its_timer_witness :
  started Sample.w0
  /\ forall row,
       In row (transactions
                 (run [Request Sample.body Sample.m1;
                       Fire (Sample.always (Responded 200)) 0;
                       Fire (Sample.always (Responded 200)) 0;
                       Fire (Sample.always (Responded 200)) 0] Sample.w0)) ->
       terminal (status row) = true /\ completedTime row <> None.
Proof.
  assert (H : started Sample.w0) by (repeat split).
  split; [exact H|].
  destruct (every_open_payment_has_its_timer Sample.w0
              [Request Sample.body Sample.m1;
               Fire (Sample.always (Responded 200)) 0;
               Fire (Sample.always (Responded 200)) 0;
               Fire (Sample.always (Responded 200)) 0] H) as [_ Hdone].
  apply Hdone. vm_compute. reflexivity.
Defined.
